(** * Cold-Email-Formatter: outbound dispatch and delivery ledger

    A shallow embedding of the dispatch and bookkeeping code of the
    repository:

    - [Js]          the JavaScript string primitives the code relies on
                    ([parseInt], [String.prototype.replace], [trim], ...);
    - [Client]      [src/utils/emailSender.ts] ([getEmailConfig]);
    - [Routes]      [server/routes/emails.js] (history, single send, bulk send);
    - [Simple]      the file-backed server ([GET /api/emails],
                    [POST /api/emails/send]);
    - [EmailServer] [server/emailServer.js] (log store, [/api/send-email]);
    - [Admin]       [server/emailServer.js] (credentials, [/api/logs]);
    - [Sender]      [src/utils/emailSender.ts] ([sendEmail]);
    - [Companies]   [server/routes/companies.js];
    - [Accounts]    the file-backed server (accounts and companies);
    - [Re]          the regular expressions of the code, with their matcher;
    - [Filters]     [server/emailServer.js] (validation and sanitizers).

    Strings are [string]s of code units below 256; JavaScript numbers that
    the code only uses as integers are [Z]; [undefined] is [None].  The
    mail transport (nodemailer), the database, the file system, the clock
    and the random source are outside the program: the handlers take them
    as parameters, and what is proved holds for every behaviour of
    theirs.  What the program fixes itself is modelled as it is written:
    the routes of [server/routes/emails.js] and the test-email route call
    [nodemailer.createTransporter], a name that nodemailer does not
    export, where [emailServer.js] and the file-backed server call
    [nodemailer.createTransport]. *)

From Stdlib Require Import ZArith List String Ascii Bool Lia Arith Permutation.
From Stdlib Require Import DecimalString DecimalPos Sorting.Sorted.
Import ListNotations.

Local Open Scope string_scope.
Local Open Scope Z_scope.

(* ================================================================== *)
(** ** JavaScript primitives                                           *)
(* ================================================================== *)

Module Js.

(** [!!s] for a string: only the empty string is falsy. *)
Definition truthy (s : string) : bool := negb (s =? "")%string.

(** [!!v] for a value that is a string or [undefined]. *)
Definition truthy_opt (v : option string) : bool :=
  match v with
  | Some s => truthy s
  | None => false
  end.

(** [v || d] for a string-or-undefined [v]. *)
Definition or_else (v : option string) (d : string) : string :=
  match v with
  | Some s => if truthy s then s else d
  | None => d
  end.

(** WhiteSpace and LineTerminator code units below 256: TAB, LF, VT, FF,
    CR, SP and NBSP. *)
Definition isWhiteSpace (c : ascii) : bool :=
  let n := nat_of_ascii c in
  ((n =? 9) || (n =? 10) || (n =? 11) || (n =? 12) || (n =? 13)
   || (n =? 32) || (n =? 160))%nat.

Fixpoint trimStart (s : string) : string :=
  match s with
  | String c s' => if isWhiteSpace c then trimStart s' else s
  | EmptyString => EmptyString
  end.

Fixpoint trimEnd (s : string) : string :=
  match s with
  | EmptyString => EmptyString
  | String c s' =>
      let t := trimEnd s' in
      if isWhiteSpace c && (t =? "")%string then EmptyString else String c t
  end.

(** [String.prototype.trim]. *)
Definition trim (s : string) : string := trimEnd (trimStart s).

(** Value of a digit in the given radix, as [parseInt] reads it. *)
Definition digitValue (radix : Z) (c : ascii) : option Z :=
  let n := Z.of_nat (nat_of_ascii c) in
  let v :=
    if (48 <=? n) && (n <=? 57) then Some (n - 48)
    else if (97 <=? n) && (n <=? 122) then Some (n - 87)
    else if (65 <=? n) && (n <=? 90) then Some (n - 55)
    else None in
  match v with
  | Some d => if d <? radix then Some d else None
  | None => None
  end.

(** The longest prefix of digits, accumulated; [None] when there is none. *)
Fixpoint parseDigits (radix : Z) (acc : option Z) (s : string) : option Z :=
  match s with
  | EmptyString => acc
  | String c s' =>
      match digitValue radix c with
      | Some d =>
          parseDigits radix
            (Some (match acc with Some a => a * radix + d | None => d end)) s'
      | None => acc
      end
  end.

(** [parseInt(s)] with no radix argument: leading white space is skipped,
    a sign is read, a [0x]/[0X] prefix selects radix 16, and the longest
    prefix of digits is the value.  [None] is [NaN].  The value is kept
    exact; the code only compares it with 1, 465 and 65535. *)
Definition parseInt (s : string) : option Z :=
  let s1 := trimStart s in
  let '(sign, s2) :=
    match s1 with
    | String "-" r => (-1, r)
    | String "+" r => (1, r)
    | _ => (1, s1)
    end in
  let '(radix, s3) :=
    match s2 with
    | String "0" (String "x" r) => (16, r)
    | String "0" (String "X" r) => (16, r)
    | _ => (10, s2)
    end in
  match parseDigits radix None s3 with
  | Some v => Some (sign * v)
  | None => None
  end.

Fixpoint drop (n : nat) (s : string) : string :=
  match n, s with
  | O, _ => s
  | S k, String _ s' => drop k s'
  | S _, EmptyString => EmptyString
  end.

(** GetSubstitution for a match with no capture groups: in the replacement
    text [$$] is a dollar, [$&] the matched text, [$`] the text before the
    match and [$'] the text after it; every other character, and a dollar
    followed by anything else, stands for itself. *)
Fixpoint getSubstitution (matched before after repl : string) : string :=
  match repl with
  | EmptyString => EmptyString
  | String c r1 =>
      if Ascii.eqb c "$" then
        match r1 with
        | String d r2 =>
            if Ascii.eqb d "$" then
              String "$" (getSubstitution matched before after r2)
            else if Ascii.eqb d "&" then
              matched ++ getSubstitution matched before after r2
            else if Ascii.eqb d "`" then
              before ++ getSubstitution matched before after r2
            else if Ascii.eqb d "'" then
              after ++ getSubstitution matched before after r2
            else String c (getSubstitution matched before after r1)
        | EmptyString => String c EmptyString
        end
      else String c (getSubstitution matched before after r1)
  end.

(** Replacement of the occurrences of a non-empty literal [tok] in a
    string, scanning left to right.  [before] is the text already passed,
    [skip] the number of characters of a match still to be consumed, and
    [active] tells whether a further occurrence is still to be replaced:
    [global] keeps it on after a match (a [/tok/g] pattern), a string
    pattern turns it off (first occurrence only). *)
Fixpoint replaceFrom (global : bool) (tok repl : string)
    (before : string) (skip : nat) (active : bool) (s : string) : string :=
  match s with
  | EmptyString => EmptyString
  | String c s' =>
      match skip with
      | S k =>
          replaceFrom global tok repl (before ++ String c "") k active s'
      | O =>
          if active && String.prefix tok s then
            getSubstitution tok before (drop (String.length tok) s) repl
            ++ replaceFrom global tok repl (before ++ String c "")
                 (String.length tok - 1) global s'
          else
            String c
              (replaceFrom global tok repl (before ++ String c "") O active s')
      end
  end.

(** [s.replace(tok, repl)] with a string pattern: first occurrence only. *)
Definition replaceFirst (tok repl s : string) : string :=
  replaceFrom false tok repl "" O true s.

(** [s.replace(/tok/g, repl)] for a pattern that is the literal [tok]. *)
Definition replaceAll (tok repl s : string) : string :=
  replaceFrom true tok repl "" O true s.

(** Index of the first [>] in a string. *)
Fixpoint indexOfGt (s : string) : option nat :=
  match s with
  | EmptyString => None
  | String c s' =>
      if Ascii.eqb c ">" then Some O
      else match indexOfGt s' with
           | Some i => Some (S i)
           | None => None
           end
  end.

Fixpoint stripTagsFrom (skip : nat) (s : string) : string :=
  match s with
  | EmptyString => EmptyString
  | String c s' =>
      match skip with
      | S k => stripTagsFrom k s'
      | O =>
          if Ascii.eqb c "<" then
            match indexOfGt s' with
            | Some i => stripTagsFrom (S i) s'
            | None => String c (stripTagsFrom O s')
            end
          else String c (stripTagsFrom O s')
      end
  end.

(** [s.replace(/<[^>]*>/g, '')]: every [<] up to the next [>] is removed. *)
Definition stripTags (s : string) : string := stripTagsFrom O s.

(** A JSON value in a position where the code expects a number: absent, a
    number (an integer), or a string. *)
Inductive value : Type :=
  | Undefined
  | NaN
  | Num (n : Z)
  | Str (s : string).

(** ToString of an integer number (plain decimal, as JavaScript prints
    integers below 10^21 in magnitude). *)
Definition toString (n : Z) : string :=
  NilEmpty.string_of_int (Z.to_int n).

(** [parseInt(v)]: the argument is first converted to a string. *)
Definition parseIntValue (v : value) : option Z :=
  match v with
  | Undefined => parseInt "undefined"
  | NaN => parseInt "NaN"
  | Num n => parseInt (toString n)
  | Str s => parseInt s
  end.

(** A number produced by [parseInt], as a value. *)
Definition ofParsed (r : option Z) : value :=
  match r with
  | Some n => Num n
  | None => NaN
  end.

End Js.

(* ================================================================== *)
(** ** Companies and transport options                                 *)
(* ================================================================== *)

(** [emailSettings] of a company ([server/models/Company.js] and the
    [EmailSettings] interface of the front end).  [smtpHost], [smtpPort],
    [useSSL] and [useTLS] are optional. *)
Record EmailSettings : Type := {
  email : string;
  password : string;
  type : string;
  smtpHost : option string;
  smtpPort : Js.value;
  useSSL : option bool;
  useTLS : option bool
}.

Record SenderInfo : Type := {
  senderName : string;
  signature : option string
}.

Record Company : Type := {
  company_id : string;
  company_user : string;
  company_name : string;
  emailSettings : EmailSettings;
  senderInfo : SenderInfo;
  isActive : bool
}.

Record Auth : Type := {
  user : string;
  pass : string
}.

(** The options object handed to nodemailer for an SMTP connection.  [tls]
    is [None] when no [tls] option is given, and otherwise holds the value
    of [tls.rejectUnauthorized]; the three timeouts are in milliseconds. *)
Record SmtpOptions : Type := {
  host : option string;
  port : Js.value;
  secure : option bool;
  auth : Auth;
  tls : option (option bool);
  connectionTimeout : option Z;
  greetingTimeout : option Z;
  socketTimeout : option Z
}.

Inductive TransportOptions : Type :=
  | Service (service : string) (a : Auth)
  | Smtp (o : SmtpOptions).

(** An exception value: [error.code] and [error.message]. *)
Record JsError : Type := {
  code : option string;
  message : string
}.

(** What nodemailer's [sendMail] resolves to. *)
Record SendInfo : Type := {
  info_messageId : string;
  info_response : string
}.

(* ================================================================== *)
(** ** [src/utils/emailSender.ts]                                      *)
(* ================================================================== *)

Module Client.

Inductive EmailType : Type := Gmail | Website | NoType.

(** The [EmailData] interface: every field is a string. *)
Record EmailData : Type := {
  emailType : EmailType;
  from : string;
  ed_password : string;
  domain : string;
  ed_smtpPort : string;
  to : string;
  cc : string;
  subject : string;
  content : string
}.

Record EmailConfig : Type := {
  ec_host : string;
  ec_port : Z;
  ec_secure : bool;
  ec_auth : Auth
}.

(** [getEmailConfig]: [inl msg] is [throw new Error(msg)]. *)
Definition getEmailConfig (emailData : EmailData) : string + EmailConfig :=
  match emailType emailData with
  | Gmail =>
      inr {| ec_host := "smtp.gmail.com"; ec_port := 587; ec_secure := false;
             ec_auth := {| user := from emailData;
                           pass := ed_password emailData |} |}
  | _ =>
      if negb (Js.truthy (domain emailData)) then
        inl "SMTP domain is required for website emails"
      else if negb (Js.truthy (ed_smtpPort emailData)) then
        inl "SMTP port is required for website emails"
      else
        match Js.parseInt (ed_smtpPort emailData) with
        | None => inl "Invalid SMTP port number"
        | Some port =>
            if (port <? 1) || (port >? 65535) then
              inl "Invalid SMTP port number"
            else
              let secure := port =? 465 in
              inr {| ec_host := domain emailData; ec_port := port;
                     ec_secure := secure;
                     ec_auth := {| user := from emailData;
                                   pass := ed_password emailData |} |}
        end
  end.

End Client.

(* ================================================================== *)
(** ** Ledger records, messages and the outside world                  *)
(* ================================================================== *)

Record Metadata : Type := {
  ipAddress : string;
  userAgent : option string;
  campaignName : option string;
  smtpResponse : option string
}.

(** An email record ([server/models/Email.js]; the file-backed server
    writes objects of the same shape, with [cc] and [smtpResponse]).
    Times are milliseconds. *)
Record Email : Type := {
  e_user : string;
  e_company : string;
  e_to : string;
  e_cc : option string;
  e_subject : string;
  e_htmlContent : string;
  e_textContent : option string;
  status : string;
  sentAt : option Z;
  errorMessage : option string;
  messageId : option string;
  metadata : Metadata;
  createdAt : option Z
}.

(** The message handed to [transporter.sendMail]. *)
Record MailOptions : Type := {
  mo_from : string;
  mo_to : string;
  mo_cc : option string;
  mo_subject : string;
  mo_html : string;
  mo_text : option string
}.

(** What a handler does to the outside, in order. *)
Inductive Event : Type :=
  | EvSend (t : TransportOptions) (m : MailOptions)
  | EvSave (e : Email) (ok : bool)
  | EvDelay (ms : Z).

(** The ledger (in insertion order) and what has happened so far. *)
Record World : Type := {
  emails : list Email;
  trace : list Event
}.

Definition record_event (w : World) (ev : Event) : World :=
  {| emails := emails w; trace := (trace w ++ [ev])%list |}.

(** Who calls: [req.user.userId], [req.ip], [req.get('User-Agent')]. *)
Record Caller : Type := {
  userId : string;
  ip : string;
  agent : option string
}.

(** Stable insertion sort; [before a b] tells that [a] may stay in front
    of [b]. *)
Section Sorting.
Context {A : Type} (before : A -> A -> bool).

Fixpoint insert_sorted (x : A) (l : list A) : list A :=
  match l with
  | [] => [x]
  | y :: l' => if before x y then x :: l else y :: insert_sorted x l'
  end.

Fixpoint sort_stable (l : list A) : list A :=
  match l with
  | [] => []
  | x :: l' => insert_sorted x (sort_stable l')
  end.
End Sorting.

(* ================================================================== *)
(** ** [server/routes/emails.js]                                       *)
(* ================================================================== *)

Module Routes.

Definition authOf (es : EmailSettings) : Auth :=
  {| user := email es; pass := password es |}.

(** The [switch (emailSettings.type)] of the send routes: the options
    object that each [case] gives to [nodemailer.createTransporter]; [None]
    is the [default] branch (400, 'Invalid email type'). *)
Definition transporterOptions (es : EmailSettings) : option TransportOptions :=
  if (type es =? "gmail")%string then Some (Service "gmail" (authOf es))
  else if (type es =? "outlook")%string then Some (Service "outlook" (authOf es))
  else if (type es =? "yahoo")%string then Some (Service "yahoo" (authOf es))
  else if (type es =? "custom")%string then
    Some (Smtp {| host := smtpHost es;
                  port := smtpPort es;
                  secure := useSSL es;
                  auth := authOf es;
                  tls := Some (useTLS es);
                  connectionTimeout := None;
                  greetingTimeout := None;
                  socketTimeout := None |})
  else None.

(** The exception of a call that is not a function call:
    [nodemailer.createTransporter] is [undefined]. *)
Definition notAFunction : JsError :=
  {| code := None;
     message := "nodemailer.createTransporter is not a function" |}.

(** [nodemailer.createTransporter(options)].  The module exports
    [createTransport] (the name that [emailServer.js] and the file-backed
    server call); it exports no [createTransporter], so the call throws a
    TypeError whatever the options are.  [inr] would be the transporter,
    which is known by its options. *)
Definition createTransporter (options : TransportOptions)
  : JsError + TransportOptions :=
  inl notAFunction.

(** [Company.findOne({ _id, user, isActive: true })].  Mongoose casts
    [_id] to an object id: [validId] tells whether the text can be cast,
    and for a text that cannot the query throws a CastError whose message
    is [castMessage id] ([inl]). *)
Definition findCompany (validId : string -> bool)
    (castMessage : string -> string) (companies : list Company)
    (id uid : string) : JsError + option Company :=
  if validId id then
    inr (find (fun c => (company_id c =? id)%string
                        && (company_user c =? uid)%string
                        && isActive c) companies)
  else inl {| code := None; message := castMessage id |}.

(** [new Email({...})]: the schema trims [to], [subject], [textContent],
    [errorMessage] and [campaignName], and [status] defaults to 'pending'. *)
Definition newEmail (cl : Caller) (companyId to subject html : string)
    (text : option string) (st : option string) (err : option string)
    (campaign : option string) : Email :=
  {| e_user := userId cl;
     e_company := companyId;
     e_to := Js.trim to;
     e_cc := None;
     e_subject := Js.trim subject;
     e_htmlContent := html;
     e_textContent := option_map Js.trim text;
     status := match st with Some s => s | None => "pending" end;
     sentAt := None;
     errorMessage := option_map Js.trim err;
     messageId := None;
     metadata := {| ipAddress := ip cl; userAgent := agent cl;
                    campaignName := option_map Js.trim campaign;
                    smtpResponse := None |};
     createdAt := None |}.

(** [emailRecord.status = 'sent'; emailRecord.sentAt = new Date();
    emailRecord.messageId = info.messageId]. *)
Definition markSent (e : Email) (now : Z) (info : SendInfo) : Email :=
  {| e_user := e_user e; e_company := e_company e; e_to := e_to e;
     e_cc := e_cc e; e_subject := e_subject e;
     e_htmlContent := e_htmlContent e; e_textContent := e_textContent e;
     status := "sent";
     sentAt := Some now;
     errorMessage := errorMessage e;
     messageId := Some (Js.trim (info_messageId info));
     metadata := metadata e;
     createdAt := createdAt e |}.

(** The record as it is stored: [createdAt] is set when it is saved
    ([timestamps: true]). *)
Definition stamped (e : Email) (now : Z) : Email :=
  {| e_user := e_user e; e_company := e_company e; e_to := e_to e;
     e_cc := e_cc e; e_subject := e_subject e;
     e_htmlContent := e_htmlContent e; e_textContent := e_textContent e;
     status := status e; sentAt := sentAt e;
     errorMessage := errorMessage e; messageId := messageId e;
     metadata := metadata e;
     createdAt := Some now |}.

(** *** Email history: [router.get('/')] *)

(** The query string; [page] and [limit], when given, are integers. *)
Record HistoryQuery : Type := {
  q_page : option Z;
  q_limit : option Z;
  q_companyId : option string;
  q_status : option string
}.

Record Pagination : Type := {
  current : Z;
  total : Z;
  hasNext : bool;
  hasPrev : bool
}.

Inductive HistoryResponse : Type :=
  | HistoryError (httpStatus : Z) (error : string)
  | History (found : list Email) (pagination : Pagination).

(** The filter object: [user], and [company] and [status] when given. *)
Definition matches (uid : string) (q : HistoryQuery) (e : Email) : bool :=
  (e_user e =? uid)%string
  && (if Js.truthy_opt (q_companyId q)
      then (e_company e =? Js.or_else (q_companyId q) "")%string else true)
  && (if Js.truthy_opt (q_status q)
      then (status e =? Js.or_else (q_status q) "")%string else true).

Definition created (e : Email) : Z :=
  match createdAt e with Some t => t | None => 0 end.

(** [.sort({ createdAt: -1 })]: newest first; records created at the same
    time keep their insertion order. *)
Definition newestFirst (l : list Email) : list Email :=
  sort_stable (fun a b => created b <=? created a) l.

(** [.limit(n)] of the driver: 0 is no limit and a negative [n] stands for
    its absolute value. *)
Definition cursorLimit (n : Z) (l : list Email) : list Email :=
  if n =? 0 then l else firstn (Z.to_nat (Z.abs n)) l.

(** [Math.ceil(a / b)] for a non-zero [b]. *)
Definition ceilDiv (a b : Z) : Z := - ((- a) / b).

(** The handler: [page] defaults to 1 and [limit] to 20; a negative skip
    makes the query throw (500). *)
Definition getEmails (uid : string) (q : HistoryQuery) (ledger : list Email)
  : HistoryResponse :=
  let page := match q_page q with Some p => p | None => 1 end in
  let limit := match q_limit q with Some l => l | None => 20 end in
  let skip := (page - 1) * limit in
  let all := newestFirst (filter (matches uid q) ledger) in
  if skip <? 0 then HistoryError 500 "Failed to fetch emails"
  else
    let found := cursorLimit limit (skipn (Z.to_nat skip) all) in
    let count := Z.of_nat (List.length all) in
    History found
      {| current := page;
         total := ceilDiv count limit;
         hasNext := skip + Z.of_nat (List.length found) <? count;
         hasPrev := page >? 1 |}.

(** *** The send routes

    The mail transport, the persistence layer and the clock are outside
    the program: each is a function of what has happened so far. *)

Record SendBody : Type := {
  s_companyId : option string;
  s_to : option string;
  s_subject : option string;
  s_htmlContent : option string;
  s_textContent : option string;
  s_campaignName : option string
}.

Inductive SendResponse : Type :=
  | SendError (httpStatus : Z) (error : string) (details : option string)
  | SendOk (saved : Email) (id : string)
  | SendUnhandled (err : JsError).

Record Recipient : Type := {
  r_email : string;
  r_name : option string
}.

Record BulkBody : Type := {
  b_companyId : option string;
  b_recipients : option (list Recipient);
  b_subject : option string;
  b_htmlContent : option string;
  b_textContent : option string;
  b_campaignName : option string;
  b_delay : option Z
}.

Record Outcome : Type := {
  o_to : string;
  o_status : string;
  o_messageId : option string;
  o_error : option string
}.

Record Results : Type := {
  sent : nat;
  failed : nat;
  outcomes : list Outcome
}.

Inductive BulkResponse : Type :=
  | BulkError (httpStatus : Z) (error : string) (details : option string)
  | BulkCompleted (results : Results).

Definition nameToken : string := "{name}".

(** [subject.replace('{name}', recipient.name || '')]. *)
Definition subjectFor (subject : string) (r : Recipient) : string :=
  Js.replaceFirst nameToken (Js.or_else (r_name r) "") subject.

(** [htmlContent.replace(/{name}/g, recipient.name || '')]. *)
Definition htmlFor (html : string) (r : Recipient) : string :=
  Js.replaceAll nameToken (Js.or_else (r_name r) "") html.

(** [textContent ? textContent.replace(/{name}/g, recipient.name || '')
    : null]. *)
Definition textFor (text : option string) (r : Recipient) : option string :=
  if Js.truthy_opt text
  then Some (Js.replaceAll nameToken (Js.or_else (r_name r) "")
               (Js.or_else text ""))
  else None.

Definition fromHeader (c : Company) : string :=
  senderName (senderInfo c) ++ " <" ++ email (emailSettings c) ++ ">".

(** The [mailOptions] of the bulk loop; without a text template the text
    part is the html template with its tags stripped. *)
Definition bulkMailOptions (c : Company) (subject html : string)
    (text : option string) (r : Recipient) : MailOptions :=
  {| mo_from := fromHeader c;
     mo_to := r_email r;
     mo_cc := None;
     mo_subject := subjectFor subject r;
     mo_html := htmlFor html r;
     mo_text := match textFor text r with
                | Some t => Some t
                | None => Some (Js.stripTags html)
                end |}.

(** The [new Email({...})] of the bulk loop's [try] block. *)
Definition bulkRecord (cl : Caller) (companyId subject html : string)
    (text campaign : option string) (recipient : Recipient) : Email :=
  newEmail cl companyId (r_email recipient)
    (subjectFor subject recipient) (htmlFor html recipient)
    (textFor text recipient) None None campaign.

(** The [new Email({...})] of its [catch] block. *)
Definition bulkFailedRecord (cl : Caller) (companyId subject html : string)
    (text campaign : option string) (recipient : Recipient)
    (error : JsError) : Email :=
  newEmail cl companyId (r_email recipient)
    (subjectFor subject recipient) (htmlFor html recipient)
    (textFor text recipient) (Some "failed")
    (Some (message error)) campaign.

Section Handlers.

Variable validId : string -> bool.
Variable castMessage : string -> string.
Variable sendMail :
  list Event -> TransportOptions -> MailOptions -> JsError + SendInfo.
Variable saveError : list Event -> Email -> option JsError.
Variable clock : list Event -> Z.
Variable companies : list Company.

(** [transporter.sendMail(mailOptions)]. *)
Definition dispatch (w : World) (t : TransportOptions) (m : MailOptions)
  : World * (JsError + SendInfo) :=
  (record_event w (EvSend t m), sendMail (trace w) t m).

(** [emailRecord.save()]: the record is stamped and appended, or the
    call throws (a validation error of the schema, a failure of the
    database) and nothing is written. *)
Definition save (w : World) (e : Email) : World * option JsError :=
  match saveError (trace w) e with
  | Some err => (record_event w (EvSave e false), Some err)
  | None =>
      let e' := stamped e (clock (trace w)) in
      ({| emails := (emails w ++ [e'])%list;
          trace := (trace w ++ [EvSave e' true])%list |}, None)
  end.

(** [setTimeout(resolve, delay)]. *)
Definition pause (w : World) (ms : Z) : World := record_event w (EvDelay ms).

(** The [catch] block of [router.post('/send')], for whatever was thrown
    in the [try] block.  [emailRecord] is declared with [const] inside the
    [try] block, so it is not in scope here: evaluating [if (emailRecord)]
    throws a ReferenceError and the handler ends without a response and
    without a failed record. *)
Definition sendCatch (w : World) (error : JsError) : World * SendResponse :=
  (w, SendUnhandled {| code := None;
                       message := "emailRecord is not defined" |}).

(** [router.post('/send')]. *)
Definition send (cl : Caller) (body : SendBody) (w : World)
  : World * SendResponse :=
  if negb (Js.truthy_opt (s_companyId body))
     || negb (Js.truthy_opt (s_to body))
     || negb (Js.truthy_opt (s_subject body))
     || negb (Js.truthy_opt (s_htmlContent body))
  then (w, SendError 400
             "Company ID, recipient email, subject, and HTML content are required"
             None)
  else
    let companyId := Js.or_else (s_companyId body) "" in
    let to := Js.or_else (s_to body) "" in
    let subject := Js.or_else (s_subject body) "" in
    let html := Js.or_else (s_htmlContent body) "" in
    match findCompany validId castMessage companies companyId (userId cl) with
    | inl error => sendCatch w error
    | inr None => (w, SendError 404 "Company not found" None)
    | inr (Some company) =>
        let emailRecord :=
          newEmail cl companyId to subject html (s_textContent body)
            None None (s_campaignName body) in
        match transporterOptions (emailSettings company) with
        | None => (w, SendError 400 "Invalid email type" None)
        | Some options =>
            match createTransporter options with
            | inl error => sendCatch w error
            | inr transporter =>
                let mailOptions :=
                  {| mo_from := fromHeader company;
                     mo_to := to;
                     mo_cc := None;
                     mo_subject := subject;
                     mo_html := html;
                     mo_text :=
                       Some (Js.or_else (s_textContent body)
                               (Js.stripTags html))
                  |} in
                match dispatch w transporter mailOptions with
                | (w1, inl error) => sendCatch w1 error
                | (w1, inr info) =>
                    let sentRecord :=
                      markSent emailRecord (clock (trace w1)) info in
                    match save w1 sentRecord with
                    | (w2, Some error) => sendCatch w2 error
                    | (w2, None) =>
                        (w2, SendOk (stamped sentRecord (clock (trace w1)))
                               (info_messageId info))
                    end
                end
            end
        end
    end.

(** The body of the [for] loop of [router.post('/send-bulk')] for one
    recipient, up to the pause: the [try] block and its [catch].  [inl] is
    an exception thrown inside the [catch] block, which leaves the loop. *)
Definition bulkTurn (cl : Caller) (company : Company)
    (transporter : TransportOptions) (companyId subject html : string)
    (text campaign : option string) (recipient : Recipient)
    (w : World) (res : Results) : World * (JsError + Results) :=
  let emailRecord :=
    bulkRecord cl companyId subject html text campaign recipient in
  let mailOptions := bulkMailOptions company subject html text recipient in
  let attempt : World * (JsError + Results) :=
    match dispatch w transporter mailOptions with
    | (w1, inl error) => (w1, inl error)
    | (w1, inr info) =>
        match save w1 (markSent emailRecord (clock (trace w1)) info) with
        | (w2, Some error) => (w2, inl error)
        | (w2, None) =>
            (w2, inr {| sent := S (sent res);
                        failed := failed res;
                        outcomes :=
                          (outcomes res ++
                           [{| o_to := r_email recipient;
                               o_status := "sent";
                               o_messageId := Some (info_messageId info);
                               o_error := None |}])%list |})
        end
    end in
  match attempt with
  | (w2, inr res') => (w2, inr res')
  | (w2, inl error) =>
      let failedRecord :=
        bulkFailedRecord cl companyId subject html text campaign recipient
          error in
      match save w2 failedRecord with
      | (w3, Some error') => (w3, inl error')
      | (w3, None) =>
          (w3, inr {| sent := sent res;
                      failed := S (failed res);
                      outcomes :=
                        (outcomes res ++
                         [{| o_to := r_email recipient;
                             o_status := "failed";
                             o_messageId := None;
                             o_error := Some (message error) |}])%list |})
      end
  end.

(** The [for] loop: [i] is the index of the recipient at the head of
    [rest] and [n] is [recipients.length]; after each turn but the last
    ([i < recipients.length - 1]) the loop pauses. *)
Fixpoint bulkLoop (cl : Caller) (company : Company)
    (transporter : TransportOptions) (companyId subject html : string)
    (text campaign : option string) (delay : Z) (n : nat)
    (i : nat) (rest : list Recipient) (w : World) (res : Results)
  : World * (JsError + Results) :=
  match rest with
  | [] => (w, inr res)
  | recipient :: rest' =>
      match bulkTurn cl company transporter companyId subject html text
              campaign recipient w res with
      | (w3, inl error) => (w3, inl error)
      | (w3, inr res') =>
          let w4 :=
            if Z.of_nat i <? Z.of_nat n - 1 then pause w3 delay else w3 in
          bulkLoop cl company transporter companyId subject html text
            campaign delay n (S i) rest' w4 res'
      end
  end.

(** The outer [catch] block of [router.post('/send-bulk')]. *)
Definition bulkCatch (w : World) (error : JsError) : World * BulkResponse :=
  (w, BulkError 500 "Failed to send bulk emails" (Some (message error))).

(** [router.post('/send-bulk')]. *)
Definition sendBulk (cl : Caller) (body : BulkBody) (w : World)
  : World * BulkResponse :=
  let delay := match b_delay body with Some d => d | None => 1000 end in
  match b_recipients body with
  | None =>
      (w, BulkError 400 "Company ID and recipients array are required" None)
  | Some recipients =>
      if negb (Js.truthy_opt (b_companyId body))
         || (List.length recipients =? 0)%nat
      then
        (w, BulkError 400 "Company ID and recipients array are required" None)
      else if negb (Js.truthy_opt (b_subject body))
              || negb (Js.truthy_opt (b_htmlContent body))
      then (w, BulkError 400 "Subject and HTML content are required" None)
      else
        let companyId := Js.or_else (b_companyId body) "" in
        let subject := Js.or_else (b_subject body) "" in
        let html := Js.or_else (b_htmlContent body) "" in
        match findCompany validId castMessage companies companyId
                (userId cl) with
        | inl error => bulkCatch w error
        | inr None => (w, BulkError 404 "Company not found" None)
        | inr (Some company) =>
            match transporterOptions (emailSettings company) with
            | None => (w, BulkError 400 "Invalid email type" None)
            | Some options =>
                match createTransporter options with
                | inl error => bulkCatch w error
                | inr transporter =>
                    match bulkLoop cl company transporter companyId subject
                            html (b_textContent body) (b_campaignName body)
                            delay (List.length recipients) O recipients w
                            {| sent := O; failed := O; outcomes := [] |} with
                    | (w', inr results) => (w', BulkCompleted results)
                    | (w', inl error) => bulkCatch w' error
                    end
                end
            end
        end
  end.

End Handlers.

End Routes.

(* ================================================================== *)
(** ** The file-backed server ([db.json])                               *)
(* ================================================================== *)

Module Simple.

(** The double quote, for the [from] header. *)
Definition dquote : string := String (ascii_of_nat 34) EmptyString.

(** The transporter chain of [app.post('/api/emails/send')]; [None] is
    the final [else] (400, 'Unsupported email type'). *)
Definition transporterOptions (es : EmailSettings) : option TransportOptions :=
  if (type es =? "gmail")%string then
    Some (Service "gmail" (Routes.authOf es))
  else if (type es =? "outlook")%string then
    Some (Service "outlook" (Routes.authOf es))
  else if (type es =? "yahoo")%string then
    Some (Service "yahoo" (Routes.authOf es))
  else if (type es =? "custom")%string then
    Some (Smtp {| host := smtpHost es;
                  port := Js.ofParsed (Js.parseIntValue (smtpPort es));
                  secure :=
                    Some (match Js.parseIntValue (smtpPort es) with
                          | Some p => p =? 465
                          | None => false
                          end);
                  auth := Routes.authOf es;
                  tls := None;
                  connectionTimeout := Some 10000;
                  greetingTimeout := Some 10000;
                  socketTimeout := Some 10000 |})
  else None.

(** [db.companies.find(c => c._id === companyId && c.user === userId)]. *)
Definition findCompany (companies : list Company) (id : option string)
    (uid : string) : option Company :=
  match id with
  | None => None
  | Some i =>
      find (fun c => (company_id c =? i)%string
                     && (company_user c =? uid)%string) companies
  end.

(** *** [app.get('/api/emails')] *)

(** The comparator [new Date(b.sentAt) - new Date(a.sentAt)] of the
    (stable) array sort: [a] stays in front of [b] unless [b] was sent
    later. *)
Definition sentBefore (a b : Email) : bool :=
  match sentAt a, sentAt b with
  | Some ta, Some tb => tb <=? ta
  | _, _ => true
  end.

(** The response: [{ emails, total }].  The query's [page] and [limit] are
    not read. *)
Definition getEmails (uid : string) (companyId : option string)
    (db_emails : list Email) : list Email * nat :=
  let owned := filter (fun e => (e_user e =? uid)%string) db_emails in
  let filtered :=
    if Js.truthy_opt companyId
       && negb (Js.or_else companyId "" =? "all")%string
    then filter (fun e => (e_company e =? Js.or_else companyId "")%string) owned
    else owned in
  let sorted := sort_stable sentBefore filtered in
  (sorted, List.length sorted).

(** *** [app.post('/api/emails/send')] *)

(** The request body; the fields the handler copies without a check are
    taken as the strings the front end sends. *)
Record SendBody : Type := {
  sb_companyId : option string;
  sb_to : string;
  sb_cc : option string;
  sb_subject : string;
  sb_htmlContent : string;
  sb_textContent : option string;
  sb_campaignName : option string
}.

Section Handlers.

Variable sendMail :
  list Event -> TransportOptions -> MailOptions -> JsError + SendInfo.
Variable writeOk : list Event -> bool.
Variable clock : list Event -> Z.
Variable companies : list Company.

(** [db.emails.push(emailRecord); writeDB(db)]: a failed write is only
    logged. *)
Definition writeDB (w : World) (e : Email) : World :=
  if writeOk (trace w) then
    {| emails := (emails w ++ [e])%list;
       trace := (trace w ++ [EvSave e true])%list |}
  else record_event w (EvSave e false).

(** The handler: a transport error is answered 500 with the error's
    message in [details] and no record is written; after a successful
    send the record is created with status 'sent'. *)
Definition send (cl : Caller) (body : SendBody) (w : World)
  : World * Routes.SendResponse :=
  match findCompany companies (sb_companyId body) (userId cl) with
  | None => (w, Routes.SendError 404 "Company not found" None)
  | Some company =>
      match transporterOptions (emailSettings company) with
      | None => (w, Routes.SendError 400 "Unsupported email type" None)
      | Some transporter =>
          let mailOptions :=
            {| mo_from := dquote ++ senderName (senderInfo company) ++ dquote
                          ++ " <" ++ email (emailSettings company) ++ ">";
               mo_to := sb_to body;
               mo_cc := if Js.truthy_opt (sb_cc body) then sb_cc body else None;
               mo_subject := sb_subject body;
               mo_html := sb_htmlContent body;
               mo_text := sb_textContent body |} in
          let w1 := record_event w (EvSend transporter mailOptions) in
          match sendMail (trace w) transporter mailOptions with
          | inl error =>
              (w1, Routes.SendError 500 "Failed to send email"
                     (Some (message error)))
          | inr info =>
              let now := clock (trace w1) in
              let emailRecord :=
                {| e_user := userId cl;
                   e_company := Js.or_else (sb_companyId body) "";
                   e_to := sb_to body;
                   e_cc := if Js.truthy_opt (sb_cc body) then sb_cc body else None;
                   e_subject := sb_subject body;
                   e_htmlContent := sb_htmlContent body;
                   e_textContent := sb_textContent body;
                   status := "sent";
                   sentAt := Some now;
                   errorMessage := None;
                   messageId :=
                     Some (if Js.truthy (info_messageId info)
                           then info_messageId info
                           else "msg_" ++ Js.toString now);
                   metadata := {| ipAddress := ip cl; userAgent := agent cl;
                                  campaignName := sb_campaignName body;
                                  smtpResponse := Some (info_response info) |};
                   createdAt := Some now |} in
              (writeDB w1 emailRecord,
               Routes.SendOk emailRecord
                 (if Js.truthy (info_messageId info)
                  then info_messageId info
                  else "msg_" ++ Js.toString now))
          end
      end
  end.

End Handlers.

End Simple.

(* ================================================================== *)
(** ** [server/emailServer.js]                                         *)
(* ================================================================== *)

Module EmailServer.

Record LoggedEmailData : Type := {
  l_emailType : string;
  l_from : string;
  l_password : option string;
  l_to : string;
  l_cc : option string;
  l_subject : string;
  l_content : string;
  l_domain : string;
  l_smtpPort : string
}.

Record LoggedSmtpConfig : Type := {
  l_host : string;
  l_port : Z;
  l_secure : bool;
  l_configEmailType : string
}.

Record LogEntry : Type := {
  id : string;
  timestamp : Z;
  log_status : string;
  emailData : LoggedEmailData;
  smtpConfig : LoggedSmtpConfig;
  log_messageId : option string;
  log_error : option string
}.

(** The content of [email-logs.json]. *)
Record LogsData : Type := {
  lastUpdated : Z;
  totalEmails : Z;
  successfulEmails : Z;
  failedEmails : Z;
  pendingEmails : Z;
  logs : list LogEntry
}.

(** The logs file: absent, present but not readable as JSON, or holding
    a store. *)
Inductive LogsFile : Type :=
  | Missing
  | Unreadable
  | Stored (d : LogsData).

(** The file and the number of interactions with the environment so far
    (the clock, the random source and the file system answer by it). *)
Record Disk : Type := {
  file : LogsFile;
  tick : nat
}.

(** The request body of [/api/send-email]. *)
Record EmailConfigBody : Type := {
  cfg_host : option string;
  cfg_port : Js.value;
  cfg_secure : option bool;
  cfg_auth : option Auth
}.

Record EmailDataBody : Type := {
  d_emailType : option string;
  d_from : option string;
  d_password : option string;
  d_to : option string;
  d_cc : option string;
  d_subject : option string;
  d_content : option string;
  d_domain : option string;
  d_smtpPort : option string
}.

Record Body : Type := {
  b_emailConfig : option EmailConfigBody;
  b_emailData : option EmailDataBody
}.

Inductive Response : Type :=
  | Failure (httpStatus : Z) (error : string)
  | Success (sentId : string).

(** [log.status === s], counted: [logs.filter(...).length]. *)
Definition countStatus (s : string) (l : list LogEntry) : Z :=
  Z.of_nat (List.length (filter (fun log => (log_status log =? s)%string) l)).

(** The error string of the [catch] block of [/api/send-email]. *)
Definition errorMessageFor (error : JsError) : string :=
  match code error with
  | Some c =>
      if (c =? "EAUTH")%string then
        "Authentication failed. Please check your email and password."
      else if (c =? "ECONNECTION")%string then
        "Connection failed. Please check your SMTP settings."
      else if (c =? "EENVELOPE")%string then
        "Invalid recipient email address."
      else if (c =? "ETIMEDOUT")%string then
        "Connection timeout. Please check your SMTP settings."
      else if Js.truthy (message error) then message error
      else "Failed to send email"
  | None =>
      if Js.truthy (message error) then message error
      else "Failed to send email"
  end.

Section Server.

(** The regular-expression filters of the file are parameters:
    [cleanInput] is the chain of replacements and the final trim of
    [sanitizeInput], [cleanContent] that of [sanitizeEmailContent],
    [emailRegex] the test of [validateEmail] and [dangerous] the test
    [dangerousPatterns.some(...)] of [validateInput]. *)
Variable cleanInput : string -> string.
Variable cleanContent : string -> string.
Variable emailRegex : string -> bool.
Variable dangerous : string -> bool.

(** The environment. *)
Variable clock : nat -> Z.
Variable randomHex : nat -> string.
Variable writeOk : nat -> bool.
Variable verify : nat -> SmtpOptions -> option JsError.
Variable sendMail : nat -> SmtpOptions -> MailOptions -> JsError + SendInfo.

Definition sanitizeInput (input : option string) : string :=
  match input with
  | Some s => if Js.truthy s then cleanInput s else ""
  | None => ""
  end.

Definition sanitizeEmailContent (input : option string) : string :=
  match input with
  | Some s => if Js.truthy s then cleanContent s else ""
  | None => ""
  end.

Definition validateEmail (v : option string) : bool :=
  match v with
  | Some s => emailRegex s && (String.length s <=? 254)%nat
  | None => false
  end.

Definition validateInput (input : option string) (maxLength : nat) : bool :=
  match input with
  | None => true
  | Some s =>
      if (s =? "")%string then true
      else if (maxLength <? String.length s)%nat then false
      else negb (dangerous s)
  end.

Definition emptyLogs (now : Z) : LogsData :=
  {| lastUpdated := now; totalEmails := 0; successfulEmails := 0;
     failedEmails := 0; pendingEmails := 0; logs := [] |}.

(** [loadLogs]: [None] is the [null] returned when reading fails. *)
Definition loadLogs (d : Disk) : option LogsData :=
  match file d with
  | Stored x => Some x
  | Unreadable => None
  | Missing => Some (emptyLogs (clock (tick d)))
  end.

(** [saveLogs]: the store is stamped and written; [Some] is the
    [Error('Failed to save logs')] thrown when writing fails. *)
Definition saveLogs (d : Disk) (logsData : LogsData)
  : Disk * option JsError :=
  let stamped :=
    {| lastUpdated := clock (tick d);
       totalEmails := totalEmails logsData;
       successfulEmails := successfulEmails logsData;
       failedEmails := failedEmails logsData;
       pendingEmails := pendingEmails logsData;
       logs := logs logsData |} in
  if writeOk (tick d) then
    ({| file := Stored stamped; tick := S (tick d) |}, None)
  else
    ({| file := file d; tick := S (tick d) |},
     Some {| code := None; message := "Failed to save logs" |}).

Definition generateLogId (d : Disk) : string :=
  "email_" ++ Js.toString (clock (tick d)) ++ "_" ++ randomHex (tick d).

(** [logEmailAttempt]: [inl] is a thrown error, [inr] the new entry's id. *)
Definition logEmailAttempt (emailConfig : option EmailConfigBody)
    (email_data : option EmailDataBody) (d : Disk)
  : Disk * (JsError + string) :=
  match emailConfig, email_data with
  | Some cfg, Some data =>
      match loadLogs d with
      | None => (d, inl {| code := None; message := "Failed to load logs" |})
      | Some logsData =>
          let emailTypeOr :=
            Some (Js.or_else (d_emailType data) "unknown") in
          let logEntry :=
            {| id := generateLogId d;
               timestamp := clock (tick d);
               log_status := "pending";
               emailData :=
                 {| l_emailType := sanitizeInput emailTypeOr;
                    l_from := sanitizeInput (d_from data);
                    l_password := d_password data;
                    l_to := sanitizeInput (d_to data);
                    l_cc := if Js.truthy_opt (d_cc data)
                            then Some (sanitizeInput (d_cc data)) else None;
                    l_subject := sanitizeInput (d_subject data);
                    l_content := sanitizeEmailContent (d_content data);
                    l_domain := sanitizeInput (d_domain data);
                    l_smtpPort := sanitizeInput (d_smtpPort data) |};
               smtpConfig :=
                 {| l_host := sanitizeInput (cfg_host cfg);
                    l_port := match Js.parseIntValue (cfg_port cfg) with
                              | Some p => if p =? 0 then 587 else p
                              | None => 587
                              end;
                    l_secure := match cfg_secure cfg with
                                | Some b => b
                                | None => false
                                end;
                    l_configEmailType := sanitizeInput emailTypeOr |};
               log_messageId := None;
               log_error := None |} in
          let pushed := (logs logsData ++ [logEntry])%list in
          let updated :=
            {| lastUpdated := lastUpdated logsData;
               totalEmails := Z.of_nat (List.length pushed);
               successfulEmails := successfulEmails logsData;
               failedEmails := failedEmails logsData;
               pendingEmails := countStatus "pending" pushed;
               logs := pushed |} in
          match saveLogs d updated with
          | (d', Some err) => (d', inl err)
          | (d', None) => (d', inr (id logEntry))
          end
      end
  | _, _ =>
      (d, inl {| code := None;
                 message := "Invalid email configuration or data" |})
  end.

(** The assignments made to the entry found by [updateLogStatus]. *)
Definition finalized (e : LogEntry) (status : string)
    (messageId error : option string) : LogEntry :=
  {| id := id e;
     timestamp := timestamp e;
     log_status := status;
     emailData := emailData e;
     smtpConfig := smtpConfig e;
     log_messageId := if Js.truthy_opt messageId
                      then Some (sanitizeInput messageId)
                      else log_messageId e;
     log_error := if Js.truthy_opt error
                  then Some (sanitizeInput error)
                  else log_error e |}.

(** The entry that [logs.find(log => log.id === logId)] returns is
    updated in place: the first entry with that id. *)
Fixpoint updateFound (logId status : string) (messageId error : option string)
    (l : list LogEntry) : list LogEntry :=
  match l with
  | [] => []
  | e :: l' =>
      if (id e =? logId)%string
      then finalized e status messageId error :: l'
      else e :: updateFound logId status messageId error l'
  end.

(** [updateLogStatus]: [Some] is the error thrown by [saveLogs]. *)
Definition updateLogStatus (logId status : string)
    (messageId error : option string) (d : Disk) : Disk * option JsError :=
  match loadLogs d with
  | None => (d, None)
  | Some logsData =>
      match find (fun log => (id log =? logId)%string) (logs logsData) with
      | None => (d, None)
      | Some _ =>
          let changed :=
            updateFound logId status messageId error (logs logsData) in
          saveLogs d
            {| lastUpdated := lastUpdated logsData;
               totalEmails := totalEmails logsData;
               successfulEmails := countStatus "success" changed;
               failedEmails := countStatus "failed" changed;
               pendingEmails := countStatus "pending" changed;
               logs := changed |}
      end
  end.

(** The [catch] block of [/api/send-email]: the failure is logged as a new
    entry (errors while logging are swallowed) and the error is mapped. *)
Definition sendEmailCatch (body : Body) (error : JsError) (d : Disk)
  : Disk * Response :=
  let d' :=
    match b_emailConfig body, b_emailData body with
    | Some _, Some _ =>
        match logEmailAttempt (b_emailConfig body) (b_emailData body) d with
        | (d1, inl _) => d1
        | (d1, inr logId) =>
            fst (updateLogStatus logId "failed" None
                   (Some (message error)) d1)
        end
    | _, _ => d
    end in
  (d', Failure 500 (errorMessageFor error)).

Definition isPort (v : Js.value) : bool :=
  match v with
  | Js.Num n => (1 <=? n) && (n <=? 65535)
  | _ => false
  end.

(** The options object given to [createTransport]. *)
Definition smtpOptions (cfg : EmailConfigBody) (a : Auth) : SmtpOptions :=
  {| host := cfg_host cfg;
     port := cfg_port cfg;
     secure := cfg_secure cfg;
     auth := {| user := user a; pass := pass a |};
     tls := Some (Some false);
     connectionTimeout := Some 10000;
     greetingTimeout := Some 10000;
     socketTimeout := Some 10000 |}.

(** The [mailOptions] object. *)
Definition mailOptions (data : EmailDataBody) : MailOptions :=
  {| mo_from := Js.or_else (d_from data) "";
     mo_to := Js.or_else (d_to data) "";
     mo_cc := if Js.truthy_opt (d_cc data) then d_cc data else None;
     mo_subject := Js.or_else (d_subject data) "";
     mo_html := Js.or_else (d_content data) "";
     mo_text := None |}.

(** [app.post('/api/send-email')]. *)
Definition sendEmail (body : Body) (d : Disk) : Disk * Response :=
  match b_emailConfig body, b_emailData body with
  | Some cfg, Some data =>
      if negb (validateEmail (d_from data)) || negb (validateEmail (d_to data))
      then (d, Failure 400 "Invalid email address format")
      else if negb (validateInput (d_subject data) 200)
      then (d, Failure 400 "Invalid subject data")
      else if negb (validateInput (cfg_host cfg) 1000)
              || negb (isPort (cfg_port cfg))
      then (d, Failure 400 "Invalid SMTP configuration")
      else
        match logEmailAttempt (Some cfg) (Some data) d with
        | (d1, inl error) => sendEmailCatch body error d1
        | (d1, inr logId) =>
            match cfg_auth cfg with
            | None =>
                sendEmailCatch body
                  {| code := None;
                     message :=
                       "Cannot read properties of undefined (reading 'user')" |}
                  d1
            | Some a =>
                match verify (tick d1) (smtpOptions cfg a) with
                | Some error => sendEmailCatch body error d1
                | None =>
                    match sendMail (tick d1) (smtpOptions cfg a)
                            (mailOptions data) with
                    | inl error => sendEmailCatch body error d1
                    | inr info =>
                        match updateLogStatus logId "success"
                                (Some (info_messageId info)) None d1 with
                        | (d2, Some error) => sendEmailCatch body error d2
                        | (d2, None) => (d2, Success (info_messageId info))
                        end
                    end
                end
            end
        end
  | _, _ => (d, Failure 400 "Missing email configuration or data")
  end.

End Server.

End EmailServer.

(* ================================================================== *)
(** ** [server/emailServer.js]: credentials and the logs endpoints     *)
(* ================================================================== *)

Module Admin.

(** [process.env.NAME || crypto.randomBytes(32).toString('hex')]: the
    token is the environment variable when it is set and not empty, and
    fresh random text otherwise. *)
Definition tokenOf (env : option string) (random : string) : string :=
  Js.or_else env random.

(** [req.headers.authorization] and [req.headers['x-api-key']]. *)
Record Headers : Type := {
  authorization : option string;
  x_api_key : option string
}.

(** What a middleware does: it hands over to the route ([next()]) or it
    answers itself. *)
Inductive Gate : Type :=
  | Next
  | Refused (httpStatus : Z) (error : string).

(** [authenticateRequest]. *)
Definition authenticateRequest (ADMIN_TOKEN API_SECRET : string)
    (h : Headers) : Gate :=
  let authHeader := authorization h in
  let apiKey := x_api_key h in
  if negb (Js.truthy_opt authHeader) && negb (Js.truthy_opt apiKey)
  then Refused 401 "Authentication required"
  else
    let bearer :=
      match authHeader with
      | Some a =>
          Js.truthy a && String.prefix "Bearer " a
          && (Js.drop 7 a =? ADMIN_TOKEN)%string
      | None => false
      end in
    if bearer then Next
    else
      let key :=
        match apiKey with
        | Some k => Js.truthy k && (k =? API_SECRET)%string
        | None => false
        end in
      if key then Next
      else Refused 401 "Invalid authentication credentials".

Inductive LogsResponse : Type :=
  | Rejected (httpStatus : Z) (error : string)
  | Served (logsData : EmailServer.LogsData)
  | Message (message : string).

Section Endpoints.

Variable clock : nat -> Z.
Variable writeOk : nat -> bool.
Variable ADMIN_TOKEN API_SECRET : string.

(** [fs.existsSync(LOGS_FILE_PATH)]. *)
Definition existsSync (d : EmailServer.Disk) : bool :=
  match EmailServer.file d with
  | EmailServer.Missing => false
  | _ => true
  end.

(** [initializeLogsFile]: an empty store is written when there is no
    file, and nothing is done when there is one.  [false] is the
    exception of a failed write.  ([protectLogsFile] only changes the
    permission bits of the file.) *)
Definition initializeLogsFile (d : EmailServer.Disk)
  : EmailServer.Disk * bool :=
  if negb (existsSync d) then
    let initialLogs := EmailServer.emptyLogs (clock (EmailServer.tick d)) in
    if writeOk (EmailServer.tick d) then
      ({| EmailServer.file := EmailServer.Stored initialLogs;
          EmailServer.tick := S (EmailServer.tick d) |}, true)
    else
      ({| EmailServer.file := EmailServer.file d;
          EmailServer.tick := S (EmailServer.tick d) |}, false)
  else (d, true).

(** [app.get('/api/logs', authenticateRequest, ...)]. *)
Definition getLogs (h : Headers) (d : EmailServer.Disk) : LogsResponse :=
  match authenticateRequest ADMIN_TOKEN API_SECRET h with
  | Refused st e => Rejected st e
  | Next =>
      match EmailServer.loadLogs clock d with
      | None => Rejected 500 "Failed to load logs"
      | Some logsData => Served logsData
      end
  end.

(** [app.delete('/api/logs', authenticateRequest, ...)]. *)
Definition deleteLogs (h : Headers) (d : EmailServer.Disk)
  : EmailServer.Disk * LogsResponse :=
  match authenticateRequest ADMIN_TOKEN API_SECRET h with
  | Refused st e => (d, Rejected st e)
  | Next =>
      match initializeLogsFile d with
      | (d', true) => (d', Message "Logs cleared successfully")
      | (d', false) => (d', Rejected 500 "Failed to clear logs")
      end
  end.

End Endpoints.

End Admin.

(* ================================================================== *)
(** ** [src/utils/emailSender.ts]: [sendEmail]                         *)
(* ================================================================== *)

Module Sender.

(** [hay.includes(needle)]. *)
Fixpoint includes (needle hay : string) : bool :=
  String.prefix needle hay
  || match hay with
     | String _ hay' => includes needle hay'
     | EmptyString => false
     end.

(** The JSON body of the request: [{ emailConfig, emailData }], where
    [emailData] repeats the nine fields of the form. *)
Record Request : Type := {
  emailConfig : Client.EmailConfig;
  emailData : Client.EmailData
}.

(** What [fetch] does: it rejects (with a [TypeError] or another error),
    or it resolves to a response.  [json] is [None] when the body of the
    response cannot be parsed; a parsed body is an object, and [json]
    holds its [error] field. *)
Inductive FetchResult : Type :=
  | Rejects (typeError : bool) (message : string)
  | Responds (ok : bool) (statusText : string) (json : option (option string)).

Record Result : Type := {
  success : bool;
  message : string
}.

(** The outer [catch] block, for a thrown [Error]. *)
Definition caught (typeError : bool) (msg : string) : Result :=
  if typeError && includes "fetch" msg then
    {| success := false;
       message := "Backend server is not running. Please start the server with: npm run dev:server" |}
  else {| success := false; message := msg |}.

(** [sendEmail]: the request that was made, if any, and the result. *)
Definition sendEmail (fetch : Request -> FetchResult)
    (data : Client.EmailData) : option Request * Result :=
  if negb (Js.truthy (Client.from data))
     || negb (Js.truthy (Client.ed_password data))
     || negb (Js.truthy (Client.to data))
     || negb (Js.truthy (Client.subject data))
     || negb (Js.truthy (Client.content data))
  then (None, caught false "Missing required email fields")
  else
    match Client.getEmailConfig data with
    | inl msg => (None, caught false msg)
    | inr smtpConfig =>
        let request := {| emailConfig := smtpConfig; emailData := data |} in
        match fetch request with
        | Rejects typeError msg => (Some request, caught typeError msg)
        | Responds ok statusText json =>
            if negb ok then
              let errorMessage :=
                match json with
                | Some errorData => Js.or_else errorData "Failed to send email"
                | None => Js.or_else (Some statusText) "Failed to send email"
                end in
              (Some request, caught false errorMessage)
            else
              match json with
              | None => (Some request, caught false "Invalid response from server")
              | Some _ =>
                  (Some request,
                   {| success := true; message := "Email sent successfully!" |})
              end
        end
    end.

(** [sendEmailWithEmailJS]: the placeholder always fails. *)
Definition sendEmailWithEmailJS : Result :=
  {| success := false;
     message := "EmailJS not configured. Please set up EmailJS or use a backend server." |}.

(** *** The client in front of [/api/send-email] *)

(** The [emailType] of the form as the string that is sent. *)
Definition typeName (t : Client.EmailType) : string :=
  match t with
  | Client.Gmail => "gmail"
  | Client.Website => "website"
  | Client.NoType => ""
  end.

(** The request body as the server parses it. *)
Definition toBody (r : Request) : EmailServer.Body :=
  let cfg := emailConfig r in
  let data := emailData r in
  {| EmailServer.b_emailConfig :=
       Some {| EmailServer.cfg_host := Some (Client.ec_host cfg);
               EmailServer.cfg_port := Js.Num (Client.ec_port cfg);
               EmailServer.cfg_secure := Some (Client.ec_secure cfg);
               EmailServer.cfg_auth := Some (Client.ec_auth cfg) |};
     EmailServer.b_emailData :=
       Some {| EmailServer.d_emailType := Some (typeName (Client.emailType data));
               EmailServer.d_from := Some (Client.from data);
               EmailServer.d_password := Some (Client.ed_password data);
               EmailServer.d_to := Some (Client.to data);
               EmailServer.d_cc := Some (Client.cc data);
               EmailServer.d_subject := Some (Client.subject data);
               EmailServer.d_content := Some (Client.content data);
               EmailServer.d_domain := Some (Client.domain data);
               EmailServer.d_smtpPort := Some (Client.ed_smtpPort data) |} |}.

(** The server's answer as [fetch] shows it: [res.status(s).json({ error })]
    is a response that is not [ok] and carries the error text;
    [res.json({ success, message, messageId })] is an [ok] response with no
    [error] field. *)
Definition reply (statusText : Z -> string) (r : EmailServer.Response)
  : FetchResult :=
  match r with
  | EmailServer.Failure st err => Responds false (statusText st) (Some (Some err))
  | EmailServer.Success _ => Responds true (statusText 200) (Some None)
  end.

End Sender.

(* ================================================================== *)
(** ** [server/routes/companies.js]                                     *)
(* ================================================================== *)

(** A stored company: the fields the send routes read ([doc]), the
    description and the two timestamps of [timestamps: true]. *)
Record CompanyDoc : Type := {
  doc : Company;
  description : option string;
  c_createdAt : Z;
  c_updatedAt : Z
}.

Module Companies.

(** An exception of the persistence layer, by [error.name]. *)
Inductive DbError : Type :=
  | ValidationError (messages : list string)
  | CastError (message : string)
  | OtherError (message : string).

Definition errorText (e : DbError) : string :=
  match e with
  | ValidationError ms => String.concat ", " ms
  | CastError m => m
  | OtherError m => m
  end.

(** The body of [POST /] and of [PUT /:id]. *)
Record Body : Type := {
  b_name : option string;
  b_emailSettings : option EmailSettings;
  b_senderInfo : option SenderInfo;
  b_description : option string;
  b_isActive : option bool
}.

Inductive Response : Type :=
  | Failed (httpStatus : Z) (error : string) (details : option string)
  | Listed (companies : list CompanyDoc)
  | Found (company : CompanyDoc)
  | Saved (httpStatus : Z) (message : string) (company : CompanyDoc)
  | Done (message : string).

(** The schema's setters on [senderInfo]: [trim: true] on both fields. *)
Definition trimmedSender (si : SenderInfo) : SenderInfo :=
  {| senderName := Js.trim (senderName si);
     signature := option_map Js.trim (signature si) |}.

(** [{ _id: id, user: uid }]. *)
Definition ownedBy (uid id : string) (c : CompanyDoc) : bool :=
  (company_id (doc c) =? id)%string && (company_user (doc c) =? uid)%string.

(** [{ user: uid, isActive: true }]. *)
Definition activeOf (uid : string) (c : CompanyDoc) : bool :=
  (company_user (doc c) =? uid)%string && isActive (doc c).

(** The document that [findOne] returned, changed and saved: the first
    document of the collection that the query matches is replaced. *)
Fixpoint replaceFirst (q : CompanyDoc -> bool) (c' : CompanyDoc)
    (store : list CompanyDoc) : list CompanyDoc :=
  match store with
  | [] => []
  | c :: rest =>
      if q c then c' :: rest else c :: replaceFirst q c' rest
  end.

(** [.sort({ createdAt: -1 })]. *)
Definition newestFirst (l : list CompanyDoc) : list CompanyDoc :=
  sort_stable (fun a b => c_createdAt b <=? c_createdAt a) l.

(** The test message of [POST /:id/test-email]. *)
Definition nl : string := String (ascii_of_nat 10) EmptyString.

Definition testHtml (c : Company) : string :=
  nl ++ "        <h2>Test Email</h2>"
  ++ nl ++ "        <p>This is a test email from your Cold Email Formatter configuration.</p>"
  ++ nl ++ "        <p><strong>Company:</strong> " ++ company_name c ++ "</p>"
  ++ nl ++ "        <p><strong>Sender:</strong> " ++ senderName (senderInfo c) ++ "</p>"
  ++ nl ++ "        <p><strong>Email:</strong> " ++ email (emailSettings c) ++ "</p>"
  ++ nl ++ "        <p><strong>Type:</strong> " ++ type (emailSettings c) ++ "</p>"
  ++ nl ++ "        <hr>"
  ++ nl ++ "        <p><em>If you received this email, your email configuration is working correctly!</em></p>"
  ++ nl ++ "      ".

(** The [switch (emailSettings.type)] of the test route: the options
    object that each [case] gives to [nodemailer.createTransporter]. *)
Definition transporterOptions (es : EmailSettings) : option TransportOptions :=
  if (type es =? "gmail")%string then
    Some (Service "gmail" {| user := email es; pass := password es |})
  else if (type es =? "outlook")%string then
    Some (Service "outlook" {| user := email es; pass := password es |})
  else if (type es =? "yahoo")%string then
    Some (Service "yahoo" {| user := email es; pass := password es |})
  else if (type es =? "custom")%string then
    Some (Smtp {| host := smtpHost es;
                  port := smtpPort es;
                  secure := useSSL es;
                  auth := {| user := email es; pass := password es |};
                  tls := Some (useTLS es);
                  connectionTimeout := None;
                  greetingTimeout := None;
                  socketTimeout := None |})
  else None.

Section Handlers.

(** The persistence layer (Mongoose) is outside the program:
    - [validId] tells whether a text can be cast to an object id, and
      [castMessage] is the message of the [CastError] when it cannot;
    - [newId] is the id given to a new document;
    - [cast] is what the [emailSettings] path holds once a value has been
      assigned to it (casting and defaults);
    - [saveError] is the exception of [save()], if it throws: a
      validation error of the schema or a failure of the database;
    - [clock] is the time of the save of a new document, which both
      timestamps get;
    - [stamp] is [updatedAt] after the save of a document that was found
      and assigned to: the time of the save when the assignments have
      modified the document, and the value it had when they have not.
    A query with an id that is an object id succeeds. *)
Variable validId : string -> bool.
Variable castMessage : string -> string.
Variable newId : list CompanyDoc -> string.
Variable cast : EmailSettings -> EmailSettings.
Variable saveError : list CompanyDoc -> CompanyDoc -> option DbError.
Variable clock : list CompanyDoc -> Z.
Variable stamp : list CompanyDoc -> CompanyDoc -> CompanyDoc -> Z.
Variable sendMail : TransportOptions -> MailOptions -> JsError + SendInfo.

(** [router.get('/')]. *)
Definition getCompanies (uid : string) (store : list CompanyDoc) : Response :=
  Listed (newestFirst (filter (activeOf uid) store)).

(** [router.get('/:id')]. *)
Definition getCompany (uid id : string) (store : list CompanyDoc) : Response :=
  if negb (validId id) then Failed 400 "Invalid company ID" None
  else
    match find (fun c => ownedBy uid id c && isActive (doc c)) store with
    | None => Failed 404 "Company not found" None
    | Some company => Found company
    end.

(** The [catch] block of [POST /]. *)
Definition createCatch (e : DbError) : Response :=
  match e with
  | ValidationError ms => Failed 400 (String.concat ", " ms) None
  | _ => Failed 500 "Failed to create company" None
  end.

(** [router.post('/')]. *)
Definition createCompany (uid : string) (body : Body)
    (store : list CompanyDoc) : list CompanyDoc * Response :=
  match b_emailSettings body, b_senderInfo body with
  | Some es, Some si =>
      if negb (Js.truthy_opt (b_name body)) then
        (store, Failed 400 "Name, email settings, and sender info are required"
                  None)
      else
        let name := Js.or_else (b_name body) "" in
        match find (fun c => activeOf uid c
                             && (company_name (doc c) =? Js.trim name)%string)
                store with
        | Some _ =>
            (store, Failed 400 "A company with this name already exists" None)
        | None =>
            let company :=
              {| doc := {| company_id := newId store;
                           company_user := uid;
                           company_name := Js.trim (Js.trim name);
                           emailSettings := cast es;
                           senderInfo := trimmedSender si;
                           isActive := true |};
                 description :=
                   option_map (fun s => Js.trim (Js.trim s))
                     (b_description body);
                 c_createdAt := clock store;
                 c_updatedAt := clock store |} in
            match saveError store company with
            | Some e => (store, createCatch e)
            | None =>
                ((store ++ [company])%list,
                 Saved 201 "Company created successfully" company)
            end
        end
  | _, _ =>
      (store, Failed 400 "Name, email settings, and sender info are required"
                None)
  end.

(** The [catch] block of [PUT /:id]. *)
Definition updateCatch (e : DbError) : Response :=
  match e with
  | ValidationError ms => Failed 400 (String.concat ", " ms) None
  | CastError _ => Failed 400 "Invalid company ID" None
  | OtherError _ => Failed 500 "Failed to update company" None
  end.

(** [company.save()] for a document [company] that was found and is now
    [changed]: [timestamps: true] sets [updatedAt]. *)
Definition saved (store : list CompanyDoc) (company changed : CompanyDoc)
  : CompanyDoc :=
  {| doc := doc changed;
     description := description changed;
     c_createdAt := c_createdAt changed;
     c_updatedAt := stamp store company changed |}.

(** The assignments of [PUT /:id] to the document that was found. *)
Definition updated (company : CompanyDoc) (body : Body) : CompanyDoc :=
  let c := doc company in
  {| doc :=
       {| company_id := company_id c;
          company_user := company_user c;
          company_name :=
            if Js.truthy_opt (b_name body)
            then Js.trim (Js.trim (Js.or_else (b_name body) ""))
            else company_name c;
          emailSettings :=
            match b_emailSettings body with
            | Some es => cast es
            | None => emailSettings c
            end;
          senderInfo :=
            match b_senderInfo body with
            | Some si => trimmedSender si
            | None => senderInfo c
            end;
          isActive :=
            match b_isActive body with
            | Some b => b
            | None => isActive c
            end |};
     description :=
       match b_description body with
       | Some s => Some (Js.trim (Js.trim s))
       | None => description company
       end;
     c_createdAt := c_createdAt company;
     c_updatedAt := c_updatedAt company |}.

(** [router.put('/:id')]. *)
Definition updateCompany (uid id : string) (body : Body)
    (store : list CompanyDoc) : list CompanyDoc * Response :=
  if negb (validId id) then (store, updateCatch (CastError (castMessage id)))
  else
    match find (ownedBy uid id) store with
    | None => (store, Failed 404 "Company not found" None)
    | Some company =>
        let name := Js.or_else (b_name body) "" in
        let conflict :=
          if Js.truthy_opt (b_name body)
             && negb (Js.trim name =? company_name (doc company))%string
          then
            find (fun c => activeOf uid c
                           && (company_name (doc c) =? Js.trim name)%string
                           && negb (company_id (doc c) =? id)%string) store
          else None in
        match conflict with
        | Some _ =>
            (store, Failed 400 "A company with this name already exists" None)
        | None =>
            let company' := saved store company (updated company body) in
            match saveError store company' with
            | Some e => (store, updateCatch e)
            | None =>
                (replaceFirst (ownedBy uid id) company' store,
                 Saved 200 "Company updated successfully" company')
            end
        end
    end.

(** [company.isActive = false]. *)
Definition deactivated (company : CompanyDoc) : CompanyDoc :=
  let c := doc company in
  {| doc := {| company_id := company_id c;
               company_user := company_user c;
               company_name := company_name c;
               emailSettings := emailSettings c;
               senderInfo := senderInfo c;
               isActive := false |};
     description := description company;
     c_createdAt := c_createdAt company;
     c_updatedAt := c_updatedAt company |}.

(** [router.delete('/:id')]: a soft delete. *)
Definition deleteCompany (uid id : string) (store : list CompanyDoc)
  : list CompanyDoc * Response :=
  if negb (validId id) then (store, Failed 400 "Invalid company ID" None)
  else
    match find (ownedBy uid id) store with
    | None => (store, Failed 404 "Company not found" None)
    | Some company =>
        let company' := saved store company (deactivated company) in
        match saveError store company' with
        | Some (CastError _) => (store, Failed 400 "Invalid company ID" None)
        | Some _ => (store, Failed 500 "Failed to delete company" None)
        | None =>
            (replaceFirst (ownedBy uid id) company' store,
             Done "Company deleted successfully")
        end
    end.

(** [router.post('/:id/test-email')]. *)
Definition testEmail (uid id : string) (address : option string)
    (store : list CompanyDoc) : Response :=
  if negb (validId id) then
    Failed 500 "Failed to send test email" (Some (castMessage id))
  else
    match find (fun c => ownedBy uid id c && isActive (doc c)) store with
    | None => Failed 404 "Company not found" None
    | Some company =>
        if negb (Js.truthy_opt address) then
          Failed 400 "Test email address is required" None
        else
          match transporterOptions (emailSettings (doc company)) with
          | None => Failed 400 "Invalid email type" None
          | Some options =>
              match Routes.createTransporter options with
              | inl error =>
                  Failed 500 "Failed to send test email" (Some (message error))
              | inr transporter =>
                  let mailOptions :=
                    {| mo_from := senderName (senderInfo (doc company)) ++ " <"
                                  ++ email (emailSettings (doc company)) ++ ">";
                       mo_to := Js.or_else address "";
                       mo_cc := None;
                       mo_subject := "Test Email - Cold Email Formatter";
                       mo_html := testHtml (doc company);
                       mo_text := None |} in
                  match sendMail transporter mailOptions with
                  | inl error =>
                      Failed 500 "Failed to send test email"
                        (Some (message error))
                  | inr _ => Done "Test email sent successfully"
                  end
              end
          end
    end.

End Handlers.

End Companies.

(* ================================================================== *)
(** ** The file-backed server: accounts and companies                  *)
(* ================================================================== *)

Module Accounts.

Record User : Type := {
  u_id : string;
  u_email : string;
  u_password : string;
  firstName : string;
  lastName : string;
  u_isActive : bool;
  lastLogin : Z;
  u_createdAt : Z;
  u_updatedAt : Z
}.

(** The content of [db.json]. *)
Record DB : Type := {
  users : list User;
  companies : list CompanyDoc;
  db_emails : list Email
}.

(** The file: it cannot be read or parsed, or it holds a database. *)
Inductive DbFile : Type :=
  | Broken
  | Holds (db : DB).

(** The file and the number of calls to the environment so far (the clock,
    the file system, bcrypt and the token library answer by it). *)
Record Server : Type := {
  dbFile : DbFile;
  tick : nat
}.

(** What the routes answer with about a user. *)
Record PublicUser : Type := {
  p_id : string;
  p_email : string;
  p_firstName : string;
  p_lastName : string
}.

Definition public (u : User) : PublicUser :=
  {| p_id := u_id u; p_email := u_email u;
     p_firstName := firstName u; p_lastName := lastName u |}.

Inductive Response : Type :=
  | Failed (httpStatus : Z) (error : string)
  | Signed (httpStatus : Z) (message : string) (token : string)
      (user : PublicUser)
  | Profile (user : PublicUser)
  | Listed (companies : list CompanyDoc)
  | Saved (httpStatus : Z) (message : string) (company : CompanyDoc)
  | Done (message : string).

Record RegisterBody : Type := {
  r_email : option string;
  r_password : option string;
  r_firstName : option string;
  r_lastName : option string
}.

Record LoginBody : Type := {
  l_email : option string;
  l_password : option string
}.

(** The body of [POST /api/companies]; the handler stores the fields
    without a check, and they are taken as the front end sends them. *)
Record CompanyBody : Type := {
  c_name : string;
  c_emailSettings : EmailSettings;
  c_senderInfo : SenderInfo;
  c_description : option string
}.

(** The objects of a [PUT /api/companies/:id] body: each key is given or
    not. *)
Record SettingsPatch : Type := {
  p_email_ : option string;
  p_password : option string;
  p_type : option string;
  p_smtpHost : option string;
  p_smtpPort : option Js.value;
  p_useSSL : option bool;
  p_useTLS : option bool
}.

Record SenderPatch : Type := {
  p_name : option string;
  p_signature : option string
}.

Record UpdateBody : Type := {
  up_name : option string;
  up_emailSettings : option SettingsPatch;
  up_senderInfo : option SenderPatch;
  up_description : option string
}.

Definition emptyDB : DB := {| users := []; companies := []; db_emails := [] |}.

(** [readDB]: a file that cannot be read gives the empty database. *)
Definition readDB (s : Server) : DB :=
  match dbFile s with
  | Holds db => db
  | Broken => emptyDB
  end.

(** The text up to the first space, and the text after it. *)
Fixpoint upToSpace (s : string) : string :=
  match s with
  | EmptyString => EmptyString
  | String c s' => if Ascii.eqb c " " then EmptyString else String c (upToSpace s')
  end.

Fixpoint afterSpace (s : string) : option string :=
  match s with
  | EmptyString => None
  | String c s' => if Ascii.eqb c " " then Some s' else afterSpace s'
  end.

(** [authHeader && authHeader.split(' ')[1]]. *)
Definition tokenOfHeader (authHeader : option string) : option string :=
  match authHeader with
  | None => None
  | Some h =>
      if Js.truthy h then option_map upToSpace (afterSpace h) else Some h
  end.

(** [{ ...current.emailSettings, ...(emailSettings || {}) }]. *)
Definition mergeSettings (current : EmailSettings)
    (patch : option SettingsPatch) : EmailSettings :=
  match patch with
  | None => current
  | Some p =>
      {| email := match p_email_ p with Some v => v | None => email current end;
         password :=
           match p_password p with Some v => v | None => password current end;
         type := match p_type p with Some v => v | None => type current end;
         smtpHost :=
           match p_smtpHost p with Some v => Some v | None => smtpHost current end;
         smtpPort :=
           match p_smtpPort p with Some v => v | None => smtpPort current end;
         useSSL :=
           match p_useSSL p with Some v => Some v | None => useSSL current end;
         useTLS :=
           match p_useTLS p with Some v => Some v | None => useTLS current end |}
  end.

(** [{ ...current.senderInfo, ...(senderInfo || {}) }]. *)
Definition mergeSender (current : SenderInfo) (patch : option SenderPatch)
  : SenderInfo :=
  match patch with
  | None => current
  | Some p =>
      {| senderName :=
           match p_name p with Some v => v | None => senderName current end;
         signature :=
           match p_signature p with
           | Some v => Some v
           | None => signature current
           end |}
  end.

(** [db.companies[companyIndex] = updatedCompany]. *)
Fixpoint setFirst (q : CompanyDoc -> bool) (c' : CompanyDoc)
    (l : list CompanyDoc) : list CompanyDoc :=
  match l with
  | [] => []
  | c :: rest => if q c then c' :: rest else c :: setFirst q c' rest
  end.

Fixpoint setFirstUser (q : User -> bool) (u' : User) (l : list User)
  : list User :=
  match l with
  | [] => []
  | u :: rest => if q u then u' :: rest else u :: setFirstUser q u' rest
  end.

Section Handlers.

(** The environment, by the number of calls made so far: the clock
    ([Date.now()], [new Date()]), the file system, [bcrypt.hash] (which
    salts at random), [jwt.sign] and [jwt.verify] (which read the clock);
    [bcrypt.compare] depends on its arguments only.  [verify] gives the
    [userId] of the payload, or [None] for a token that is not valid.
    The two libraries are taken not to throw. *)
Variable clock : nat -> Z.
Variable writeOk : nat -> bool.
Variable hash : nat -> string -> string.
Variable compare : string -> string -> bool.
Variable sign : nat -> string -> string.
Variable verify : nat -> string -> option string.

(** [writeDB]: a failed write is only logged. *)
Definition writeDB (s : Server) (db : DB) : Server :=
  {| dbFile := if writeOk (tick s) then Holds db else dbFile s;
     tick := S (tick s) |}.

(** [generateToken]. *)
Definition generateToken (s : Server) (userId : string) : string :=
  sign (tick s) userId.

(** [authenticateToken]: [inr userId] is [next()] with
    [req.user.userId]. *)
Definition authenticateToken (authHeader : option string) (s : Server)
  : Response + string :=
  match tokenOfHeader authHeader with
  | None => inl (Failed 401 "Access token required")
  | Some token =>
      if negb (Js.truthy token) then inl (Failed 401 "Access token required")
      else
        match verify (tick s) token with
        | None => inl (Failed 403 "Invalid or expired token")
        | Some userId => inr userId
        end
  end.

(** [app.post('/api/auth/register')]. *)
Definition register (body : RegisterBody) (s : Server) : Server * Response :=
  if negb (Js.truthy_opt (r_email body))
     || negb (Js.truthy_opt (r_password body))
     || negb (Js.truthy_opt (r_firstName body))
     || negb (Js.truthy_opt (r_lastName body))
  then (s, Failed 400 "All fields are required")
  else
    let email := Js.or_else (r_email body) "" in
    let password := Js.or_else (r_password body) "" in
    if (String.length password <? 6)%nat
    then (s, Failed 400 "Password must be at least 6 characters long")
    else
      let db := readDB s in
      match find (fun user => (u_email user =? email)%string) (users db) with
      | Some _ => (s, Failed 400 "User with this email already exists")
      | None =>
          let hashedPassword := hash (tick s) password in
          let newUser :=
            {| u_id := Js.toString (clock (1 + tick s));
               u_email := email;
               u_password := hashedPassword;
               firstName := Js.or_else (r_firstName body) "";
               lastName := Js.or_else (r_lastName body) "";
               u_isActive := true;
               lastLogin := clock (2 + tick s);
               u_createdAt := clock (3 + tick s);
               u_updatedAt := clock (4 + tick s) |} in
          let s1 :=
            writeDB {| dbFile := dbFile s; tick := 5 + tick s |}
              {| users := (users db ++ [newUser])%list;
                 companies := companies db;
                 db_emails := db_emails db |} in
          let token := generateToken s1 (u_id newUser) in
          ({| dbFile := dbFile s1; tick := S (tick s1) |},
           Signed 201 "User registered successfully" token (public newUser))
      end.

(** [app.post('/api/auth/login')]. *)
Definition login (body : LoginBody) (s : Server) : Server * Response :=
  if negb (Js.truthy_opt (l_email body))
     || negb (Js.truthy_opt (l_password body))
  then (s, Failed 400 "Email and password are required")
  else
    let email := Js.or_else (l_email body) "" in
    let password := Js.or_else (l_password body) "" in
    let db := readDB s in
    match find (fun u => (u_email u =? email)%string) (users db) with
    | None => (s, Failed 401 "Invalid email or password")
    | Some user =>
        if negb (compare password (u_password user))
        then (s, Failed 401 "Invalid email or password")
        else
          let user' :=
            {| u_id := u_id user; u_email := u_email user;
               u_password := u_password user;
               firstName := firstName user; lastName := lastName user;
               u_isActive := u_isActive user;
               lastLogin := clock (tick s);
               u_createdAt := u_createdAt user;
               u_updatedAt := u_updatedAt user |} in
          let s1 :=
            writeDB {| dbFile := dbFile s; tick := S (tick s) |}
              {| users :=
                   setFirstUser (fun u => (u_email u =? email)%string) user'
                     (users db);
                 companies := companies db;
                 db_emails := db_emails db |} in
          let token := generateToken s1 (u_id user) in
          ({| dbFile := dbFile s1; tick := S (tick s1) |},
           Signed 200 "Login successful" token (public user'))
    end.

(** [app.get('/api/auth/profile', authenticateToken, ...)]. *)
Definition profile (authHeader : option string) (s : Server) : Response :=
  match authenticateToken authHeader s with
  | inl r => r
  | inr userId =>
      match find (fun u => (u_id u =? userId)%string) (users (readDB s)) with
      | None => Failed 404 "User not found"
      | Some user => Profile (public user)
      end
  end.

(** [c.user === req.user.userId && c.isActive]. *)
Definition activeOf (uid : string) (c : CompanyDoc) : bool :=
  (company_user (doc c) =? uid)%string && isActive (doc c).

(** [c._id === id && c.user === req.user.userId && c.isActive]. *)
Definition activeWithId (uid id : string) (c : CompanyDoc) : bool :=
  (company_id (doc c) =? id)%string && (company_user (doc c) =? uid)%string
  && isActive (doc c).

(** [app.get('/api/companies', authenticateToken, ...)]. *)
Definition getCompanies (authHeader : option string) (s : Server) : Response :=
  match authenticateToken authHeader s with
  | inl r => r
  | inr uid => Listed (filter (activeOf uid) (companies (readDB s)))
  end.

(** [app.post('/api/companies', authenticateToken, ...)]. *)
Definition createCompany (authHeader : option string) (body : CompanyBody)
    (s : Server) : Server * Response :=
  match authenticateToken authHeader s with
  | inl r => (s, r)
  | inr uid =>
      let db := readDB s in
      match find (fun c => (company_user (doc c) =? uid)%string
                           && (company_name (doc c) =? c_name body)%string
                           && isActive (doc c)) (companies db) with
      | Some _ => (s, Failed 400 "A company with this name already exists")
      | None =>
          let newCompany :=
            {| doc := {| company_id := Js.toString (clock (tick s));
                         company_user := uid;
                         company_name := c_name body;
                         emailSettings := c_emailSettings body;
                         senderInfo := c_senderInfo body;
                         isActive := true |};
               description := c_description body;
               c_createdAt := clock (1 + tick s);
               c_updatedAt := clock (2 + tick s) |} in
          (writeDB {| dbFile := dbFile s; tick := 3 + tick s |}
             {| users := users db;
                companies := (companies db ++ [newCompany])%list;
                db_emails := db_emails db |},
           Saved 201 "Company created successfully" newCompany)
      end
  end.

(** The [updatedCompany] object of [PUT /api/companies/:id]. *)
Definition updatedCompany (current : CompanyDoc) (body : UpdateBody) (now : Z)
  : CompanyDoc :=
  let c := doc current in
  {| doc :=
       {| company_id := company_id c;
          company_user := company_user c;
          company_name :=
            match up_name body with
            | Some name =>
                if Js.truthy (Js.trim name) then name else company_name c
            | None => company_name c
            end;
          emailSettings := mergeSettings (emailSettings c) (up_emailSettings body);
          senderInfo := mergeSender (senderInfo c) (up_senderInfo body);
          isActive := isActive c |};
     description :=
       match up_description body with
       | Some d => Some d
       | None => description current
       end;
     c_createdAt := c_createdAt current;
     c_updatedAt := now |}.

(** [app.put('/api/companies/:id', authenticateToken, ...)]. *)
Definition updateCompany (authHeader : option string) (id : string)
    (body : UpdateBody) (s : Server) : Server * Response :=
  match authenticateToken authHeader s with
  | inl r => (s, r)
  | inr uid =>
      let db := readDB s in
      match find (activeWithId uid id) (companies db) with
      | None => (s, Failed 404 "Company not found")
      | Some current =>
          let updated := updatedCompany current body (clock (tick s)) in
          (writeDB {| dbFile := dbFile s; tick := S (tick s) |}
             {| users := users db;
                companies := setFirst (activeWithId uid id) updated
                               (companies db);
                db_emails := db_emails db |},
           Saved 200 "Company updated successfully" updated)
      end
  end.

(** [company.isActive = false; company.updatedAt = ...]. *)
Definition deactivated (company : CompanyDoc) (now : Z) : CompanyDoc :=
  let c := doc company in
  {| doc := {| company_id := company_id c;
               company_user := company_user c;
               company_name := company_name c;
               emailSettings := emailSettings c;
               senderInfo := senderInfo c;
               isActive := false |};
     description := description company;
     c_createdAt := c_createdAt company;
     c_updatedAt := now |}.

(** [app.delete('/api/companies/:id', authenticateToken, ...)]: a soft
    delete. *)
Definition deleteCompany (authHeader : option string) (id : string)
    (s : Server) : Server * Response :=
  match authenticateToken authHeader s with
  | inl r => (s, r)
  | inr uid =>
      let db := readDB s in
      match find (activeWithId uid id) (companies db) with
      | None => (s, Failed 404 "Company not found")
      | Some company =>
          (writeDB {| dbFile := dbFile s; tick := S (tick s) |}
             {| users := users db;
                companies := setFirst (activeWithId uid id)
                               (deactivated company (clock (tick s)))
                               (companies db);
                db_emails := db_emails db |},
           Done "Company deleted successfully")
      end
  end.

End Handlers.

End Accounts.

(* ================================================================== *)
(** ** Regular expressions, and the filters of [server/emailServer.js] *)
(* ================================================================== *)

(** The regular expressions of the file, as JavaScript matches them: a
    backtracking matcher that tries the alternatives in order, takes as
    many iterations of a star as it can before it gives some back, and
    gives up an iteration that matched the empty string. *)
Module Re.

Inductive regex : Type :=
  | Chr (p : ascii -> bool)
  | Empty
  | Seq (a b : regex)
  | Alt (a b : regex)
  | Star (a : regex)
  | NotAhead (a : regex)
  | Boundary
  | Bol
  | Eol.

(** [a+]. *)
Definition Plus (a : regex) : regex := Seq a (Star a).

(** [\w]. *)
Definition isWordChar (c : ascii) : bool :=
  let n := nat_of_ascii c in
  ((48 <=? n) && (n <=? 57) || (65 <=? n) && (n <=? 90)
   || (97 <=? n) && (n <=? 122) || (n =? 95))%nat.

(** The upper-case form of an ASCII letter; the patterns of the file hold
    ASCII characters only, and under the [i] flag a character of the text
    matches a letter of the pattern when it is that letter in either
    case. *)
Definition upper (c : ascii) : ascii :=
  let n := nat_of_ascii c in
  if ((97 <=? n) && (n <=? 122))%nat then ascii_of_nat (n - 32) else c.

(** One character, under the [i] flag. *)
Definition ci (c : ascii) : regex :=
  Chr (fun x => Ascii.eqb (upper x) (upper c)).

(** One character, exactly. *)
Definition chr (c : ascii) : regex := Chr (Ascii.eqb c).

(** [[^c]]. *)
Definition notChr (c : ascii) : regex := Chr (fun x => negb (Ascii.eqb x c)).

(** A literal text, under the [i] flag. *)
Fixpoint lit (s : string) : regex :=
  match s with
  | EmptyString => Empty
  | String c s' => Seq (ci c) (lit s')
  end.

(** Is there a word character just before (the character [prev]), just
    after (the head of [s])? *)
Definition wordBefore (prev : option ascii) : bool :=
  match prev with
  | Some c => isWordChar c
  | None => false
  end.

Definition wordAfter (s : string) : bool :=
  match s with
  | String c _ => isWordChar c
  | EmptyString => false
  end.

(** The iterations of a star: [step] matches the body once.  The body is
    tried first (as many iterations as possible), and an iteration counts
    only if it has consumed a character, so that at most [String.length s]
    iterations are made and the [fuel] given by the matcher is never used
    up. *)
Fixpoint starLoop {T : Type}
    (step : option ascii -> string ->
            (option ascii -> string -> option T) -> option T)
    (k : option ascii -> string -> option T)
    (fuel : nat) (prev : option ascii) (s : string) : option T :=
  match fuel with
  | O => k prev s
  | S fuel' =>
      match step prev s
              (fun p1 s1 =>
                 if (String.length s1 <? String.length s)%nat
                 then starLoop step k fuel' p1 s1 else None) with
      | Some v => Some v
      | None => k prev s
      end
  end.

(** The matcher: [r] is matched at the head of [s], where [prev] is the
    character before it, and the continuation [k] is called with the rest
    of the text; [None] is failure. *)
Fixpoint matchAt {T : Type} (r : regex) (prev : option ascii) (s : string)
    (k : option ascii -> string -> option T) {struct r} : option T :=
  match r with
  | Chr p =>
      match s with
      | String c s' => if p c then k (Some c) s' else None
      | EmptyString => None
      end
  | Empty => k prev s
  | Seq a b => matchAt a prev s (fun p1 s1 => matchAt b p1 s1 k)
  | Alt a b =>
      match matchAt a prev s k with
      | Some v => Some v
      | None => matchAt b prev s k
      end
  | Star a =>
      starLoop (fun p1 s1 k1 => matchAt a p1 s1 k1) k
        (S (String.length s)) prev s
  | NotAhead a =>
      match matchAt a prev s (fun _ _ => Some tt) with
      | Some _ => None
      | None => k prev s
      end
  | Boundary =>
      if xorb (wordBefore prev) (wordAfter s) then k prev s else None
  | Bol =>
      match prev with
      | None => k prev s
      | Some _ => None
      end
  | Eol =>
      match s with
      | EmptyString => k prev s
      | String _ _ => None
      end
  end.

(** The rest of the text after the first match at the head of [s]. *)
Definition matchHere (r : regex) (prev : option ascii) (s : string)
  : option string :=
  matchAt r prev s (fun _ rest => Some rest).

(** Is there a match at this position or at a later one? *)
Fixpoint searchFrom (r : regex) (prev : option ascii) (s : string) : bool :=
  match matchHere r prev s with
  | Some _ => true
  | None =>
      match s with
      | String c s' => searchFrom r (Some c) s'
      | EmptyString => false
      end
  end.

(** [r.test(s)] for a regular expression whose [lastIndex] is 0. *)
Definition test (r : regex) (s : string) : bool := searchFrom r None s.

(** [s.replace(r, '')] for a global [r]: the matches are removed, from
    left to right; [skip] characters of a match are still to be dropped.
    After an empty match the scan moves on by one character. *)
Fixpoint removeFrom (r : regex) (skip : nat) (prev : option ascii)
    (s : string) : string :=
  match s with
  | EmptyString => EmptyString
  | String c s' =>
      match skip with
      | S n => removeFrom r n (Some c) s'
      | O =>
          match matchHere r prev s with
          | Some rest =>
              match (String.length s - String.length rest)%nat with
              | O => String c (removeFrom r O (Some c) s')
              | S n => removeFrom r n (Some c) s'
              end
          | None => String c (removeFrom r O (Some c) s')
          end
      end
  end.

Definition remove (r : regex) (s : string) : string := removeFrom r O None s.

End Re.

Module Filters.

Import Re.

Definition word : regex := Chr isWordChar.
Definition space : regex := Chr Js.isWhiteSpace.

(** [/javascript:/gi] *)
Definition javascriptRe : regex := lit "javascript:".

(** [/on\w+\s*=/gi] *)
Definition handlerRe : regex :=
  Seq (lit "on") (Seq (Plus word) (Seq (Star space) (chr "="))).

(** [/vbscript:/gi] *)
Definition vbscriptRe : regex := lit "vbscript:".

(** [/data:text\/html/gi] *)
Definition dataUrlRe : regex := lit "data:text/html".

(** The script pattern, under [gi]: [<script\b[^<]*], then any number of
    times the group [(?!<\/script>)<[^<]*], then [<\/script>]. *)
Definition scriptRe : regex :=
  Seq (lit "<script")
    (Seq Boundary
       (Seq (Star (notChr "<"))
          (Seq (Star (Seq (NotAhead (lit "</script>"))
                        (Seq (chr "<") (Star (notChr "<")))))
             (lit "</script>")))).

(** [[^\s@]] *)
Definition addressChar : regex :=
  Chr (fun c => negb (Js.isWhiteSpace c || Ascii.eqb c "@")).

(** [/^[^\s@]+@[^\s@]+\.[^\s@]+$/] *)
Definition emailRe : regex :=
  Seq Bol
    (Seq (Plus addressChar)
       (Seq (chr "@")
          (Seq (Plus addressChar)
             (Seq (chr ".") (Seq (Plus addressChar) Eol))))).

(** The test of [validateEmail]. *)
Definition emailRegex (s : string) : bool := test emailRe s.

(** [dangerousPatterns] of [validateInput]. *)
Definition dangerousPatterns : list regex :=
  [ scriptRe; javascriptRe; handlerRe; lit "<iframe"; lit "<object";
    lit "<embed"; lit "<link"; lit "<meta" ].

(** [dangerousPatterns.some(pattern => pattern.test(input))]. *)
Definition dangerous (s : string) : bool :=
  existsb (fun pattern => test pattern s) dangerousPatterns.

(** The replacements and the trim of [sanitizeInput]. *)
Definition cleanInput (s : string) : string :=
  Js.trim
    (remove dataUrlRe
       (remove vbscriptRe (remove handlerRe (remove javascriptRe s)))).

(** The replacements and the trim of [sanitizeEmailContent]. *)
Definition cleanContent (s : string) : string :=
  Js.trim
    (remove dataUrlRe
       (remove vbscriptRe
          (remove handlerRe (remove javascriptRe (remove scriptRe s))))).

(** The functions of the file, with their filters. *)
Definition validateEmail : option string -> bool :=
  EmailServer.validateEmail emailRegex.

Definition validateInput : option string -> nat -> bool :=
  EmailServer.validateInput dangerous.

Definition sanitizeInput : option string -> string :=
  EmailServer.sanitizeInput cleanInput.

Definition sanitizeEmailContent : option string -> string :=
  EmailServer.sanitizeEmailContent cleanContent.

End Filters.

(* ================================================================== *)
(** * The vocabulary of the properties, and concrete deployments       *)
(* ================================================================== *)

(** ** Custom companies *)

(** The port text is one that [getEmailConfig] refuses. *)
Definition portRejected (s : string) : Prop :=
  match Js.parseInt s with
  | None => True
  | Some p => p < 1 \/ 65535 < p
  end.

(** A custom company stored without host and port (the file-backed server
    stores the [emailSettings] of a request as they come). *)
Definition bareCustom : EmailSettings :=
  {| email := "ops@example.com"; password := "secret"; type := "custom";
     smtpHost := None; smtpPort := Js.Undefined;
     useSSL := None; useTLS := None |}.

(** A custom company on port 465 with the SSL flag off. *)
Definition sslOff465 : EmailSettings :=
  {| email := "ops@example.com"; password := "secret"; type := "custom";
     smtpHost := Some "smtp.example.com"; smtpPort := Js.Num 465;
     useSSL := Some false; useTLS := Some true |}.

(** A custom company on port 587 with the SSL flag on. *)
Definition sslOn587 : EmailSettings :=
  {| email := "ops@example.com"; password := "secret"; type := "custom";
     smtpHost := Some "smtp.example.com"; smtpPort := Js.Num 587;
     useSSL := Some true; useTLS := Some false |}.

(** A company of user [u1] with the settings that lack host and port, and
    a send through it. *)
Definition bareCompany : Company :=
  {| company_id := "c2"; company_user := "u1"; company_name := "Bare";
     emailSettings := bareCustom;
     senderInfo := {| senderName := "Ops"; signature := None |};
     isActive := true |}.

Definition simpleHello : Simple.SendBody :=
  {| Simple.sb_companyId := Some "c2";
     Simple.sb_to := "a@x.com";
     Simple.sb_cc := None;
     Simple.sb_subject := "Hello";
     Simple.sb_htmlContent := "<p>Hello</p>";
     Simple.sb_textContent := None;
     Simple.sb_campaignName := None |}.

(** ** A deployment of the route handlers *)

(** A text of 24 hexadecimal digits, which Mongoose casts to an object
    id, and the message of the CastError for another text. *)
Definition isHexDigit (c : ascii) : bool :=
  let n := nat_of_ascii c in
  ((48 <=? n) && (n <=? 57) || (65 <=? n) && (n <=? 70)
   || (97 <=? n) && (n <=? 102))%nat.

Fixpoint hexDigits (s : string) : bool :=
  match s with
  | EmptyString => true
  | String c s' => isHexDigit c && hexDigits s'
  end.

Definition objectId (s : string) : bool :=
  (String.length s =? 24)%nat && hexDigits s.

Definition castFailure (s : string) : string :=
  "Cast to ObjectId failed for value " ++ s.

(** A concrete deployment used to run the handlers: one active gmail
    company of one user, a transport that accepts every message, a
    ledger that accepts every record and a clock that stands still. *)
Definition acmeId : string := "64b7f0c2a1d3e4f5a6b7c8d9".
Definition aliceId : string := "507f1f77bcf86cd799439011".

Definition acme : Company :=
  {| company_id := acmeId; company_user := aliceId; company_name := "Acme";
     emailSettings := {| email := "ops@acme.test"; password := "secret";
                         type := "gmail"; smtpHost := None;
                         smtpPort := Js.Undefined;
                         useSSL := Some true; useTLS := Some true |};
     senderInfo := {| senderName := "Acme Ops"; signature := None |};
     isActive := true |}.

Definition alice : Caller :=
  {| userId := aliceId; ip := "127.0.0.1"; agent := None |}.

Definition acceptAll (tr : list Event) (t : TransportOptions) (m : MailOptions)
  : JsError + SendInfo :=
  inr {| info_messageId := "<1@acme.test>"; info_response := "250 OK" |}.

Definition refuseAll (tr : list Event) (t : TransportOptions) (m : MailOptions)
  : JsError + SendInfo :=
  inl {| code := Some "ESOCKET";
         message := "connect ECONNREFUSED 127.0.0.1:587" |}.

Definition alwaysSaved (tr : list Event) (e : Email) : option JsError := None.

Definition stillClock (tr : list Event) : Z := 0.

Definition emptyWorld : World := {| emails := []; trace := [] |}.

(** A bulk request whose subject carries the token twice. *)
Definition twoTokenBody : Routes.BulkBody :=
  {| Routes.b_companyId := Some acmeId;
     Routes.b_recipients :=
       Some [{| Routes.r_email := "a@x.com"; Routes.r_name := Some "A" |}];
     Routes.b_subject := Some "Hi {name}, welcome {name}!";
     Routes.b_htmlContent := Some "<p>Hello {name}</p><p>Bye {name}</p>";
     Routes.b_textContent := Some "Hello {name}. Bye {name}.";
     Routes.b_campaignName := None;
     Routes.b_delay := None |}.

(** ** Templating *)

(** [out] is [s] with every occurrence of [tok], read from left to right,
    replaced by [name]. *)
Inductive Substituted (tok name : string) : string -> string -> Prop :=
  | subst_end : Substituted tok name "" ""
  | subst_token (s out : string) :
      String.prefix tok s = true ->
      Substituted tok name (Js.drop (String.length tok) s) out ->
      Substituted tok name s (name ++ out)
  | subst_char (c : ascii) (s out : string) :
      String.prefix tok (String c s) = false ->
      Substituted tok name s out ->
      Substituted tok name (String c s) (String c out).

(** [out] is [s] with its first occurrence of [tok], if any, replaced by
    [name], and the rest as it was. *)
Inductive SubstitutedFirst (tok name : string) : string -> string -> Prop :=
  | first_end : SubstitutedFirst tok name "" ""
  | first_token (s : string) :
      String.prefix tok s = true ->
      SubstitutedFirst tok name s (name ++ Js.drop (String.length tok) s)
  | first_char (c : ascii) (s out : string) :
      String.prefix tok (String c s) = false ->
      SubstitutedFirst tok name s out ->
      SubstitutedFirst tok name (String c s) (String c out).

(** The text holds a dollar sign. *)
Fixpoint hasDollar (s : string) : bool :=
  match s with
  | EmptyString => false
  | String c s' => Ascii.eqb c "$" || hasDollar s'
  end.

(** ** Email history *)









(** ** Runs of the bulk loop *)

(** What a run does, as seen from outside: a message handed to the
    transport, a record written to the ledger, a pause. *)
Inductive Step : Type :=
  | StSend (to : string)
  | StSave (to : string) (st : string)
  | StDelay (ms : Z).

Definition stepsOf (ev : Event) : list Step :=
  match ev with
  | EvSend _ m => [StSend (mo_to m)]
  | EvSave e true => [StSave (e_to e) (status e)]
  | EvSave _ false => []
  | EvDelay ms => [StDelay ms]
  end.

Definition steps (evs : list Event) : list Step := flat_map stepsOf evs.

(** The steps of a run over [rs] whose outcomes are [outs]: for each
    recipient in turn a send, then the write of its record, then a pause
    unless the recipient is the last. *)
Fixpoint expectedSteps (delay : Z) (rs : list Routes.Recipient)
    (outs : list Routes.Outcome) : list Step :=
  match rs, outs with
  | r :: rs', o :: outs' =>
      StSend (Routes.r_email r)
      :: StSave (Js.trim (Routes.r_email r)) (Routes.o_status o)
      :: (match rs' with [] => [] | _ :: _ => [StDelay delay] end
          ++ expectedSteps delay rs' outs')%list
  | _, _ => []
  end.

Definition isSave (s : Step) : bool :=
  match s with StSave _ _ => true | _ => false end.

Definition isDelay (s : Step) : bool :=
  match s with StDelay _ => true | _ => false end.

Definition isSendEvent (ev : Event) : bool :=
  match ev with EvSend _ _ => true | _ => false end.

(** Sends and pauses only. *)
Definition pacing (l : list Step) : list Step :=
  filter (fun s => negb (isSave s)) l.

(** Sends to [tos] in order with a pause between consecutive ones. *)
Fixpoint interleaved (delay : Z) (tos : list string) : list Step :=
  match tos with
  | [] => []
  | t :: tos' =>
      StSend t :: match tos' with
                  | [] => []
                  | _ :: _ => StDelay delay :: interleaved delay tos'
                  end
  end.

(** The invariant of a ledger record once an attempt is over. *)
Definition recordInvariant (e : Email) : Prop :=
  (status e = "sent" \/ status e = "failed")
  /\ (sentAt e <> None <-> status e = "sent")
  /\ (messageId e <> None <-> status e = "sent")
  /\ (errorMessage e <> None <-> status e = "failed").

(** The ledger entry [e] is the one of outcome [o]. *)
Definition entryOf (o : Routes.Outcome) (e : Email) : Prop :=
  e_to e = Js.trim (Routes.o_to o) /\ status e = Routes.o_status o.

Definition countOutcomes (s : string) (l : list Routes.Outcome) : nat :=
  List.length (filter (fun o => (Routes.o_status o =? s)%string) l).

(** What one turn of the loop leaves behind. *)
Definition turnDone (subject : string) (r : Routes.Recipient) (w : World)
    (res : Routes.Results)
    (w' : World) (res' : Routes.Results) : Prop :=
  exists evs e o,
    trace w' = (trace w ++ evs)%list
    /\ emails w' = (emails w ++ [e])%list
    /\ Routes.outcomes res' = (Routes.outcomes res ++ [o])%list
    /\ Routes.o_to o = Routes.r_email r
    /\ entryOf o e
    /\ recordInvariant e
    /\ e_subject e = Js.trim (Routes.subjectFor subject r)
    /\ ((Routes.o_status o = "sent"
         /\ Routes.sent res' = S (Routes.sent res)
         /\ Routes.failed res' = Routes.failed res)
        \/ (Routes.o_status o = "failed"
            /\ Routes.sent res' = Routes.sent res
            /\ Routes.failed res' = S (Routes.failed res)))
    /\ steps evs = [StSend (Routes.r_email r);
                    StSave (Js.trim (Routes.r_email r)) (Routes.o_status o)]
    /\ List.length (filter isSendEvent evs) = 1%nat.

(** What a turn that throws out of its [catch] block leaves behind. *)
Definition turnAborted (r : Routes.Recipient) (w w' : World) : Prop :=
  exists evs,
    trace w' = (trace w ++ evs)%list
    /\ emails w' = emails w
    /\ steps evs = [StSend (Routes.r_email r)]
    /\ List.length (filter isSendEvent evs) = 1%nat.

(** What a completed run over [rest] leaves behind. *)
Definition loopDone (delay : Z) (rest : list Routes.Recipient) (w : World)
    (res : Routes.Results) (w' : World) (res' : Routes.Results) : Prop :=
  exists evs news outs,
    trace w' = (trace w ++ evs)%list
    /\ emails w' = (emails w ++ news)%list
    /\ Routes.outcomes res' = (Routes.outcomes res ++ outs)%list
    /\ map Routes.o_to outs = map Routes.r_email rest
    /\ Forall2 entryOf outs news
    /\ Forall recordInvariant news
    /\ Routes.sent res' = (Routes.sent res + countOutcomes "sent" outs)%nat
    /\ Routes.failed res'
       = (Routes.failed res + countOutcomes "failed" outs)%nat
    /\ (Routes.sent res' + Routes.failed res'
        = Routes.sent res + Routes.failed res + List.length rest)%nat
    /\ steps evs = expectedSteps delay rest outs
    /\ List.length (filter isSendEvent evs) = List.length rest.

(** What a run that is cut short leaves behind. *)
Definition loopAborted (delay : Z) (rest : list Routes.Recipient)
    (w w' : World) : Prop :=
  exists evs news k,
    trace w' = (trace w ++ evs)%list
    /\ emails w' = (emails w ++ news)%list
    /\ Forall recordInvariant news
    /\ (List.length news < List.length (filter isSendEvent evs))%nat
    /\ (1 <= k <= List.length rest)%nat
    /\ pacing (steps evs)
       = interleaved delay (firstn k (map Routes.r_email rest)).

(** The request passes the checks made before the transporter is built: a
    company id, a non-empty recipient array, a subject and html content,
    an active company of the caller and a supported email type. *)
Definition bulkAccepted (validId : string -> bool)
    (castMessage : string -> string) (companies : list Company) (cl : Caller)
    (body : Routes.BulkBody) (rs : list Routes.Recipient)
    (company : Company) (options : TransportOptions) : Prop :=
  Routes.b_recipients body = Some rs
  /\ rs <> []
  /\ Js.truthy_opt (Routes.b_companyId body) = true
  /\ Js.truthy_opt (Routes.b_subject body) = true
  /\ Js.truthy_opt (Routes.b_htmlContent body) = true
  /\ Routes.findCompany validId castMessage companies
       (Js.or_else (Routes.b_companyId body) "") (userId cl)
     = inr (Some company)
  /\ Routes.transporterOptions (emailSettings company) = Some options.


(** The results the loop starts from. *)
Definition noResults : Routes.Results :=
  {| Routes.sent := O; Routes.failed := O; Routes.outcomes := [] |}.


(** The pacing of a run of the loop over [rs] that ended in [w']: the
    sends go to the recipients in input order, with the pause between
    consecutive sends and nowhere else. *)
Definition bulkPaced (delay : Z) (w w' : World)
    (rs : list Routes.Recipient) : Prop :=
  exists evs,
    trace w' = (trace w ++ evs)%list
    /\ pacing (steps evs) = interleaved delay (map Routes.r_email rs)
    /\ List.length (filter isDelay (steps evs)) = (List.length rs - 1)%nat.


(** A transport that refuses the address [bad@@] and accepts the rest. *)
Definition rejectBad (tr : list Event) (t : TransportOptions) (m : MailOptions)
  : JsError + SendInfo :=
  if (mo_to m =? "bad@@")%string then
    inl {| code := Some "EENVELOPE"; message := "No recipients defined" |}
  else
    inr {| info_messageId := "<1@acme.test>"; info_response := "250 OK" |}.

Definition twoRecipients : list Routes.Recipient :=
  [{| Routes.r_email := "a@x.com"; Routes.r_name := Some "A" |};
   {| Routes.r_email := "bad@@"; Routes.r_name := Some "B" |}].

Definition mixedBody : Routes.BulkBody :=
  {| Routes.b_companyId := Some acmeId;
     Routes.b_recipients := Some twoRecipients;
     Routes.b_subject := Some "Hi {name}";
     Routes.b_htmlContent := Some "<p>Hello {name}</p>";
     Routes.b_textContent := None;
     Routes.b_campaignName := Some "spring";
     Routes.b_delay := None |}.


Definition acmeTransport : TransportOptions :=
  Service "gmail" {| user := "ops@acme.test"; pass := "secret" |}.






(** A single send through the Mongo-backed route to a transport that
    refuses everything. *)
Definition helloSend : Routes.SendBody :=
  {| Routes.s_companyId := Some acmeId;
     Routes.s_to := Some "a@x.com";
     Routes.s_subject := Some "Hello";
     Routes.s_htmlContent := Some "<p>Hello</p>";
     Routes.s_textContent := None;
     Routes.s_campaignName := None |}.

(** ** The log store and the send endpoint of [emailServer.js] *)

(** The summary counters agree with the log list. *)
Definition consistent (d : EmailServer.LogsData) : Prop :=
  EmailServer.totalEmails d = Z.of_nat (List.length (EmailServer.logs d))
  /\ EmailServer.pendingEmails d
     = EmailServer.countStatus "pending" (EmailServer.logs d)
  /\ EmailServer.successfulEmails d
     = EmailServer.countStatus "success" (EmailServer.logs d)
  /\ EmailServer.failedEmails d
     = EmailServer.countStatus "failed" (EmailServer.logs d).

(** The persisted store, if there is one, is consistent. *)
Definition fileConsistent (f : EmailServer.LogsFile) : Prop :=
  match f with
  | EmailServer.Stored d => consistent d
  | _ => True
  end.

(** The log list in the file (none when the file is absent or broken). *)
Definition storedLogs (d : EmailServer.Disk) : list EmailServer.LogEntry :=
  match EmailServer.file d with
  | EmailServer.Stored x => EmailServer.logs x
  | _ => []
  end.

(** The error codes that [/api/send-email] translates. *)
Definition translatedCode (c : option string) : bool :=
  match c with
  | Some s =>
      (s =? "EAUTH")%string || (s =? "ECONNECTION")%string
      || (s =? "EENVELOPE")%string || (s =? "ETIMEDOUT")%string
  | None => false
  end.

(** The request passes the checks of [/api/send-email] and carries the
    credentials. *)
Definition requestAccepted (emailRegex dangerous : string -> bool)
    (body : EmailServer.Body)
    (cfg : EmailServer.EmailConfigBody) (data : EmailServer.EmailDataBody)
    (a : Auth) : Prop :=
  EmailServer.b_emailConfig body = Some cfg
  /\ EmailServer.b_emailData body = Some data
  /\ EmailServer.validateEmail emailRegex (EmailServer.d_from data) = true
  /\ EmailServer.validateEmail emailRegex (EmailServer.d_to data) = true
  /\ EmailServer.validateInput dangerous (EmailServer.d_subject data) 200 = true
  /\ EmailServer.validateInput dangerous (EmailServer.cfg_host cfg) 1000 = true
  /\ EmailServer.isPort (EmailServer.cfg_port cfg) = true
  /\ EmailServer.cfg_auth cfg = Some a.

(** The transport fails with [error], at the connection check or at the
    send. *)
Definition deliveryFails (verify : nat -> SmtpOptions -> option JsError)
    (sendMail : nat -> SmtpOptions -> MailOptions -> JsError + SendInfo)
    (cfg : EmailServer.EmailConfigBody)
    (data : EmailServer.EmailDataBody) (a : Auth) (d1 : EmailServer.Disk)
    (error : JsError) : Prop :=
  verify (EmailServer.tick d1) (EmailServer.smtpOptions cfg a) = Some error
  \/ (verify (EmailServer.tick d1) (EmailServer.smtpOptions cfg a) = None
      /\ sendMail (EmailServer.tick d1) (EmailServer.smtpOptions cfg a)
           (EmailServer.mailOptions data) = inl error).

(** A concrete deployment of [emailServer.js]: filters that change
    nothing and accept everything, a clock that stands still, random text
    that differs from call to call, a file system that always writes, and
    a log file that does not exist yet. *)
Definition keep (s : string) : string := s.
Definition anyAddress (s : string) : bool := true.
Definition harmless (s : string) : bool := false.
Definition zeroTime (k : nat) : Z := 0.
Definition tickHex (k : nat) : string := Js.toString (Z.of_nat k).
Definition diskOk (k : nat) : bool := true.

Definition freshDisk : EmailServer.Disk :=
  {| EmailServer.file := EmailServer.Missing; EmailServer.tick := O |}.

Definition config587 : EmailServer.EmailConfigBody :=
  {| EmailServer.cfg_host := Some "smtp.example.com";
     EmailServer.cfg_port := Js.Num 587;
     EmailServer.cfg_secure := Some false;
     EmailServer.cfg_auth :=
       Some {| user := "ops@example.com"; pass := "secret" |} |}.

Definition hello : EmailServer.EmailDataBody :=
  {| EmailServer.d_emailType := Some "website";
     EmailServer.d_from := Some "ops@example.com";
     EmailServer.d_password := Some "secret";
     EmailServer.d_to := Some "a@x.com";
     EmailServer.d_cc := None;
     EmailServer.d_subject := Some "Hello";
     EmailServer.d_content := Some "<p>Hello</p>";
     EmailServer.d_domain := Some "smtp.example.com";
     EmailServer.d_smtpPort := Some "587" |}.

Definition helloRequest : EmailServer.Body :=
  {| EmailServer.b_emailConfig := Some config587;
     EmailServer.b_emailData := Some hello |}.

(** The server refuses the connection: an error whose code is none of the
    translated ones. *)
Definition connectionRefused : JsError :=
  {| code := Some "ESOCKET";
     message := "connect ECONNREFUSED 127.0.0.1:587" |}.

(** The server refuses the credentials. *)
Definition loginRefused : JsError :=
  {| code := Some "EAUTH";
     message := "Invalid login: 535 5.7.8 Username and Password not accepted" |}.

Definition verifyFails (error : JsError) (k : nat) (o : SmtpOptions)
  : option JsError := Some error.

Definition delivered (k : nat) (o : SmtpOptions) (m : MailOptions)
  : JsError + SendInfo :=
  inr {| info_messageId := "<1@example.com>"; info_response := "250 OK" |}.

(** The store after one logged attempt: one pending entry. *)
Definition onePending : EmailServer.Disk :=
  fst (EmailServer.logEmailAttempt keep keep zeroTime tickHex diskOk
         (Some config587) (Some hello) freshDisk).

(** ** Credentials and the logs endpoints: vocabulary *)

(** The request carries the admin token as a bearer token, or the API
    secret as its key. *)
Definition credentialsOk (ADMIN_TOKEN API_SECRET : string)
    (h : Admin.Headers) : Prop :=
  Admin.authorization h = Some ("Bearer " ++ ADMIN_TOKEN)
  \/ Admin.x_api_key h = Some API_SECRET.

(** The log entries a reader with credentials is served. *)
Definition servedLogs (clock : nat -> Z) (ADMIN_TOKEN API_SECRET : string)
    (h : Admin.Headers) (d : EmailServer.Disk) : list EmailServer.LogEntry :=
  match Admin.getLogs clock ADMIN_TOKEN API_SECRET h d with
  | Admin.Served x => EmailServer.logs x
  | _ => []
  end.

Definition adminToken : string := Admin.tokenOf (Some "s3cr3t-admin") "00ff".
Definition apiSecret : string := Admin.tokenOf None "a1b2c3".

Definition withBearer : Admin.Headers :=
  {| Admin.authorization := Some "Bearer s3cr3t-admin";
     Admin.x_api_key := None |}.

(** ** The client in front of the server: vocabulary *)

(** A form filled in for a website account. *)
Definition websiteForm : Client.EmailData :=
  {| Client.emailType := Client.Website;
     Client.from := "ops@example.com";
     Client.ed_password := "secret";
     Client.domain := "smtp.example.com";
     Client.ed_smtpPort := "587";
     Client.to := "a@x.com";
     Client.cc := "";
     Client.subject := "Hello";
     Client.content := "<p>Hello</p>" |}.

(** Status texts of the responses. *)
Definition statusTexts (st : Z) : string :=
  if st =? 200 then "OK"
  else if st =? 400 then "Bad Request"
  else "Internal Server Error".

(** The client in front of a server whose transport refuses the login. *)
Definition refusedLogin (q : Sender.Request) : Sender.FetchResult :=
  Sender.reply statusTexts
    (snd (EmailServer.sendEmail keep keep anyAddress harmless zeroTime
            tickHex diskOk (verifyFails loginRefused) delivered
            (Sender.toBody q) freshDisk)).

Definition websiteRequest : Sender.Request :=
  {| Sender.emailConfig :=
       {| Client.ec_host := "smtp.example.com"; Client.ec_port := 587;
          Client.ec_secure := false;
          Client.ec_auth := {| user := "ops@example.com"; pass := "secret" |} |};
     Sender.emailData := websiteForm |}.

(** ** Companies: vocabulary *)

(** The names of the active companies of a user, in the order of the
    collection. *)
Definition activeNames (uid : string) (store : list CompanyDoc)
  : list string :=
  map (fun c => company_name (doc c)) (filter (Companies.activeOf uid) store).

(** No user has two active companies of the same name. *)
Definition namesUnique (store : list CompanyDoc) : Prop :=
  forall uid : string, NoDup (activeNames uid store).

(** [_id] is a unique key of the collection. *)
Definition idsUnique (store : list CompanyDoc) : Prop :=
  NoDup (map (fun c => company_id (doc c)) store).

(** The request renames the company: it gives a name, and the name,
    trimmed, is not the one the company has. *)
Definition renames (body : Companies.Body) (company : CompanyDoc) : bool :=
  Js.truthy_opt (Companies.b_name body)
  && negb (Js.trim (Js.or_else (Companies.b_name body) "")
           =? company_name (doc company))%string.

(** The request switches a deleted company back on without renaming
    it. *)
Definition reactivates (uid id : string) (body : Companies.Body)
    (store : list CompanyDoc) : bool :=
  match find (Companies.ownedBy uid id) store with
  | Some company =>
      negb (isActive (doc company))
      && match Companies.b_isActive body with
         | Some b => b
         | None => false
         end
      && negb (renames body company)
  | None => false
  end.

(** The companies of everybody else. *)
Definition foreign (uid : string) (store : list CompanyDoc)
  : list CompanyDoc :=
  filter (fun c => negb (company_user (doc c) =? uid)%string) store.

(** The companies a response shows. *)
Definition shown (r : Companies.Response) : list CompanyDoc :=
  match r with
  | Companies.Listed l => l
  | Companies.Found c => [c]
  | Companies.Saved _ _ c => [c]
  | _ => []
  end.

(** The body [{ isActive: true }]. *)
Definition restoreBody : Companies.Body :=
  {| Companies.b_name := None; Companies.b_emailSettings := None;
     Companies.b_senderInfo := None; Companies.b_description := None;
     Companies.b_isActive := Some true |}.

(** A deployment: every text is an id, ids are numbered, settings are
    stored as given, saves succeed and the clock counts the documents;
    [updatedAt] is the time of the last save. *)
Definition anyId (s : string) : bool := true.
Definition noCast (s : string) : string := "Cast to ObjectId failed".
Definition countId (store : list CompanyDoc) : string :=
  "c" ++ Js.toString (Z.of_nat (List.length store)).
Definition asGiven (es : EmailSettings) : EmailSettings := es.
Definition savesOk (store : list CompanyDoc) (c : CompanyDoc)
  : option Companies.DbError := None.
Definition countClock (store : list CompanyDoc) : Z :=
  Z.of_nat (List.length store).
Definition countStamp (store : list CompanyDoc) (company changed : CompanyDoc)
  : Z := countClock store.

Definition gmailSettings : EmailSettings :=
  {| email := "ops@example.com"; password := "secret"; type := "gmail";
     smtpHost := None; smtpPort := Js.Undefined;
     useSSL := Some true; useTLS := Some true |}.

Definition acmeBody : Companies.Body :=
  {| Companies.b_name := Some " Acme ";
     Companies.b_emailSettings := Some gmailSettings;
     Companies.b_senderInfo :=
       Some {| senderName := "Ops"; signature := None |};
     Companies.b_description := None;
     Companies.b_isActive := None |}.

(** The collection after user [u1] has created the company 'Acme'. *)
Definition oneCompany : list CompanyDoc :=
  fst (Companies.createCompany countId asGiven savesOk countClock
         "u1" acmeBody []).

(** The document that the request leaves in the collection. *)
Definition acmeDoc : CompanyDoc :=
  {| doc := {| company_id := "c0"; company_user := "u1";
               company_name := "Acme";
               emailSettings := gmailSettings;
               senderInfo := {| senderName := "Ops"; signature := None |};
               isActive := true |};
     description := None;
     c_createdAt := 0;
     c_updatedAt := 0 |}.

(** The same collection after the company has been deleted, after a
    second company of the same name has been created, and after the first
    one has been switched on again. *)
Definition afterDelete : list CompanyDoc :=
  fst (Companies.deleteCompany anyId savesOk countStamp "u1" "c0" oneCompany).

Definition afterSecond : list CompanyDoc :=
  fst (Companies.createCompany countId asGiven savesOk countClock
         "u1" acmeBody afterDelete).

Definition afterRestore : list CompanyDoc :=
  fst (Companies.updateCompany anyId noCast asGiven savesOk countStamp
         "u1" "c0" restoreBody afterSecond).

(** The body [{ name: 'Beta' }]. *)
Definition renameBody : Companies.Body :=
  {| Companies.b_name := Some "Beta"; Companies.b_emailSettings := None;
     Companies.b_senderInfo := None; Companies.b_description := None;
     Companies.b_isActive := None |}.

(** ** Accounts: vocabulary *)

(** The users of the database in the file. *)
Definition storedUsers (s : Accounts.Server) : list Accounts.User :=
  Accounts.users (Accounts.readDB s).

(** The companies of the database in the file. *)
Definition storedCompanies (s : Accounts.Server) : list CompanyDoc :=
  Accounts.companies (Accounts.readDB s).

(** No two accounts share an email address. *)
Definition emailsUnique (s : Accounts.Server) : Prop :=
  NoDup (map Accounts.u_email (storedUsers s)).

(** The login request for the credentials of a registration. *)
Definition loginOf (body : Accounts.RegisterBody) : Accounts.LoginBody :=
  {| Accounts.l_email := Accounts.r_email body;
     Accounts.l_password := Accounts.r_password body |}.

(** A deployment: a clock that counts, a file system that writes, a hash
    that prefixes, tokens that name the user. *)
Definition tickClock (k : nat) : Z := Z.of_nat k.
Definition prefixHash (k : nat) (p : string) : string := "$2a$12$" ++ p.
Definition prefixCompare (p h : string) : bool := (h =? "$2a$12$" ++ p)%string.
Definition plainSign (k : nat) (userId : string) : string := "jwt." ++ userId.
Definition plainVerify (k : nat) (token : string) : option string :=
  if String.prefix "jwt." token then Some (Js.drop 4 token) else None.
Definition diskFull (k : nat) : bool := false.

Definition emptyServer : Accounts.Server :=
  {| Accounts.dbFile := Accounts.Holds Accounts.emptyDB; Accounts.tick := O |}.

Definition annRegisters : Accounts.RegisterBody :=
  {| Accounts.r_email := Some "ann@example.com";
     Accounts.r_password := Some "hunter22";
     Accounts.r_firstName := Some "Ann";
     Accounts.r_lastName := Some "Lee" |}.

Definition ann : Accounts.PublicUser :=
  {| Accounts.p_id := "1"; Accounts.p_email := "ann@example.com";
     Accounts.p_firstName := "Ann"; Accounts.p_lastName := "Lee" |}.

(** The server after the registration. *)
Definition annRegistered : Accounts.Server :=
  fst (Accounts.register tickClock diskOk prefixHash plainSign
         annRegisters emptyServer).

(** The registered user creates a company and deletes it. *)
Definition annHeader : option string := Some "Bearer jwt.1".

Definition acmeCompanyBody : Accounts.CompanyBody :=
  {| Accounts.c_name := "Acme";
     Accounts.c_emailSettings := gmailSettings;
     Accounts.c_senderInfo := {| senderName := "Ops"; signature := None |};
     Accounts.c_description := None |}.

Definition annWithCompany : Accounts.Server :=
  fst (Accounts.createCompany tickClock diskOk plainVerify annHeader
         acmeCompanyBody annRegistered).

Definition annAfterDelete : Accounts.Server :=
  fst (Accounts.deleteCompany tickClock diskOk plainVerify annHeader "7"
         annWithCompany).

(** The body [{ description: 'Mail' }]. *)
Definition describeBody : Accounts.UpdateBody :=
  {| Accounts.up_name := None; Accounts.up_emailSettings := None;
     Accounts.up_senderInfo := None;
     Accounts.up_description := Some "Mail" |}.

(** A file system that always writes the ledger. *)
Definition ledgerWritten (tr : list Event) : bool := true.

(** ** Regular expressions: what a match is *)

(** A position in a text: the character before it and the text from it
    on. *)
Definition position : Type := (option ascii * string)%type.

(** Iterations of a step that each consume a character. *)
Inductive Iter (R : position -> position -> Prop)
  : position -> position -> Prop :=
  | IterNil (x : position) : Iter R x x
  | IterStep (x y z : position) :
      R x y -> (String.length (snd y) < String.length (snd x))%nat ->
      Iter R y z -> Iter R x z.

(** [r] matches the text between the positions [x] and [y]. *)
Fixpoint Matches (r : Re.regex) (x y : position) : Prop :=
  match r with
  | Re.Chr p =>
      exists c, snd x = String c (snd y) /\ p c = true /\ fst y = Some c
  | Re.Empty => y = x
  | Re.Seq a b => exists m, Matches a x m /\ Matches b m y
  | Re.Alt a b => Matches a x y \/ Matches b x y
  | Re.Star a => Iter (Matches a) x y
  | Re.NotAhead a => y = x /\ forall z, ~ Matches a x z
  | Re.Boundary =>
      y = x /\ xorb (Re.wordBefore (fst x)) (Re.wordAfter (snd x)) = true
  | Re.Bol => y = x /\ fst x = None
  | Re.Eol => y = x /\ snd x = EmptyString
  end.

(** Every character of a text satisfies [p]. *)
Fixpoint allChars (p : ascii -> bool) (s : string) : bool :=
  match s with
  | EmptyString => true
  | String c s' => p c && allChars p s'
  end.

(** The character [c] occurs in the text. *)
Fixpoint occurs (c : ascii) (s : string) : bool :=
  match s with
  | EmptyString => false
  | String x s' => Ascii.eqb x c || occurs c s'
  end.

(** The two texts are equal up to the case of ASCII letters. *)
Fixpoint sameLetters (a b : string) : bool :=
  match a, b with
  | EmptyString, EmptyString => true
  | String x a', String y b' =>
      Ascii.eqb (Re.upper x) (Re.upper y) && sameLetters a' b'
  | _, _ => false
  end.

(** The character before the position reached after [m]. *)
Fixpoint charBefore (prev : option ascii) (m : string) : option ascii :=
  match m with
  | EmptyString => prev
  | String c m' => charBefore (Some c) m'
  end.

(** A character of an address: no white space and no [@]. *)
Definition addressOk (c : ascii) : bool :=
  negb (Js.isWhiteSpace c || Ascii.eqb c "@").

(** The texts that [validateInput] refuses wherever they occur, in any
    letter case. *)
Definition forbiddenTexts : list string :=
  ["javascript:"; "<iframe"; "<object"; "<embed"; "<link"; "<meta"].

(** The text holds one of the forbidden texts, or something that reads
    like an event-handler attribute: [on], word characters, white space if
    any, and an equals sign. *)
Definition looksDangerous (s : string) : Prop :=
  (exists a x b p,
      s = (a ++ x ++ b)%string /\ In p forbiddenTexts
      /\ sameLetters x p = true)
  \/ (exists a o w sp b,
         s = (a ++ o ++ w ++ sp ++ "=" ++ b)%string
         /\ sameLetters o "on" = true
         /\ w <> EmptyString /\ allChars Re.isWordChar w = true
         /\ allChars Js.isWhiteSpace sp = true).

(** The server with its own filters. *)
Definition filteredSendEmail (clock : nat -> Z) (randomHex : nat -> string)
    (writeOk : nat -> bool) (verify : nat -> SmtpOptions -> option JsError)
    (sendMail : nat -> SmtpOptions -> MailOptions -> JsError + SendInfo)
  : EmailServer.Body -> EmailServer.Disk
    -> EmailServer.Disk * EmailServer.Response :=
  EmailServer.sendEmail Filters.cleanInput Filters.cleanContent
    Filters.emailRegex Filters.dangerous clock randomHex writeOk verify
    sendMail.

(** No [<] of the text is followed, anywhere later, by a [>]: the text
    holds nothing that [/<[^>]*>/] matches. *)
Definition tagFree (t : string) : Prop :=
  forall a b, t = (a ++ "<" ++ b)%string -> occurs ">" b = false.

(* ================================================================== *)
(** * Properties                                                       *)
(* ================================================================== *)

(** ** Resolving a custom company into a connection profile *)

(** [parseInt] of a number: an integer is read back from its decimal
    text. *)

Lemma parseDigits_acc (d : Decimal.uint) :
  forall a : positive,
    Js.parseDigits 10 (Some (Z.pos a)) (NilEmpty.string_of_uint d)
    = Some (Z.pos (Pos.of_uint_acc d a)).
Proof.
  induction d as [|d IH|d IH|d IH|d IH|d IH|d IH|d IH|d IH|d IH|d IH];
    intros a; cbn [NilEmpty.string_of_uint Pos.of_uint_acc Js.parseDigits];
    try reflexivity;
    match goal with
    | |- context [Js.digitValue 10 ?c] =>
        let v := eval vm_compute in (Js.digitValue 10 c) in
        change (Js.digitValue 10 c) with v
    end; cbv iota; rewrite <- IH; do 2 f_equal; lia.
Qed.

Lemma parseDigits_start (d : Decimal.uint) :
  forall acc : option Z,
    acc = None \/ acc = Some 0 ->
    Js.parseDigits 10 acc (NilEmpty.string_of_uint d)
    = match d with
      | Decimal.Nil => acc
      | _ => Some (Z.of_N (Pos.of_uint d))
      end.
Proof.
  induction d as [|d IH|d IH|d IH|d IH|d IH|d IH|d IH|d IH|d IH|d IH];
    intros acc Hacc; cbn [NilEmpty.string_of_uint Pos.of_uint Js.parseDigits];
    try reflexivity;
    match goal with
    | |- context [Js.digitValue 10 ?c] =>
        let v := eval vm_compute in (Js.digitValue 10 c) in
        change (Js.digitValue 10 c) with v
    end; cbv iota.
  - rewrite IH.
    + destruct d; try reflexivity. destruct Hacc as [-> | ->]; reflexivity.
    + right. destruct Hacc as [-> | ->]; reflexivity.
  - destruct Hacc as [-> | ->]; cbn [Z.mul Z.add]; apply parseDigits_acc.
  - destruct Hacc as [-> | ->]; cbn [Z.mul Z.add]; apply parseDigits_acc.
  - destruct Hacc as [-> | ->]; cbn [Z.mul Z.add]; apply parseDigits_acc.
  - destruct Hacc as [-> | ->]; cbn [Z.mul Z.add]; apply parseDigits_acc.
  - destruct Hacc as [-> | ->]; cbn [Z.mul Z.add]; apply parseDigits_acc.
  - destruct Hacc as [-> | ->]; cbn [Z.mul Z.add]; apply parseDigits_acc.
  - destruct Hacc as [-> | ->]; cbn [Z.mul Z.add]; apply parseDigits_acc.
  - destruct Hacc as [-> | ->]; cbn [Z.mul Z.add]; apply parseDigits_acc.
  - destruct Hacc as [-> | ->]; cbn [Z.mul Z.add]; apply parseDigits_acc.
Qed.

Lemma parseInt_digits (d : Decimal.uint) :
  d <> Decimal.Nil ->
  Js.parseInt (NilEmpty.string_of_uint d) = Some (Z.of_N (Pos.of_uint d)).
Proof.
  intros Hd.
  assert (H : Js.parseInt (NilEmpty.string_of_uint d)
              = match Js.parseDigits 10 None (NilEmpty.string_of_uint d) with
                | Some v => Some (1 * v)
                | None => None
                end).
  { destruct d as [|d|d|d|d|d|d|d|d|d|d]; try reflexivity.
    destruct d; reflexivity. }
  rewrite H, parseDigits_start by (now left).
  destruct d; try congruence; now rewrite Z.mul_1_l.
Qed.

Lemma parseInt_negative_digits (d : Decimal.uint) :
  d <> Decimal.Nil ->
  Js.parseInt (String "-" (NilEmpty.string_of_uint d))
  = Some (- Z.of_N (Pos.of_uint d)).
Proof.
  intros Hd.
  assert (H : Js.parseInt (String "-" (NilEmpty.string_of_uint d))
              = match Js.parseDigits 10 None (NilEmpty.string_of_uint d) with
                | Some v => Some (-1 * v)
                | None => None
                end).
  { destruct d as [|d|d|d|d|d|d|d|d|d|d]; try reflexivity.
    destruct d; reflexivity. }
  rewrite H, parseDigits_start by (now left).
  destruct d; try congruence; f_equal; lia.
Qed.

Lemma parseInt_toString (n : Z) : Js.parseInt (Js.toString n) = Some n.
Proof.
  unfold Js.toString. destruct n as [|p|p]; cbn [Z.to_int NilEmpty.string_of_int].
  - reflexivity.
  - rewrite parseInt_digits by apply Unsigned.to_uint_nonnil.
    now rewrite Unsigned.of_to.
  - rewrite parseInt_negative_digits by apply Unsigned.to_uint_nonnil.
    now rewrite Unsigned.of_to.
Qed.

Lemma parseIntValue_num (n : Z) : Js.parseIntValue (Js.Num n) = Some n.
Proof. apply parseInt_toString. Qed.

Lemma getEmailConfig_website (d : Client.EmailData) :
  Client.emailType d <> Client.Gmail ->
  Client.getEmailConfig d =
    if negb (Js.truthy (Client.domain d)) then
      inl "SMTP domain is required for website emails"
    else if negb (Js.truthy (Client.ed_smtpPort d)) then
      inl "SMTP port is required for website emails"
    else
      match Js.parseInt (Client.ed_smtpPort d) with
      | None => inl "Invalid SMTP port number"
      | Some port =>
          if (port <? 1) || (port >? 65535) then
            inl "Invalid SMTP port number"
          else
            inr {| Client.ec_host := Client.domain d;
                   Client.ec_port := port;
                   Client.ec_secure := port =? 465;
                   Client.ec_auth := {| user := Client.from d;
                                        pass := Client.ed_password d |} |}
      end.
Proof.
  intros Hty. unfold Client.getEmailConfig.
  destruct (Client.emailType d); [congruence | reflexivity | reflexivity].
Qed.

Lemma truthy_false_iff (s : string) : Js.truthy s = false <-> s = "".
Proof.
  unfold Js.truthy. destruct (String.eqb_spec s ""); simpl; split; congruence.
Qed.

Lemma truthy_true_iff (s : string) : Js.truthy s = true <-> s <> "".
Proof.
  unfold Js.truthy. destruct (String.eqb_spec s ""); simpl; split; congruence.
Qed.

Lemma routes_custom (es : EmailSettings) :
  type es = "custom" ->
  Routes.transporterOptions es =
    Some (Smtp {| host := smtpHost es; port := smtpPort es;
                  secure := useSSL es; auth := Routes.authOf es;
                  tls := Some (useTLS es);
                  connectionTimeout := None; greetingTimeout := None;
                  socketTimeout := None |}).
Proof.
  intros H. unfold Routes.transporterOptions. rewrite H. reflexivity.
Qed.

Lemma simple_custom (es : EmailSettings) :
  type es = "custom" ->
  Simple.transporterOptions es =
    Some (Smtp {| host := smtpHost es;
                  port := Js.ofParsed (Js.parseIntValue (smtpPort es));
                  secure := Some (match Js.parseIntValue (smtpPort es) with
                                  | Some p => p =? 465
                                  | None => false
                                  end);
                  auth := Routes.authOf es;
                  tls := None;
                  connectionTimeout := Some 10000;
                  greetingTimeout := Some 10000;
                  socketTimeout := Some 10000 |}).
Proof.
  intros H. unfold Simple.transporterOptions. rewrite H. reflexivity.
Qed.

(** [parseInt] reads the longest numeric prefix: a port text with letters
    after the digits is accepted with the value of the digits. *)
Example port_text_with_trailing_letters :
  Client.getEmailConfig
    {| Client.emailType := Client.Website; Client.from := "ops@example.com";
       Client.ed_password := "secret"; Client.domain := "smtp.example.com";
       Client.ed_smtpPort := "587abc"; Client.to := "a@x.com";
       Client.cc := ""; Client.subject := "Hello";
       Client.content := "<p>Hello</p>" |}
  = inr {| Client.ec_host := "smtp.example.com"; Client.ec_port := 587;
           Client.ec_secure := false;
           Client.ec_auth := {| user := "ops@example.com";
                                pass := "secret" |} |}.
Proof. reflexivity. Qed.

(** C1, as the claim states it, fails: the file-backed server, which
    stores the settings of a company as the request gives them, resolves a
    custom company that has neither host nor port into a profile (host
    absent, port NaN) instead of rejecting it, and the send goes on to hand
    a message to the transport with that profile. *)
Lemma custom_without_host_resolves :
  Simple.transporterOptions bareCustom =
    Some (Smtp {| host := None; port := Js.NaN; secure := Some false;
                  auth := {| user := "ops@example.com"; pass := "secret" |};
                  tls := None;
                  connectionTimeout := Some 10000;
                  greetingTimeout := Some 10000;
                  socketTimeout := Some 10000 |})
  /\ exists w' saved sentId o m,
       Simple.send
         (fun tr t m' =>
            inr {| info_messageId := "<1@example.com>";
                   info_response := "250 OK" |})
         (fun tr => true) (fun tr => 0) [bareCompany]
         {| userId := "u1"; ip := "127.0.0.1"; agent := None |}
         simpleHello {| emails := []; trace := [] |}
       = (w', Routes.SendOk saved sentId)
       /\ trace w' = [EvSend (Smtp o) m; EvSave saved true]
       /\ host o = None /\ port o = Js.NaN.
Proof.
  split; [reflexivity |].
  do 5 eexists. split; [vm_compute; reflexivity |].
  repeat split.
Qed.

(** C1, amended: the client-side resolver [getEmailConfig] rejects a
    non-gmail configuration exactly when the domain is empty, the port
    text is empty, or the port does not parse ([parseInt]) to a number in
    1..65535, and otherwise yields exactly that host and port; the two
    server-side builders never reject a custom company and pass its
    stored host and port on ([parseInt]ed by the file-backed server). *)
Theorem custom_resolution :
  (forall d : Client.EmailData,
      Client.emailType d <> Client.Gmail ->
      match Client.getEmailConfig d with
      | inl _ =>
          Client.domain d = "" \/ Client.ed_smtpPort d = ""
          \/ portRejected (Client.ed_smtpPort d)
      | inr cfg =>
          Client.domain d <> "" /\ Client.ed_smtpPort d <> ""
          /\ Client.ec_host cfg = Client.domain d
          /\ Js.parseInt (Client.ed_smtpPort d) = Some (Client.ec_port cfg)
          /\ 1 <= Client.ec_port cfg <= 65535
      end)
  /\ (forall es : EmailSettings,
        type es = "custom" ->
        exists o, Routes.transporterOptions es = Some (Smtp o)
                  /\ host o = smtpHost es /\ port o = smtpPort es)
  /\ (forall es : EmailSettings,
        type es = "custom" ->
        exists o, Simple.transporterOptions es = Some (Smtp o)
                  /\ host o = smtpHost es
                  /\ port o = Js.ofParsed (Js.parseIntValue (smtpPort es))
                  /\ (forall n, smtpPort es = Js.Num n -> port o = Js.Num n)).
Proof.
  split; [| split].
  - intros d Hty. rewrite (getEmailConfig_website d Hty).
    destruct (Js.truthy (Client.domain d)) eqn:Hd; simpl.
    2:{ left. now apply truthy_false_iff. }
    destruct (Js.truthy (Client.ed_smtpPort d)) eqn:Hp; simpl.
    2:{ right; left. now apply truthy_false_iff. }
    unfold portRejected.
    destruct (Js.parseInt (Client.ed_smtpPort d)) as [p|] eqn:Hparse.
    2:{ right; right. exact I. }
    destruct (p <? 1) eqn:Hlo; simpl.
    { right; right. apply Z.ltb_lt in Hlo. now left. }
    destruct (p >? 65535) eqn:Hhi; simpl.
    { right; right. right. apply Z.gtb_lt in Hhi. exact Hhi. }
    apply truthy_true_iff in Hd. apply truthy_true_iff in Hp.
    apply Z.ltb_ge in Hlo.
    assert (p <= 65535) by (rewrite Z.gtb_ltb in Hhi; now apply Z.ltb_ge in Hhi).
    repeat split; auto.
  - intros es H. rewrite (routes_custom es H). eexists. repeat split.
  - intros es H. rewrite (simple_custom es H). eexists.
    split; [reflexivity |]. split; [reflexivity |]. split; [reflexivity |].
    intros n Hn. cbn [port]. now rewrite Hn, parseIntValue_num.
Qed.

(** C3, as the claim states it, fails: with the SSL flag off and port 465
    the route's profile has [secure] false, and with the SSL flag on and
    port 587 the file-backed server's profile has [secure] false, where the
    claim has [useSSL || port == 465], which is true in both cases. *)
Lemma secure_is_not_ssl_or_465 :
  (exists o, Routes.transporterOptions sslOff465 = Some (Smtp o)
             /\ secure o = Some false
             /\ (false || (465 =? 465)) = true)
  /\ (exists o, Simple.transporterOptions sslOn587 = Some (Smtp o)
                /\ secure o = Some false
                /\ tls o = None
                /\ (true || (587 =? 465)) = true).
Proof.
  split; eexists; repeat split.
Qed.

(** C3, amended: for a custom company the profile authenticates with the
    account email and secret on every path; in [routes/emails.js] [secure]
    is the SSL flag alone and [tls.rejectUnauthorized] is the TLS flag; in
    the file-backed server and in [getEmailConfig] [secure] is
    [port == 465] alone and no certificate option is set. *)
Theorem custom_profile_security :
  (forall es : EmailSettings,
      type es = "custom" ->
      exists o, Routes.transporterOptions es = Some (Smtp o)
                /\ secure o = useSSL es
                /\ auth o = {| user := email es; pass := password es |}
                /\ tls o = Some (useTLS es))
  /\ (forall es : EmailSettings,
        type es = "custom" ->
        exists o, Simple.transporterOptions es = Some (Smtp o)
                  /\ (secure o = Some true
                      <-> Js.parseIntValue (smtpPort es) = Some 465)
                  /\ (secure o = Some true \/ secure o = Some false)
                  /\ (forall n, smtpPort es = Js.Num n ->
                      secure o = Some (n =? 465))
                  /\ auth o = {| user := email es; pass := password es |}
                  /\ tls o = None)
  /\ (forall (d : Client.EmailData) (cfg : Client.EmailConfig),
        Client.emailType d <> Client.Gmail ->
        Client.getEmailConfig d = inr cfg ->
        Client.ec_secure cfg = (Client.ec_port cfg =? 465)
        /\ Client.ec_auth cfg = {| user := Client.from d;
                                   pass := Client.ed_password d |}).
Proof.
  split; [| split].
  - intros es H. rewrite (routes_custom es H). eexists. repeat split.
  - intros es H. rewrite (simple_custom es H). eexists.
    split; [reflexivity |]. simpl.
    assert (Hnum : forall n, smtpPort es = Js.Num n ->
                   Some (match Js.parseIntValue (smtpPort es) with
                         | Some p => p =? 465
                         | None => false
                         end) = Some (n =? 465)).
    { intros n Hn. now rewrite Hn, parseIntValue_num. }
    destruct (Js.parseIntValue (smtpPort es)) as [p|].
    + destruct (Z.eqb_spec p 465) as [Heq|Hne].
      * repeat split; auto. now rewrite Heq.
      * repeat split; auto; try discriminate.
        intros [=]. contradiction.
    + repeat split; auto; discriminate.
  - intros d cfg Hty Hcfg. rewrite (getEmailConfig_website d Hty) in Hcfg.
    destruct (negb (Js.truthy (Client.domain d))); [discriminate |].
    destruct (negb (Js.truthy (Client.ed_smtpPort d))); [discriminate |].
    destruct (Js.parseInt (Client.ed_smtpPort d)); [| discriminate].
    destruct ((z <? 1) || (z >? 65535)); [discriminate |].
    injection Hcfg as <-. split; reflexivity.
Qed.

(** ** Templating in the bulk run *)

(** C2 on the code.  With the token twice in the subject, the message and
    the two records that the bulk loop builds for a recipient keep the
    second token in the subject ([subject.replace('{name}', ...)] has a
    string pattern), while html and text, which use [/{name}/g], have both
    replaced.  And the request that carries these templates is answered
    500 before the loop: [nodemailer.createTransporter] is not a function,
    so that no message is sent and no record is written at all. *)
Theorem subject_keeps_later_tokens :
  let r := {| Routes.r_email := "a@x.com"; Routes.r_name := Some "A" |} in
  let subject := "Hi {name}, welcome {name}!" in
  let html := "<p>Hello {name}</p><p>Bye {name}</p>" in
  let text := Some "Hello {name}. Bye {name}." in
  let m := Routes.bulkMailOptions acme subject html text r in
  let e := Routes.bulkRecord alice acmeId subject html text None r in
  let f := Routes.bulkFailedRecord alice acmeId subject html text None r
             Routes.notAFunction in
  mo_subject m = "Hi A, welcome {name}!"
  /\ e_subject e = "Hi A, welcome {name}!"
  /\ e_subject f = "Hi A, welcome {name}!"
  /\ mo_html m = "<p>Hello A</p><p>Bye A</p>"
  /\ e_htmlContent e = "<p>Hello A</p><p>Bye A</p>"
  /\ mo_text m = Some "Hello A. Bye A."
  /\ e_textContent e = Some "Hello A. Bye A."
  /\ Routes.b_subject twoTokenBody = Some subject
  /\ Routes.sendBulk objectId castFailure acceptAll alwaysSaved stillClock
       [acme] alice twoTokenBody emptyWorld
     = (emptyWorld,
        Routes.BulkError 500 "Failed to send bulk emails"
          (Some "nodemailer.createTransporter is not a function")).
Proof. cbv zeta. repeat split. Qed.

(** The replacement text is read as a replacement pattern: a name that
    holds [$&] brings the token back. *)
Example name_with_dollar_pattern :
  Routes.htmlFor "<p>Hello {name}</p>"
    {| Routes.r_email := "a@x.com"; Routes.r_name := Some "A$&" |}
  = "<p>Hello A{name}</p>".
Proof. reflexivity. Qed.

(** *** Templating, in general *)

Lemma getSubstitution_plain (matched before after repl : string) :
  hasDollar repl = false ->
  Js.getSubstitution matched before after repl = repl.
Proof.
  induction repl as [|c repl IH]; simpl; [reflexivity |].
  destruct (Ascii.eqb c "$"); simpl; [discriminate |].
  intros H. now rewrite IH.
Qed.

Lemma replaceFrom_before (global : bool) (tok repl : string) (s : string) :
  hasDollar repl = false ->
  forall (b1 b2 : string) (skip : nat) (active : bool),
    Js.replaceFrom global tok repl b1 skip active s
    = Js.replaceFrom global tok repl b2 skip active s.
Proof.
  intros Hplain. induction s as [|c s IH]; intros b1 b2 skip active;
    cbn [Js.replaceFrom]; [reflexivity |].
  destruct skip as [|k]; [| apply IH].
  destruct (active && String.prefix tok (String c s)).
  - rewrite !getSubstitution_plain by assumption. f_equal. apply IH.
  - f_equal. apply IH.
Qed.

Lemma replaceFrom_skip (global : bool) (tok repl : string) :
  hasDollar repl = false ->
  forall (k : nat) (s before : string) (active : bool),
    Js.replaceFrom global tok repl before k active s
    = Js.replaceFrom global tok repl before O active (Js.drop k s).
Proof.
  intros Hplain. induction k as [|k IH]; intros s before active.
  - destruct s; reflexivity.
  - destruct s as [|c s]; [reflexivity |]. simpl Js.drop.
    cbn [Js.replaceFrom]. rewrite IH.
    now apply replaceFrom_before.
Qed.

Lemma replaceFrom_inactive (global : bool) (tok repl : string) (s : string) :
  forall before : string,
    Js.replaceFrom global tok repl before O false s = s.
Proof.
  induction s as [|c s IH]; intros before; cbn [Js.replaceFrom andb];
    [reflexivity |].
  now rewrite IH.
Qed.

Lemma drop_length_le (k : nat) (s : string) :
  (String.length (Js.drop k s) <= String.length s)%nat.
Proof.
  revert s; induction k as [|k IH]; intros [|c s]; simpl; try lia.
  specialize (IH s). lia.
Qed.

Lemma replaceAll_substituted (tok name : string) :
  tok <> "" -> hasDollar name = false ->
  forall s : string, Substituted tok name s (Js.replaceAll tok name s).
Proof.
  intros Htok Hplain s. unfold Js.replaceAll.
  remember (String.length s) as n eqn:Hn.
  assert (Hle : (String.length s <= n)%nat) by lia. clear Hn.
  revert s Hle. induction n as [|n IH]; intros s Hle.
  - destruct s; [constructor | simpl in Hle; lia].
  - destruct s as [|c s]; [constructor |].
    cbn [Js.replaceFrom andb].
    destruct (String.prefix tok (String c s)) eqn:Hpre.
    + rewrite getSubstitution_plain by assumption.
      rewrite replaceFrom_skip by assumption.
      rewrite (replaceFrom_before true tok name _ Hplain _ "" O true).
      apply subst_token; [exact Hpre |].
      destruct tok as [|t tok]; [congruence |].
      replace (String.length (String t tok) - 1)%nat
        with (String.length tok) by (simpl; lia).
      cbn [String.length Js.drop].
      apply IH. pose proof (drop_length_le (String.length tok) s).
      simpl in Hle. lia.
    + rewrite (replaceFrom_before true tok name _ Hplain _ "" O true).
      apply subst_char; [exact Hpre |].
      apply IH. simpl in Hle. lia.
Qed.

Lemma replaceFirst_substituted (tok name : string) :
  tok <> "" -> hasDollar name = false ->
  forall s : string, SubstitutedFirst tok name s (Js.replaceFirst tok name s).
Proof.
  intros Htok Hplain s. unfold Js.replaceFirst.
  induction s as [|c s IH]; [constructor |].
  cbn [Js.replaceFrom andb].
  destruct (String.prefix tok (String c s)) eqn:Hpre.
  - rewrite getSubstitution_plain by assumption.
    rewrite replaceFrom_skip by assumption.
    rewrite replaceFrom_inactive.
    destruct tok as [|t tok]; [congruence |].
    replace (String.length (String t tok) - 1)%nat
      with (String.length tok) by (simpl; lia).
    change (Js.drop (String.length tok) s)
      with (Js.drop (String.length (String t tok)) (String c s)).
    now apply first_token.
  - rewrite (replaceFrom_before false tok name _ Hplain _ "" O true).
    now apply first_char.
Qed.

(** What the bulk loop does to the templates for a recipient whose name
    holds no dollar sign: in the html, and in the text when there is a
    text template, every occurrence of the token is replaced by the name;
    without a text template the text part is the html template with its
    tags stripped; in the subject only the first occurrence is replaced. *)
Lemma bulk_templating (c : Company) (subject html : string)
    (text : option string) (r : Routes.Recipient) :
  hasDollar (Js.or_else (Routes.r_name r) "") = false ->
  Substituted Routes.nameToken (Js.or_else (Routes.r_name r) "") html
    (mo_html (Routes.bulkMailOptions c subject html text r))
  /\ SubstitutedFirst Routes.nameToken (Js.or_else (Routes.r_name r) "")
       subject (mo_subject (Routes.bulkMailOptions c subject html text r))
  /\ (forall t, text = Some t -> t <> "" ->
      exists out,
        mo_text (Routes.bulkMailOptions c subject html text r) = Some out
        /\ Substituted Routes.nameToken (Js.or_else (Routes.r_name r) "")
             t out)
  /\ (Js.truthy_opt text = false ->
      mo_text (Routes.bulkMailOptions c subject html text r)
      = Some (Js.stripTags html)).
Proof.
  intros Hplain.
  assert (Htok : Routes.nameToken <> "") by discriminate.
  split; [apply replaceAll_substituted; assumption |].
  split; [apply replaceFirst_substituted; assumption |].
  split.
  - intros t -> Ht. unfold Routes.bulkMailOptions, Routes.textFor.
    cbn [mo_text Js.truthy_opt Js.or_else].
    apply truthy_true_iff in Ht. rewrite Ht.
    eexists. split; [reflexivity |].
    apply replaceAll_substituted; assumption.
  - intros Ht. unfold Routes.bulkMailOptions, Routes.textFor.
    cbn [mo_text]. now rewrite Ht.
Qed.

(** The templates with the token twice, for the recipient named A. *)
Lemma bulk_templating_witness :
  Substituted Routes.nameToken "A" "<p>Hello {name}</p><p>Bye {name}</p>"
    "<p>Hello A</p><p>Bye A</p>"
  /\ SubstitutedFirst Routes.nameToken "A" "Hi {name}, welcome {name}!"
       "Hi A, welcome {name}!".
Proof.
  destruct (bulk_templating acme "Hi {name}, welcome {name}!"
              "<p>Hello {name}</p><p>Bye {name}</p>" None
              {| Routes.r_email := "a@x.com"; Routes.r_name := Some "A" |}
              eq_refl) as (Hhtml & Hsubject & _).
  split; [exact Hhtml | exact Hsubject].
Defined.

(** ** Email history *)

Lemma insert_sorted_perm {A : Type} (before : A -> A -> bool) (x : A)
    (l : list A) :
  Permutation (insert_sorted before x l) (x :: l).
Proof.
  induction l as [|y l IH]; simpl.
  - apply Permutation_refl.
  - destruct (before x y).
    + apply Permutation_refl.
    + eapply Permutation_trans; [apply perm_skip, IH | apply perm_swap].
Qed.

Lemma sort_stable_perm {A : Type} (before : A -> A -> bool) (l : list A) :
  Permutation (sort_stable before l) l.
Proof.
  induction l as [|x l IH]; simpl.
  - apply perm_nil.
  - eapply Permutation_trans; [apply insert_sorted_perm |].
    now apply perm_skip.
Qed.

















(** ** The bulk run *)

Lemma sent_record_invariant (e : Email) (now t : Z) (info : SendInfo) :
  errorMessage e = None ->
  recordInvariant (Routes.stamped (Routes.markSent e now info) t).
Proof.
  intros He. unfold recordInvariant; simpl. rewrite He.
  repeat split; auto; try discriminate; try congruence.
Qed.

Lemma failed_record_invariant (cl : Caller)
    (companyId to subject html : string) (text campaign : option string)
    (msg : string) (t : Z) :
  recordInvariant
    (Routes.stamped
       (Routes.newEmail cl companyId to subject html text (Some "failed")
          (Some msg) campaign) t).
Proof.
  unfold recordInvariant; simpl.
  repeat split; auto; try discriminate; try congruence.
Qed.

Lemma steps_app (a b : list Event) : steps (a ++ b) = (steps a ++ steps b)%list.
Proof. unfold steps. apply flat_map_app. Qed.

Lemma count_send_app (a b : list Event) :
  List.length (filter isSendEvent (a ++ b))
  = (List.length (filter isSendEvent a)
     + List.length (filter isSendEvent b))%nat.
Proof. now rewrite filter_app, length_app. Qed.

Section BulkFacts.

Variable sendMail :
  list Event -> TransportOptions -> MailOptions -> JsError + SendInfo.
Variable saveError : list Event -> Email -> option JsError.
Variable clock : list Event -> Z.
Variable companies : list Company.

Variable cl : Caller.
Variable company : Company.
Variable transporter : TransportOptions.
Variable companyId subject html : string.
Variable text campaign : option string.

Abbreviation turn := (Routes.bulkTurn sendMail saveError clock cl company
                    transporter companyId subject html text campaign).

Lemma bulkTurn_spec (r : Routes.Recipient) (w : World) (res : Routes.Results) :
  match turn r w res with
  | (w', inr res') => turnDone subject r w res w' res'
  | (w', inl _) => turnAborted r w w'
  end.
Proof.
  unfold turnDone, turnAborted, Routes.bulkTurn, Routes.dispatch, Routes.save.
  destruct (sendMail (trace w) transporter
              (Routes.bulkMailOptions company subject html text r))
    as [err|info]; cbn [trace emails record_event].
  - (* the transport refuses: the failed record is written *)
    match goal with
    | |- context [saveError ?tr ?e] => destruct (saveError tr e) as [err'|] eqn:Hs
    end; cbn [trace emails record_event].
    + eexists. rewrite <- app_assoc. split; [reflexivity |].
      repeat split.
    + do 3 eexists. rewrite <- app_assoc.
      split; [reflexivity |]. split; [reflexivity |].
      cbn [Routes.outcomes Routes.sent Routes.failed].
      split; [reflexivity |]. split; [reflexivity |].
      split; [split; reflexivity |].
      split; [apply failed_record_invariant |].
      split; [reflexivity |].
      split; [right; repeat split |].
      split; reflexivity.
  - (* the transport accepts *)
    match goal with
    | |- context [saveError ?tr ?e] => destruct (saveError tr e) as [err'|] eqn:Hs
    end; cbn [trace emails record_event].
    + (* the sent record is refused: the failed record is written *)
      match goal with
      | |- context [saveError ?tr ?e] =>
          destruct (saveError tr e) as [err''|] eqn:Hs'
      end; cbn [trace emails record_event].
      * eexists. rewrite <- !app_assoc. split; [reflexivity |].
        repeat split.
      * do 3 eexists. rewrite <- !app_assoc.
        split; [reflexivity |]. split; [reflexivity |].
        cbn [Routes.outcomes Routes.sent Routes.failed].
        split; [reflexivity |]. split; [reflexivity |].
        split; [split; reflexivity |].
        split; [apply failed_record_invariant |].
        split; [reflexivity |].
        split; [right; repeat split |].
        split; reflexivity.
    + do 3 eexists. rewrite <- app_assoc.
      split; [reflexivity |]. split; [reflexivity |].
      cbn [Routes.outcomes Routes.sent Routes.failed].
      split; [reflexivity |]. split; [reflexivity |].
      split; [split; reflexivity |].
      split; [apply sent_record_invariant; reflexivity |].
      split; [reflexivity |].
      split; [left; repeat split |].
      split; reflexivity.
Qed.

Variable delay : Z.
Variable n : nat.

Abbreviation loop := (Routes.bulkLoop sendMail saveError clock cl company
                        transporter companyId subject html text campaign
                        delay n).

Lemma pause_or_not (i : nat) (rest' : list Routes.Recipient) (w3 : World) :
  (i + S (List.length rest') = n)%nat ->
  exists dl,
    trace (if Z.of_nat i <? Z.of_nat n - 1
           then Routes.pause w3 delay else w3) = (trace w3 ++ dl)%list
    /\ emails (if Z.of_nat i <? Z.of_nat n - 1
               then Routes.pause w3 delay else w3) = emails w3
    /\ steps dl = match rest' with [] => [] | _ :: _ => [StDelay delay] end
    /\ filter isSendEvent dl = [].
Proof.
  intros Hn. destruct rest' as [|r' rest'].
  - simpl in Hn.
    assert (H : (Z.of_nat i <? Z.of_nat n - 1) = false)
      by (apply Z.ltb_ge; lia).
    rewrite H. exists []. rewrite app_nil_r. repeat split.
  - simpl in Hn.
    assert (H : (Z.of_nat i <? Z.of_nat n - 1) = true)
      by (apply Z.ltb_lt; lia).
    rewrite H. exists [EvDelay delay]. repeat split.
Qed.

Lemma count_cons (s : string) (o : Routes.Outcome)
    (outs : list Routes.Outcome) :
  countOutcomes s (o :: outs)
  = ((if (Routes.o_status o =? s)%string then 1 else 0)
     + countOutcomes s outs)%nat.
Proof.
  unfold countOutcomes. simpl.
  destruct (Routes.o_status o =? s)%string; reflexivity.
Qed.

Lemma bulkLoop_spec (rest : list Routes.Recipient) :
  forall (i : nat) (w : World) (res : Routes.Results),
    (i + List.length rest = n)%nat ->
    match loop i rest w res with
    | (w', inr res') => loopDone delay rest w res w' res'
    | (w', inl _) => loopAborted delay rest w w'
    end.
Proof.
  induction rest as [|r rest' IH]; intros i w res Hn.
  - simpl. exists [], [], []. rewrite !app_nil_r. simpl.
    repeat split; auto; unfold countOutcomes; simpl; lia.
  - cbn [Routes.bulkLoop].
    pose proof (bulkTurn_spec r w res) as Hturn.
    destruct (turn r w res) as [w3 [err|res3]].
    + destruct Hturn as (evs & Htr & Hem & Hst & Hsend).
      exists evs, [], 1%nat. rewrite app_nil_r.
      split; [exact Htr |]. split; [exact Hem |]. split; [constructor |].
      split; [rewrite Hsend; simpl; lia |].
      split; [simpl; lia |].
      rewrite Hst. reflexivity.
    + destruct Hturn
        as (evs & e & o & Htr & Hem & Hout & Hto & Hentry & Hinv & _
            & Hcount & Hsteps & Hsend).
      cbn [List.length] in Hn.
      destruct (pause_or_not i rest' w3 Hn) as (dl & Hdtr & Hdem & Hdsteps & Hdsend).
      assert (Hn' : (S i + List.length rest' = n)%nat) by lia.
      specialize (IH (S i)
                    (if Z.of_nat i <? Z.of_nat n - 1
                     then Routes.pause w3 delay else w3) res3 Hn').
      destruct (loop (S i) rest'
                  (if Z.of_nat i <? Z.of_nat n - 1
                   then Routes.pause w3 delay else w3) res3)
        as [w' [err|res']].
      * destruct IH as (evs2 & news2 & k & Htr2 & Hem2 & Hinv2 & Hlt & Hk & Hpace).
        exists (evs ++ dl ++ evs2)%list, (e :: news2), (S k).
        split; [rewrite Htr2, Hdtr, Htr; now rewrite <- !app_assoc |].
        split; [rewrite Hem2, Hdem, Hem; now rewrite <- app_assoc |].
        split; [now constructor |].
        split; [rewrite !count_send_app, Hsend, Hdsend; simpl; lia |].
        split; [simpl; lia |].
        rewrite !steps_app, Hsteps, Hdsteps.
        destruct rest' as [|r' rest'']; [simpl in Hk; lia |].
        destruct k as [|k]; [lia |].
        unfold pacing in *. rewrite !filter_app, Hpace. reflexivity.
      * destruct IH
          as (evs2 & news2 & outs2 & Htr2 & Hem2 & Hout2 & Hto2 & Hent2
              & Hinv2 & Hs2 & Hf2 & Hsum2 & Hsteps2 & Hsend2).
        exists (evs ++ dl ++ evs2)%list, (e :: news2), (o :: outs2).
        split; [rewrite Htr2, Hdtr, Htr; now rewrite <- !app_assoc |].
        split; [rewrite Hem2, Hdem, Hem; now rewrite <- app_assoc |].
        split; [rewrite Hout2, Hout; now rewrite <- app_assoc |].
        split; [simpl; now rewrite Hto, Hto2 |].
        split; [now constructor |].
        split; [now constructor |].
        rewrite !count_cons.
        assert (Hcs :
          (Routes.sent res'
           = Routes.sent res
             + ((if (Routes.o_status o =? "sent")%string then 1 else 0)
                + countOutcomes "sent" outs2)
           /\ Routes.failed res'
              = Routes.failed res
                + ((if (Routes.o_status o =? "failed")%string then 1 else 0)
                   + countOutcomes "failed" outs2))%nat).
        { destruct Hcount as [(Hst & Hs3 & Hf3) | (Hst & Hs3 & Hf3)];
            rewrite Hst; simpl; lia. }
        destruct Hcs as [Hcs Hcf].
        split; [exact Hcs |]. split; [exact Hcf |].
        split.
        { destruct Hcount as [(Hst & Hs3 & Hf3) | (Hst & Hs3 & Hf3)];
            simpl; lia. }
        split.
        { rewrite !steps_app, Hsteps, Hdsteps, Hsteps2.
          cbn [expectedSteps]. reflexivity. }
        rewrite !count_send_app, Hsend, Hdsend, Hsend2. simpl. lia.
Qed.

End BulkFacts.

Lemma pacing_expected (delay : Z) (rs : list Routes.Recipient) :
  forall outs : list Routes.Outcome,
    List.length outs = List.length rs ->
    pacing (expectedSteps delay rs outs)
    = interleaved delay (map Routes.r_email rs).
Proof.
  induction rs as [|r rs IH]; intros [|o outs] Hlen; simpl in *;
    try reflexivity; try discriminate.
  injection Hlen as Hlen. unfold pacing in *. f_equal.
  destruct rs as [|r' rs]; simpl.
  - destruct outs; reflexivity.
  - f_equal. specialize (IH outs Hlen). simpl in IH. exact IH.
Qed.

Lemma pauses_expected (delay : Z) (rs : list Routes.Recipient) :
  forall outs : list Routes.Outcome,
    List.length outs = List.length rs ->
    List.length (filter isDelay (expectedSteps delay rs outs))
    = (List.length rs - 1)%nat.
Proof.
  induction rs as [|r rs IH]; intros [|o outs] Hlen; simpl in *;
    try reflexivity; try discriminate.
  injection Hlen as Hlen.
  destruct rs as [|r' rs].
  - destruct outs; reflexivity.
  - specialize (IH outs Hlen). simpl in *. rewrite IH. lia.
Qed.

Section BulkRoute.

Variable validId : string -> bool.
Variable castMessage : string -> string.
Variable sendMail :
  list Event -> TransportOptions -> MailOptions -> JsError + SendInfo.
Variable saveError : list Event -> Email -> option JsError.
Variable clock : list Event -> Z.
Variable companies : list Company.

Abbreviation sendBulk :=
  (Routes.sendBulk validId castMessage sendMail saveError clock companies).

(** A request that passes the checks ends where the transporter is
    built. *)
Lemma sendBulk_accepted (cl : Caller) (body : Routes.BulkBody) (w : World)
    (rs : list Routes.Recipient) (company : Company)
    (options : TransportOptions) :
  bulkAccepted validId castMessage companies cl body rs company options ->
  sendBulk cl body w
  = (w, Routes.BulkError 500 "Failed to send bulk emails"
          (Some (message Routes.notAFunction))).
Proof.
  intros (Hrs & Hne & Hcid & Hsub & Hhtml & Hco & Htr).
  unfold Routes.sendBulk. rewrite Hrs, Hcid, Hsub, Hhtml.
  destruct rs as [|r rs]; [congruence |].
  cbn [negb orb List.length Nat.eqb]. rewrite Hco, Htr. reflexivity.
Qed.


(** Whatever the request, the route answers with an error and leaves the
    world as it is. *)
Lemma sendBulk_quiet (cl : Caller) (body : Routes.BulkBody) (w : World) :
  exists st err details,
    sendBulk cl body w = (w, Routes.BulkError st err details).
Proof.
  unfold Routes.sendBulk.
  destruct (Routes.b_recipients body) as [rs|]; [| now do 3 eexists].
  destruct (negb _ || _); [now do 3 eexists |].
  destruct (negb _ || negb _); [now do 3 eexists |].
  destruct (Routes.findCompany _ _ _ _ _) as [error|[company|]];
    [now do 3 eexists | | now do 3 eexists].
  destruct (Routes.transporterOptions _); now do 3 eexists.
Qed.



End BulkRoute.

Section Claims.

Variable validId : string -> bool.
Variable castMessage : string -> string.
Variable sendMail :
  list Event -> TransportOptions -> MailOptions -> JsError + SendInfo.
Variable saveError : list Event -> Email -> option JsError.
Variable clock : list Event -> Z.
Variable companies : list Company.

Abbreviation bulkRoute :=
  (Routes.sendBulk validId castMessage sendMail saveError clock companies).

Section Loop.

Variable cl : Caller.
Variable company : Company.
Variable transporter : TransportOptions.
Variable companyId subject html : string.
Variable text campaign : option string.
Variable delay : Z.

(** The recipient loop of [/send-bulk], entered with [transporter] for the
    recipients [rs]. *)
Abbreviation run rs w :=
  (Routes.bulkLoop sendMail saveError clock cl company transporter companyId
     subject html text campaign delay (List.length rs) O rs w noResults).

Lemma run_spec (rs : list Routes.Recipient) (w : World) :
  match run rs w with
  | (w', inr res) => loopDone delay rs w noResults w' res
  | (w', inl _) => loopAborted delay rs w w'
  end.
Proof.
  exact (bulkLoop_spec sendMail saveError clock cl company transporter
           companyId subject html text campaign delay (List.length rs) rs O w
           noResults eq_refl).
Qed.

Lemma run_done (rs : list Routes.Recipient) (w w' : World)
    (res : Routes.Results) :
  run rs w = (w', inr res) -> loopDone delay rs w noResults w' res.
Proof.
  intros Hrun. pose proof (run_spec rs w) as H. now rewrite Hrun in H.
Qed.


(** The recipient loop of [/send-bulk] sends to the recipients one after
    the other in input order, with a pause of the delay between
    consecutive sends and nowhere else: whatever the transport and the
    ledger answer, the sends and pauses of a run of the loop are those of
    a non-empty prefix of the recipient list, and in a run that completes
    it is the whole list, with [n - 1] pauses in all and none after the
    last send. *)
Theorem bulk_loop_pacing (rs : list Routes.Recipient) (w : World) :
  rs <> [] ->
  (exists evs k,
      trace (fst (run rs w)) = (trace w ++ evs)%list
      /\ (1 <= k <= List.length rs)%nat
      /\ pacing (steps evs)
         = interleaved delay (firstn k (map Routes.r_email rs)))
  /\ (forall w' res,
        run rs w = (w', inr res) -> bulkPaced delay w w' rs).
Proof.
  intros Hne. split.
  - pose proof (run_spec rs w) as Hloop.
    destruct (run rs w) as [w1 [err|res1]]; cbn [fst].
    + destruct Hloop as (evs & news & k & Htr & _ & _ & _ & Hk & Hpace).
      now exists evs, k.
    + destruct Hloop
        as (evs & news & outs & Htr & _ & _ & Hto & _ & _ & _ & _ & _
            & Hsteps & _).
      assert (Hlen : List.length outs = List.length rs).
      { rewrite <- (length_map Routes.o_to outs), Hto. apply length_map. }
      exists evs, (List.length rs). split; [exact Htr |].
      split.
      * destruct rs; [congruence | simpl; lia].
      * rewrite Hsteps, (pacing_expected _ _ _ Hlen).
        rewrite <- (length_map Routes.r_email rs).
        now rewrite firstn_all.
  - intros w' res Hrun.
    destruct (run_done rs w w' res Hrun)
      as (evs & news & outs & Htr & _ & _ & Hto & _ & _ & _ & _ & _ & Hsteps
          & _).
    assert (Hlen : List.length outs = List.length rs).
    { rewrite <- (length_map Routes.o_to outs), Hto. apply length_map. }
    exists evs. split; [exact Htr |]. rewrite Hsteps. split.
    + now apply pacing_expected.
    + now apply pauses_expected.
Qed.


End Loop.

(** C5 on the code: the route never starts its run.  Whatever the request,
    [/send-bulk] answers with an error and leaves the world as it is: no
    message is handed to the transport, no pause is made and no record is
    written.  A request that passes every check, which the claim has
    processed recipient by recipient, is answered 500 'Failed to send bulk
    emails' where the transporter is built, because
    [nodemailer.createTransporter] is not a function; so is the request
    for the two recipients of [mixedBody]. *)
Theorem bulk_run_never_starts (cl : Caller) (body : Routes.BulkBody)
    (w : World) :
  (exists st err details,
      bulkRoute cl body w = (w, Routes.BulkError st err details))
  /\ (forall rs company options,
        bulkAccepted validId castMessage companies cl body rs company
          options ->
        bulkRoute cl body w
        = (w, Routes.BulkError 500 "Failed to send bulk emails"
                (Some "nodemailer.createTransporter is not a function")))
  /\ Routes.sendBulk objectId castFailure rejectBad alwaysSaved stillClock
       [acme] alice mixedBody emptyWorld
     = (emptyWorld,
        Routes.BulkError 500 "Failed to send bulk emails"
          (Some "nodemailer.createTransporter is not a function")).
Proof.
  split; [apply sendBulk_quiet |]. split; [| reflexivity].
  intros rs company options Hacc.
  apply (sendBulk_accepted validId castMessage sendMail saveError clock
           companies cl body w rs company options Hacc).
Qed.

End Claims.



(** The pacing of that run of the loop. *)
Lemma bulk_loop_pacing_witness :
  exists evs k,
    trace (fst (Routes.bulkLoop rejectBad alwaysSaved stillClock alice acme
                  acmeTransport acmeId "Hi {name}" "<p>Hello {name}</p>" None
                  (Some "spring") 1000 2 O twoRecipients emptyWorld noResults))
    = (trace emptyWorld ++ evs)%list
    /\ (1 <= k <= 2)%nat
    /\ pacing (steps evs)
       = interleaved 1000 (firstn k (map Routes.r_email twoRecipients)).
Proof.
  apply (bulk_loop_pacing rejectBad alwaysSaved stillClock alice acme
           acmeTransport acmeId "Hi {name}" "<p>Hello {name}</p>" None
           (Some "spring") 1000 twoRecipients emptyWorld).
  discriminate.
Defined.

(** ** Ledger records after a send attempt *)

Section LedgerFacts.

Variable validId : string -> bool.
Variable castMessage : string -> string.
Variable sendMail :
  list Event -> TransportOptions -> MailOptions -> JsError + SendInfo.
Variable saveError : list Event -> Email -> option JsError.
Variable writeOk : list Event -> bool.
Variable clock : list Event -> Z.
Variable companies : list Company.



(** A single send of [routes/emails.js] that passes the checks, finds
    its company and builds the options of a transporter ends with the
    ReferenceError of its [catch] block, whether the transport would
    accept the message or refuse it: no response is given, no record is
    written and nothing is handed to the transport. *)
Lemma send_failure_unhandled (cl : Caller) (body : Routes.SendBody)
    (w : World) (company : Company) (t : TransportOptions) :
  Js.truthy_opt (Routes.s_companyId body) = true ->
  Js.truthy_opt (Routes.s_to body) = true ->
  Js.truthy_opt (Routes.s_subject body) = true ->
  Js.truthy_opt (Routes.s_htmlContent body) = true ->
  Routes.findCompany validId castMessage companies
    (Js.or_else (Routes.s_companyId body) "") (userId cl)
  = inr (Some company) ->
  Routes.transporterOptions (emailSettings company) = Some t ->
  Routes.send validId castMessage sendMail saveError clock companies cl
    body w
  = (w, Routes.SendUnhandled
          {| code := None; message := "emailRecord is not defined" |}).
Proof.
  intros Hc Hto Hs Hh Hco Ht.
  unfold Routes.send. rewrite Hc, Hto, Hs, Hh. cbn [negb orb].
  rewrite Hco, Ht. reflexivity.
Qed.

End LedgerFacts.



(** The send ends without a response. *)
Lemma send_failure_unhandled_witness :
  Routes.send objectId castFailure refuseAll alwaysSaved stillClock [acme]
    alice helloSend emptyWorld
  = (emptyWorld,
     Routes.SendUnhandled
       {| code := None; message := "emailRecord is not defined" |}).
Proof.
  apply (send_failure_unhandled objectId castFailure refuseAll alwaysSaved
           stillClock [acme] alice helloSend emptyWorld acme acmeTransport);
    reflexivity.
Defined.

(** ** The file-backed email log of [emailServer.js] *)

Lemma countStatus_app (s : string) (a b : list EmailServer.LogEntry) :
  EmailServer.countStatus s (a ++ b)
  = EmailServer.countStatus s a + EmailServer.countStatus s b.
Proof.
  unfold EmailServer.countStatus. rewrite filter_app, length_app. lia.
Qed.

Section LogStore.

Variable cleanInput : string -> string.
Variable cleanContent : string -> string.
Variable clock : nat -> Z.
Variable randomHex : nat -> string.
Variable writeOk : nat -> bool.

Abbreviation logEmailAttempt :=
  (EmailServer.logEmailAttempt cleanInput cleanContent clock randomHex writeOk).
Abbreviation updateLogStatus :=
  (EmailServer.updateLogStatus cleanInput clock writeOk).
Abbreviation updateFound := (EmailServer.updateFound cleanInput).

Lemma updateFound_length (logId status : string)
    (messageId error : option string) (l : list EmailServer.LogEntry) :
  List.length (updateFound logId status messageId error l) = List.length l.
Proof.
  induction l as [|e l IH]; simpl; [reflexivity |].
  destruct (EmailServer.id e =? logId)%string; simpl; congruence.
Qed.

Lemma updateFound_idempotent (logId status : string)
    (messageId error : option string) (l : list EmailServer.LogEntry) :
  updateFound logId status messageId error
    (updateFound logId status messageId error l)
  = updateFound logId status messageId error l.
Proof.
  induction l as [|e l IH]; simpl; [reflexivity |].
  destruct (EmailServer.id e =? logId)%string eqn:He; simpl; rewrite He.
  - f_equal. unfold EmailServer.finalized; simpl.
    destruct (Js.truthy_opt messageId), (Js.truthy_opt error); reflexivity.
  - now rewrite IH.
Qed.

Lemma updateFound_in (logId status : string)
    (messageId error : option string) (l : list EmailServer.LogEntry)
    (e0 : EmailServer.LogEntry) :
  find (fun log => (EmailServer.id log =? logId)%string) l = Some e0 ->
  In (EmailServer.finalized cleanInput e0 status messageId error)
     (updateFound logId status messageId error l).
Proof.
  induction l as [|e l IH]; simpl; [discriminate |].
  destruct (EmailServer.id e =? logId)%string.
  - intros [= ->]. now left.
  - intros H. right. now apply IH.
Qed.

Lemma saveLogs_file (d : EmailServer.Disk) (x : EmailServer.LogsData) :
  EmailServer.file (fst (EmailServer.saveLogs clock writeOk d x))
  = EmailServer.file d
  \/ EmailServer.file (fst (EmailServer.saveLogs clock writeOk d x))
     = EmailServer.Stored
         {| EmailServer.lastUpdated := clock (EmailServer.tick d);
            EmailServer.totalEmails := EmailServer.totalEmails x;
            EmailServer.successfulEmails := EmailServer.successfulEmails x;
            EmailServer.failedEmails := EmailServer.failedEmails x;
            EmailServer.pendingEmails := EmailServer.pendingEmails x;
            EmailServer.logs := EmailServer.logs x |}.
Proof.
  unfold EmailServer.saveLogs. destruct (writeOk (EmailServer.tick d)); simpl.
  - now right.
  - now left.
Qed.

Lemma loadLogs_consistent (d : EmailServer.Disk) (x : EmailServer.LogsData) :
  fileConsistent (EmailServer.file d) ->
  EmailServer.loadLogs clock d = Some x -> consistent x.
Proof.
  unfold EmailServer.loadLogs. destruct (EmailServer.file d); simpl.
  - intros _ [= <-]. repeat split.
  - discriminate.
  - intros H [= <-]. exact H.
Qed.

Lemma logEmailAttempt_consistent (cfg : option EmailServer.EmailConfigBody)
    (data : option EmailServer.EmailDataBody) (d : EmailServer.Disk) :
  fileConsistent (EmailServer.file d) ->
  fileConsistent (EmailServer.file (fst (logEmailAttempt cfg data d))).
Proof.
  intros Hd. unfold EmailServer.logEmailAttempt.
  destruct cfg as [cfg|]; [| exact Hd].
  destruct data as [data|]; [| exact Hd].
  destruct (EmailServer.loadLogs clock d) as [x|] eqn:Hload; [| exact Hd].
  pose proof (loadLogs_consistent d x Hd Hload) as Hx.
  destruct x as [lu tot suc fai pen lg].
  destruct Hx as (Ht & Hp & Hs & Hf). simpl in Ht, Hp, Hs, Hf.
  match goal with
  | |- context [EmailServer.saveLogs clock writeOk d ?y] =>
      pose proof (saveLogs_file d y) as Hsave;
      destruct (EmailServer.saveLogs clock writeOk d y) as [d' [err|]]
  end; cbn [fst] in *.
  - destruct Hsave as [-> | ->]; [exact Hd |].
    unfold fileConsistent, consistent.
    cbn [EmailServer.totalEmails EmailServer.pendingEmails
         EmailServer.successfulEmails EmailServer.failedEmails
         EmailServer.logs].
    split; [reflexivity |]. split; [reflexivity |].
    rewrite !countStatus_app, Hs, Hf.
    split; unfold EmailServer.countStatus; simpl; lia.
  - destruct Hsave as [-> | ->]; [exact Hd |].
    unfold fileConsistent, consistent.
    cbn [EmailServer.totalEmails EmailServer.pendingEmails
         EmailServer.successfulEmails EmailServer.failedEmails
         EmailServer.logs].
    split; [reflexivity |]. split; [reflexivity |].
    rewrite !countStatus_app, Hs, Hf.
    split; unfold EmailServer.countStatus; simpl; lia.
Qed.

Lemma updateLogStatus_consistent (logId status : string)
    (messageId error : option string) (d : EmailServer.Disk) :
  fileConsistent (EmailServer.file d) ->
  fileConsistent
    (EmailServer.file (fst (updateLogStatus logId status messageId error d))).
Proof.
  intros Hd. unfold EmailServer.updateLogStatus.
  destruct (EmailServer.loadLogs clock d) as [x|] eqn:Hload; [| exact Hd].
  pose proof (loadLogs_consistent d x Hd Hload) as Hx.
  destruct x as [lu tot suc fai pen lg].
  destruct Hx as (Ht & Hp & Hs & Hf). simpl in Ht, Hp, Hs, Hf.
  cbn [EmailServer.logs].
  destruct (find _ lg); [| exact Hd].
  match goal with
  | |- context [EmailServer.saveLogs clock writeOk d ?y] =>
      destruct (saveLogs_file d y) as [-> | ->]
  end; [exact Hd |].
  unfold fileConsistent, consistent.
  cbn [EmailServer.totalEmails EmailServer.pendingEmails
       EmailServer.successfulEmails EmailServer.failedEmails
       EmailServer.logs].
  rewrite updateFound_length.
  repeat split; auto.
Qed.

Lemma updateLogStatus_length (logId status : string)
    (messageId error : option string) (d : EmailServer.Disk) :
  List.length
    (storedLogs (fst (updateLogStatus logId status messageId error d)))
  = List.length (storedLogs d).
Proof.
  unfold EmailServer.updateLogStatus.
  destruct (EmailServer.loadLogs clock d) as [x|] eqn:Hload; [| reflexivity].
  destruct (find _ (EmailServer.logs x)) eqn:Hfind; [| reflexivity].
  match goal with
  | |- context [EmailServer.saveLogs clock writeOk d ?y] =>
      pose proof (saveLogs_file d y) as Hsave
  end.
  unfold storedLogs at 1.
  destruct Hsave as [-> | ->]; [reflexivity |].
  simpl. rewrite updateFound_length.
  unfold storedLogs, EmailServer.loadLogs in *.
  destruct (EmailServer.file d).
  - injection Hload as <-. simpl in Hfind. discriminate.
  - discriminate.
  - now injection Hload as <-.
Qed.

Lemma updateLogStatus_unknown (logId status : string)
    (messageId error : option string) (d : EmailServer.Disk) :
  find (fun log => (EmailServer.id log =? logId)%string) (storedLogs d) = None ->
  updateLogStatus logId status messageId error d = (d, None).
Proof.
  unfold EmailServer.updateLogStatus, EmailServer.loadLogs, storedLogs.
  destruct (EmailServer.file d); simpl; try reflexivity.
  now intros ->.
Qed.

(** C7: [updateLogStatus] with an id that is not in the store returns
    without an error and leaves the file as it was; any call, and so a
    second call with the same id and status, leaves the number of log
    entries unchanged, and applying the same update twice to a log list
    gives the list of applying it once. *)
Theorem finalize_keeps_entries (logId status : string)
    (messageId error : option string) (d : EmailServer.Disk) :
  (find (fun log => (EmailServer.id log =? logId)%string) (storedLogs d) = None
   -> updateLogStatus logId status messageId error d = (d, None))
  /\ List.length
       (storedLogs (fst (updateLogStatus logId status messageId error d)))
     = List.length (storedLogs d)
  /\ List.length
       (storedLogs
          (fst (updateLogStatus logId status messageId error
                  (fst (updateLogStatus logId status messageId error d)))))
     = List.length (storedLogs d)
  /\ updateFound logId status messageId error
       (updateFound logId status messageId error (storedLogs d))
     = updateFound logId status messageId error (storedLogs d).
Proof.
  split; [apply updateLogStatus_unknown |].
  split; [apply updateLogStatus_length |].
  split; [now rewrite !updateLogStatus_length |].
  apply updateFound_idempotent.
Qed.

(** C10: if the counters of the persisted store agree with its log list
    (total, pending, successful, failed), they still do after any
    [logEmailAttempt] and after any [updateLogStatus], whether or not the
    file could be read or written. *)
Theorem counters_stay_consistent (cfg : option EmailServer.EmailConfigBody)
    (data : option EmailServer.EmailDataBody) (logId status : string)
    (messageId error : option string) (d : EmailServer.Disk) :
  fileConsistent (EmailServer.file d) ->
  fileConsistent (EmailServer.file (fst (logEmailAttempt cfg data d)))
  /\ fileConsistent
       (EmailServer.file
          (fst (updateLogStatus logId status messageId error d))).
Proof.
  intros Hd. split.
  - now apply logEmailAttempt_consistent.
  - now apply updateLogStatus_consistent.
Qed.

End LogStore.

(** ** What the caller is told when delivery fails *)

Lemma errorMessageFor_untranslated (error : JsError) :
  translatedCode (code error) = false ->
  EmailServer.errorMessageFor error
  = if Js.truthy (message error) then message error
    else "Failed to send email".
Proof.
  unfold translatedCode, EmailServer.errorMessageFor.
  destruct (code error) as [c|]; [| reflexivity].
  destruct (c =? "EAUTH")%string; [discriminate |].
  destruct (c =? "ECONNECTION")%string; [discriminate |].
  destruct (c =? "EENVELOPE")%string; [discriminate |].
  destruct (c =? "ETIMEDOUT")%string; [discriminate |].
  reflexivity.
Qed.

Lemma errorMessageFor_translated (error : JsError) :
  (code error = Some "EAUTH" ->
   EmailServer.errorMessageFor error
   = "Authentication failed. Please check your email and password.")
  /\ (code error = Some "ECONNECTION" ->
      EmailServer.errorMessageFor error
      = "Connection failed. Please check your SMTP settings.")
  /\ (code error = Some "EENVELOPE" ->
      EmailServer.errorMessageFor error = "Invalid recipient email address.")
  /\ (code error = Some "ETIMEDOUT" ->
      EmailServer.errorMessageFor error
      = "Connection timeout. Please check your SMTP settings.").
Proof.
  unfold EmailServer.errorMessageFor.
  repeat split; intros ->; reflexivity.
Qed.

Lemma find_last_some {A : Type} (p : A -> bool) (l : list A) (x : A) :
  p x = true -> exists y, find p (l ++ [x]) = Some y.
Proof.
  intros Hx. induction l as [|a l IH]; simpl.
  - rewrite Hx. now exists x.
  - destruct (p a); [now exists a | exact IH].
Qed.

Section Delivery.

Variable cleanInput : string -> string.
Variable cleanContent : string -> string.
Variable emailRegex : string -> bool.
Variable dangerous : string -> bool.
Variable clock : nat -> Z.
Variable randomHex : nat -> string.
Variable writeOk : nat -> bool.
Variable verify : nat -> SmtpOptions -> option JsError.
Variable sendMail : nat -> SmtpOptions -> MailOptions -> JsError + SendInfo.

Abbreviation sendEmail :=
  (EmailServer.sendEmail cleanInput cleanContent emailRegex dangerous clock
     randomHex writeOk verify sendMail).
Abbreviation sendEmailCatch :=
  (EmailServer.sendEmailCatch cleanInput cleanContent clock randomHex writeOk).

Lemma sendEmail_delivery_failure (body : EmailServer.Body)
    (d d1 : EmailServer.Disk) (cfg : EmailServer.EmailConfigBody)
    (data : EmailServer.EmailDataBody) (a : Auth) (logId : string)
    (error : JsError) :
  requestAccepted emailRegex dangerous body cfg data a ->
  EmailServer.logEmailAttempt cleanInput cleanContent clock randomHex writeOk
    (Some cfg) (Some data) d = (d1, inr logId) ->
  deliveryFails verify sendMail cfg data a d1 error ->
  sendEmail body d = sendEmailCatch body error d1.
Proof.
  intros (Hc & Hd & Hfrom & Hto & Hsub & Hhost & Hport & Hauth) Hlog Hfail.
  unfold EmailServer.sendEmail.
  rewrite Hc, Hd, Hfrom, Hto, Hsub, Hhost, Hport. cbn [negb orb].
  rewrite Hlog, Hauth.
  destruct Hfail as [Hv | [Hv Hs]]; rewrite Hv; [reflexivity |].
  now rewrite Hs.
Qed.

Lemma sendEmailCatch_logged (body : EmailServer.Body)
    (cfg : EmailServer.EmailConfigBody) (data : EmailServer.EmailDataBody)
    (error : JsError) (d1 : EmailServer.Disk) :
  EmailServer.b_emailConfig body = Some cfg ->
  EmailServer.b_emailData body = Some data ->
  EmailServer.file d1 <> EmailServer.Unreadable ->
  writeOk (EmailServer.tick d1) = true ->
  writeOk (S (EmailServer.tick d1)) = true ->
  exists e,
    In e (storedLogs (fst (sendEmailCatch body error d1)))
    /\ EmailServer.log_status e = "failed"
    /\ (Js.truthy (message error) = true ->
        EmailServer.log_error e = Some (cleanInput (message error))).
Proof.
  intros Hc Hd Hfile Hw1 Hw2.
  unfold EmailServer.sendEmailCatch. rewrite Hc, Hd.
  unfold EmailServer.logEmailAttempt.
  destruct (EmailServer.loadLogs clock d1) as [x|] eqn:Hload.
  2:{ unfold EmailServer.loadLogs in Hload.
      destruct (EmailServer.file d1); congruence. }
  unfold EmailServer.saveLogs at 1. rewrite Hw1.
  cbn [fst EmailServer.id EmailServer.logs].
  unfold EmailServer.updateLogStatus, EmailServer.loadLogs.
  cbn [EmailServer.file EmailServer.logs].
  match goal with
  | |- context [find ?p (EmailServer.logs x ++ [?entry])%list] =>
      destruct (find_last_some p (EmailServer.logs x) entry) as (e0 & He0);
      [cbn [EmailServer.id]; apply String.eqb_refl |];
      rewrite He0
  end.
  unfold EmailServer.saveLogs. cbn [EmailServer.tick]. rewrite Hw2.
  unfold storedLogs. cbn [fst EmailServer.file EmailServer.logs].
  eexists. split; [eapply updateFound_in, He0 |].
  split; [reflexivity |].
  intros Ht. cbn [EmailServer.finalized EmailServer.log_error Js.truthy_opt].
  rewrite Ht. unfold EmailServer.sanitizeInput. now rewrite Ht.
Qed.

(** C9, amended: when the connection check or the send fails in
    [/api/send-email], the answer is a 500 whose error string is the fixed
    translation for the codes EAUTH, ECONNECTION, EENVELOPE and ETIMEDOUT,
    and for every other error the error's own message when it has one
    ('Failed to send email' otherwise); and when the log file can be read
    and written, a log entry with status 'failed' holds the sanitized
    message. *)
Theorem delivery_error_response (body : EmailServer.Body)
    (d d1 : EmailServer.Disk) (cfg : EmailServer.EmailConfigBody)
    (data : EmailServer.EmailDataBody) (a : Auth) (logId : string)
    (error : JsError) :
  requestAccepted emailRegex dangerous body cfg data a ->
  EmailServer.logEmailAttempt cleanInput cleanContent clock randomHex writeOk
    (Some cfg) (Some data) d = (d1, inr logId) ->
  deliveryFails verify sendMail cfg data a d1 error ->
  snd (sendEmail body d)
  = EmailServer.Failure 500 (EmailServer.errorMessageFor error)
  /\ (code error = Some "EAUTH" ->
      EmailServer.errorMessageFor error
      = "Authentication failed. Please check your email and password.")
  /\ (code error = Some "ECONNECTION" ->
      EmailServer.errorMessageFor error
      = "Connection failed. Please check your SMTP settings.")
  /\ (code error = Some "EENVELOPE" ->
      EmailServer.errorMessageFor error = "Invalid recipient email address.")
  /\ (code error = Some "ETIMEDOUT" ->
      EmailServer.errorMessageFor error
      = "Connection timeout. Please check your SMTP settings.")
  /\ (translatedCode (code error) = false ->
      EmailServer.errorMessageFor error
      = if Js.truthy (message error) then message error
        else "Failed to send email")
  /\ (EmailServer.file d1 <> EmailServer.Unreadable ->
      writeOk (EmailServer.tick d1) = true ->
      writeOk (S (EmailServer.tick d1)) = true ->
      exists e,
        In e (storedLogs (fst (sendEmail body d)))
        /\ EmailServer.log_status e = "failed"
        /\ (Js.truthy (message error) = true ->
            EmailServer.log_error e = Some (cleanInput (message error)))).
Proof.
  intros Hacc Hlog Hfail.
  rewrite (sendEmail_delivery_failure body d d1 cfg data a logId error
             Hacc Hlog Hfail).
  split; [reflexivity |].
  destruct (errorMessageFor_translated error) as (H1 & H2 & H3 & H4).
  do 4 (split; [assumption |]).
  split; [apply errorMessageFor_untranslated |].
  destruct Hacc as (Hc & Hd & _).
  now apply sendEmailCatch_logged with (cfg := cfg) (data := data).
Qed.

End Delivery.

(** C9, as the claim states it, fails: for an error whose code is not one
    of the four translated ones, the error string of the response is the
    provider's own text. *)
Lemma raw_text_reaches_the_caller :
  snd (EmailServer.sendEmail keep keep anyAddress harmless zeroTime tickHex
         diskOk (verifyFails connectionRefused) delivered helloRequest
         freshDisk)
  = EmailServer.Failure 500 "connect ECONNREFUSED 127.0.0.1:587".
Proof. vm_compute. reflexivity. Qed.

(** A refused login is answered with the translated message. *)
Lemma delivery_error_response_witness :
  snd (EmailServer.sendEmail keep keep anyAddress harmless zeroTime tickHex
         diskOk (verifyFails loginRefused) delivered helloRequest freshDisk)
  = EmailServer.Failure 500
      "Authentication failed. Please check your email and password.".
Proof.
  destruct (delivery_error_response keep keep anyAddress harmless zeroTime
              tickHex diskOk (verifyFails loginRefused) delivered
              helloRequest freshDisk onePending config587 hello
              {| user := "ops@example.com"; pass := "secret" |}
              "email_0_0" loginRefused) as (Hresp & Hauth & _).
  - repeat split.
  - vm_compute. reflexivity.
  - left. reflexivity.
  - rewrite Hresp, (Hauth eq_refl). reflexivity.
Defined.

(** A further attempt and a finalization on the store with one pending
    entry. *)
Lemma counters_stay_consistent_witness :
  fileConsistent
    (EmailServer.file
       (fst (EmailServer.logEmailAttempt keep keep zeroTime tickHex diskOk
               (Some config587) (Some hello) onePending)))
  /\ fileConsistent
       (EmailServer.file
          (fst (EmailServer.updateLogStatus keep zeroTime diskOk
                  "email_0_0" "success" (Some "<1@example.com>") None
                  onePending))).
Proof.
  apply (counters_stay_consistent keep keep zeroTime tickHex diskOk
           (Some config587) (Some hello) "email_0_0" "success"
           (Some "<1@example.com>") None onePending).
  vm_compute. repeat split.
Defined.

(** Finalizing the one pending entry, and finalizing an id that is not in
    the store. *)
Example finalize_known_and_unknown :
  storedLogs onePending <> []
  /\ map EmailServer.log_status
       (storedLogs
          (fst (EmailServer.updateLogStatus keep zeroTime diskOk
                  "email_0_0" "success" (Some "<1@example.com>") None
                  onePending)))
     = ["success"]
  /\ EmailServer.updateLogStatus keep zeroTime diskOk "email_9_0000"
       "success" None None onePending
     = (onePending, None).
Proof.
  split; [vm_compute; discriminate |].
  split; vm_compute; reflexivity.
Qed.

(* ================================================================== *)
(** ** Credentials and the logs endpoints                              *)
(* ================================================================== *)

Lemma prefix_drop (p s : string) :
  String.prefix p s = true -> s = (p ++ Js.drop (String.length p) s)%string.
Proof.
  revert s. induction p as [|c p IH]; intros [|c' s] H; simpl in *;
    try reflexivity; try discriminate.
  destruct (Ascii.ascii_dec c c') as [<-|]; [| discriminate].
  f_equal. now apply IH.
Qed.

Lemma prefix_app (p s : string) : String.prefix p (p ++ s) = true.
Proof.
  induction p as [|c p IH]; simpl.
  - now destruct s.
  - destruct (Ascii.ascii_dec c c); [exact IH | congruence].
Qed.

Lemma drop_app (p s : string) : Js.drop (String.length p) (p ++ s) = s.
Proof. induction p as [|c p IH]; simpl; [now destruct s | exact IH]. Qed.

Lemma tokenOf_nonempty (env : option string) (random : string) :
  random <> "" -> Admin.tokenOf env random <> "".
Proof.
  unfold Admin.tokenOf, Js.or_else, Js.truthy. intros Hr.
  destruct env as [e|]; [| exact Hr].
  destruct (e =? "")%string eqn:He; simpl; [exact Hr |].
  now apply String.eqb_neq.
Qed.

Lemma authenticateRequest_next (A S : string) (h : Admin.Headers) :
  S <> "" ->
  Admin.authenticateRequest A S h = Admin.Next <-> credentialsOk A S h.
Proof.
  intros HS. unfold Admin.authenticateRequest, credentialsOk.
  destruct h as [a k]; cbn [Admin.authorization Admin.x_api_key].
  split.
  - destruct (negb (Js.truthy_opt a) && negb (Js.truthy_opt k));
      [discriminate |].
    destruct a as [a|].
    + destruct (Js.truthy a && String.prefix "Bearer " a
                && (Js.drop 7 a =? A)%string) eqn:Hb.
      * intros _. left.
        apply andb_prop in Hb as [Hb He]. apply andb_prop in Hb as [_ Hp].
        apply String.eqb_eq in He. apply prefix_drop in Hp.
        simpl String.length in Hp. rewrite He in Hp. now rewrite Hp.
      * destruct k as [k|]; [| discriminate].
        destruct (Js.truthy k && (k =? S)%string) eqn:Hk; [| discriminate].
        intros _. right. apply andb_prop in Hk as [_ He].
        apply String.eqb_eq in He. now rewrite He.
    + destruct k as [k|]; [| discriminate].
      destruct (Js.truthy k && (k =? S)%string) eqn:Hk; [| discriminate].
      intros _. right. apply andb_prop in Hk as [_ He].
      apply String.eqb_eq in He. now rewrite He.
  - intros [-> | ->].
    + cbn [Js.truthy_opt]. 
      replace (Js.truthy ("Bearer " ++ A)) with true by reflexivity.
      cbn [negb andb].
      rewrite prefix_app.
      change 7%nat with (String.length "Bearer ").
      rewrite drop_app, String.eqb_refl. reflexivity.
    + assert (Ht : Js.truthy S = true).
      { unfold Js.truthy. apply negb_true_iff. now apply String.eqb_neq. }
      cbn [Js.truthy_opt]. rewrite Ht, String.eqb_refl.
      rewrite andb_false_r. cbn [andb].
      destruct a as [a|]; [| reflexivity].
      now destruct (Js.truthy a && String.prefix "Bearer " a
                    && (Js.drop 7 a =? A)%string).
Qed.

(** The logs are served exactly to a request that carries the admin
    token as a bearer token or the API secret as its key, and only while
    the logs file can be read; every other request gets no log data. *)
Theorem logs_need_credentials (clock : nat -> Z)
    (envAdmin envSecret : option string) (randomAdmin randomSecret : string)
    (h : Admin.Headers) (d : EmailServer.Disk) (x : EmailServer.LogsData) :
  randomSecret <> "" ->
  Admin.getLogs clock (Admin.tokenOf envAdmin randomAdmin)
    (Admin.tokenOf envSecret randomSecret) h d = Admin.Served x
  <-> credentialsOk (Admin.tokenOf envAdmin randomAdmin)
        (Admin.tokenOf envSecret randomSecret) h
      /\ EmailServer.loadLogs clock d = Some x.
Proof.
  intros Hr.
  pose proof (authenticateRequest_next (Admin.tokenOf envAdmin randomAdmin)
                (Admin.tokenOf envSecret randomSecret) h
                (tokenOf_nonempty envSecret randomSecret Hr)) as Hauth.
  unfold Admin.getLogs.
  destruct (Admin.authenticateRequest _ _ h) as [|st e].
  - destruct Hauth as [Hok _]. specialize (Hok eq_refl).
    destruct (EmailServer.loadLogs clock d) as [y|].
    + split.
      * intros [= ->]. now split.
      * intros [_ [= ->]]. reflexivity.
    + split; [discriminate | intros [_ H]; discriminate].
  - split; [discriminate |].
    intros [Hok _]. apply Hauth in Hok. discriminate.
Qed.

Lemma logs_need_credentials_witness :
  Admin.getLogs zeroTime adminToken apiSecret withBearer onePending
  = Admin.Served
      {| EmailServer.lastUpdated := 0; EmailServer.totalEmails := 1;
         EmailServer.successfulEmails := 0; EmailServer.failedEmails := 0;
         EmailServer.pendingEmails := 1;
         EmailServer.logs := storedLogs onePending |}.
Proof.
  apply (logs_need_credentials zeroTime (Some "s3cr3t-admin") None
           "00ff" "a1b2c3" withBearer onePending).
  - discriminate.
  - split; [left; reflexivity | reflexivity].
Defined.

(** Clearing the logs of a server whose logs file exists is answered
    'Logs cleared successfully', but [initializeLogsFile] only writes when
    there is no file: the file is left as it is, and a reader is served
    the same store as before. *)
Theorem clear_logs_keeps_existing_logs (clock : nat -> Z)
    (writeOk : nat -> bool) (ADMIN_TOKEN API_SECRET : string)
    (h : Admin.Headers) (d : EmailServer.Disk) :
  Admin.authenticateRequest ADMIN_TOKEN API_SECRET h = Admin.Next ->
  EmailServer.file d <> EmailServer.Missing ->
  Admin.deleteLogs clock writeOk ADMIN_TOKEN API_SECRET h d
  = (d, Admin.Message "Logs cleared successfully")
  /\ Admin.getLogs clock ADMIN_TOKEN API_SECRET h
       (fst (Admin.deleteLogs clock writeOk ADMIN_TOKEN API_SECRET h d))
     = Admin.getLogs clock ADMIN_TOKEN API_SECRET h d.
Proof.
  intros Hauth Hfile.
  assert (Hdel : Admin.deleteLogs clock writeOk ADMIN_TOKEN API_SECRET h d
                 = (d, Admin.Message "Logs cleared successfully")).
  { unfold Admin.deleteLogs, Admin.initializeLogsFile, Admin.existsSync.
    rewrite Hauth. destruct (EmailServer.file d); [congruence | | ];
      reflexivity. }
  split; [exact Hdel |]. now rewrite Hdel.
Qed.

Lemma clear_logs_keeps_existing_logs_witness :
  Admin.deleteLogs zeroTime diskOk adminToken apiSecret withBearer onePending
  = (onePending, Admin.Message "Logs cleared successfully")
  /\ Admin.getLogs zeroTime adminToken apiSecret withBearer
       (fst (Admin.deleteLogs zeroTime diskOk adminToken apiSecret
               withBearer onePending))
     = Admin.getLogs zeroTime adminToken apiSecret withBearer onePending.
Proof.
  apply (clear_logs_keeps_existing_logs zeroTime diskOk adminToken apiSecret
           withBearer onePending).
  - reflexivity.
  - discriminate.
Defined.

Section LoggedSecrets.

Variable cleanInput : string -> string.
Variable cleanContent : string -> string.
Variable clock : nat -> Z.
Variable randomHex : nat -> string.
Variable writeOk : nat -> bool.

(** What a successful [logEmailAttempt] leaves in the file. *)
Lemma logEmailAttempt_stored (cfg : EmailServer.EmailConfigBody)
    (data : EmailServer.EmailDataBody) (d d' : EmailServer.Disk)
    (logId : string) :
  EmailServer.logEmailAttempt cleanInput cleanContent clock randomHex writeOk
    (Some cfg) (Some data) d = (d', inr logId) ->
  exists (x : EmailServer.LogsData) (e : EmailServer.LogEntry),
    EmailServer.file d' = EmailServer.Stored x
    /\ EmailServer.logs x = (storedLogs d ++ [e])%list
    /\ EmailServer.id e = logId
    /\ EmailServer.log_status e = "pending"
    /\ EmailServer.l_password (EmailServer.emailData e)
       = EmailServer.d_password data.
Proof.
  unfold EmailServer.logEmailAttempt.
  destruct (EmailServer.loadLogs clock d) as [x|] eqn:Hload; [| discriminate].
  unfold EmailServer.saveLogs.
  destruct (writeOk (EmailServer.tick d)); [| discriminate].
  intros [= <- <-].
  eexists. eexists. split; [reflexivity |].
  cbn [EmailServer.logs EmailServer.id EmailServer.log_status
       EmailServer.emailData EmailServer.l_password].
  split.
  - f_equal. unfold storedLogs, EmailServer.loadLogs in *.
    destruct (EmailServer.file d); [| discriminate |];
      now injection Hload as <-.
  - repeat split; reflexivity.
Qed.

(** Every attempt that is logged puts the account password of the request
    into the logs file as it is, and the logs endpoint serves it: after a
    successful [logEmailAttempt], a reader with credentials is served a
    pending entry with the id that was returned, holding the password. *)
Theorem logged_password_is_served (ADMIN_TOKEN API_SECRET : string)
    (h : Admin.Headers) (cfg : EmailServer.EmailConfigBody)
    (data : EmailServer.EmailDataBody) (d d' : EmailServer.Disk)
    (logId : string) :
  Admin.authenticateRequest ADMIN_TOKEN API_SECRET h = Admin.Next ->
  EmailServer.logEmailAttempt cleanInput cleanContent clock randomHex writeOk
    (Some cfg) (Some data) d = (d', inr logId) ->
  exists e : EmailServer.LogEntry,
    In e (servedLogs clock ADMIN_TOKEN API_SECRET h d')
    /\ EmailServer.id e = logId
    /\ EmailServer.log_status e = "pending"
    /\ EmailServer.l_password (EmailServer.emailData e)
       = EmailServer.d_password data.
Proof.
  intros Hauth Hlog.
  destruct (logEmailAttempt_stored cfg data d d' logId Hlog)
    as (x & e & Hfile & Hlogs & Hid & Hst & Hpw).
  exists e. split; [| now repeat split].
  unfold servedLogs, Admin.getLogs, EmailServer.loadLogs.
  rewrite Hauth, Hfile, Hlogs. apply in_or_app. right. now left.
Qed.

End LoggedSecrets.

Lemma logged_password_is_served_witness :
  exists e : EmailServer.LogEntry,
    In e (servedLogs zeroTime adminToken apiSecret withBearer onePending)
    /\ EmailServer.id e = "email_0_0"
    /\ EmailServer.log_status e = "pending"
    /\ EmailServer.l_password (EmailServer.emailData e)
       = EmailServer.d_password hello.
Proof.
  apply (logged_password_is_served keep keep zeroTime tickHex diskOk
           adminToken apiSecret withBearer config587 hello freshDisk
           onePending "email_0_0").
  - reflexivity.
  - reflexivity.
Defined.

(* ================================================================== *)
(** ** The client in front of [/api/send-email]                        *)
(* ================================================================== *)

Lemma errorMessageFor_nonempty (error : JsError) :
  EmailServer.errorMessageFor error <> "".
Proof.
  unfold EmailServer.errorMessageFor.
  assert (H : (if Js.truthy (message error) then message error
               else "Failed to send email") <> "").
  { unfold Js.truthy. destruct (message error =? "")%string eqn:He; simpl.
    - discriminate.
    - now apply String.eqb_neq. }
  destruct (code error) as [c|]; [| exact H].
  destruct (c =? "EAUTH")%string; [discriminate |].
  destruct (c =? "ECONNECTION")%string; [discriminate |].
  destruct (c =? "EENVELOPE")%string; [discriminate |].
  destruct (c =? "ETIMEDOUT")%string; [discriminate |].
  exact H.
Qed.

Lemma getEmailConfig_port (data : Client.EmailData) (cfg : Client.EmailConfig) :
  Client.getEmailConfig data = inr cfg ->
  EmailServer.isPort (Js.Num (Client.ec_port cfg)) = true.
Proof.
  unfold Client.getEmailConfig, EmailServer.isPort.
  destruct (Client.emailType data).
  - intros [= <-]. reflexivity.
  - destruct (negb (Js.truthy (Client.domain data))); [discriminate |].
    destruct (negb (Js.truthy (Client.ed_smtpPort data))); [discriminate |].
    destruct (Js.parseInt (Client.ed_smtpPort data)) as [p|]; [| discriminate].
    destruct ((p <? 1) || (p >? 65535)) eqn:Hp; [discriminate |].
    intros [= <-]. cbn [Client.ec_port].
    apply orb_false_elim in Hp as [H1 H2]. lia.
  - destruct (negb (Js.truthy (Client.domain data))); [discriminate |].
    destruct (negb (Js.truthy (Client.ed_smtpPort data))); [discriminate |].
    destruct (Js.parseInt (Client.ed_smtpPort data)) as [p|]; [| discriminate].
    destruct ((p <? 1) || (p >? 65535)) eqn:Hp; [discriminate |].
    intros [= <-]. cbn [Client.ec_port].
    apply orb_false_elim in Hp as [H1 H2]. lia.
Qed.

Lemma sendEmail_request (fetch : Sender.Request -> Sender.FetchResult)
    (data : Client.EmailData) (r : Sender.Request) (res : Sender.Result) :
  Sender.sendEmail fetch data = (Some r, res) ->
  Client.getEmailConfig data = inr (Sender.emailConfig r)
  /\ Sender.emailData r = data
  /\ match fetch r with
     | Sender.Rejects typeError msg => res = Sender.caught typeError msg
     | Sender.Responds ok statusText json =>
         if negb ok then
           res = Sender.caught false
                   (match json with
                    | Some errorData =>
                        Js.or_else errorData "Failed to send email"
                    | None =>
                        Js.or_else (Some statusText) "Failed to send email"
                    end)
         else
           match json with
           | None => res = Sender.caught false "Invalid response from server"
           | Some _ =>
               res = {| Sender.success := true;
                        Sender.message := "Email sent successfully!" |}
           end
     end.
Proof.
  unfold Sender.sendEmail.
  destruct (negb (Js.truthy (Client.from data))
            || negb (Js.truthy (Client.ed_password data))
            || negb (Js.truthy (Client.to data))
            || negb (Js.truthy (Client.subject data))
            || negb (Js.truthy (Client.content data))); [discriminate |].
  destruct (Client.getEmailConfig data) as [msg|cfg]; [discriminate |].
  destruct (fetch _) as [te msg|ok st json] eqn:Hf.
  - intros [= <- <-]. cbn [Sender.emailConfig Sender.emailData].
    rewrite Hf. auto.
  - destruct (negb ok) eqn:Hok.
    + intros [= <- <-]. cbn [Sender.emailConfig Sender.emailData].
      rewrite Hf, Hok. auto.
    + destruct json as [j|]; intros [= <- <-];
        cbn [Sender.emailConfig Sender.emailData]; rewrite Hf, Hok; auto.
Qed.

(** The client sends complete forms only: [sendEmail] makes its request
    exactly when the sender, the password, the recipient, the subject and
    the content are all filled in and the SMTP configuration resolves, and
    the request then carries that configuration and the form as it is;
    otherwise no request is made and the message names the reason (the
    missing fields, or the error of the configuration). *)
Theorem client_sends_only_complete_forms
    (fetch : Sender.Request -> Sender.FetchResult) (data : Client.EmailData) :
  let complete :=
    Js.truthy (Client.from data) && Js.truthy (Client.ed_password data)
    && Js.truthy (Client.to data) && Js.truthy (Client.subject data)
    && Js.truthy (Client.content data) in
  match Client.getEmailConfig data with
  | inr smtpConfig =>
      if complete
      then fst (Sender.sendEmail fetch data)
           = Some {| Sender.emailConfig := smtpConfig;
                     Sender.emailData := data |}
      else Sender.sendEmail fetch data
           = (None, {| Sender.success := false;
                       Sender.message := "Missing required email fields" |})
  | inl msg =>
      Sender.sendEmail fetch data
      = (None, {| Sender.success := false;
                  Sender.message :=
                    if complete then msg
                    else "Missing required email fields" |})
  end.
Proof.
  unfold Sender.sendEmail.
  destruct (Js.truthy (Client.from data)),
    (Js.truthy (Client.ed_password data)), (Js.truthy (Client.to data)),
    (Js.truthy (Client.subject data)), (Js.truthy (Client.content data));
    cbn [negb orb andb];
    destruct (Client.getEmailConfig data) as [msg|cfg]; try reflexivity.
  destruct (fetch _) as [te m|ok st json]; [reflexivity |].
  destruct (negb ok); [reflexivity |]. now destruct json.
Qed.

Section ClientAndServer.

Variable cleanInput : string -> string.
Variable cleanContent : string -> string.
Variable emailRegex : string -> bool.
Variable dangerous : string -> bool.
Variable clock : nat -> Z.
Variable randomHex : nat -> string.
Variable writeOk : nat -> bool.
Variable verify : nat -> SmtpOptions -> option JsError.
Variable sendMail : nat -> SmtpOptions -> MailOptions -> JsError + SendInfo.
Variable statusText : Z -> string.

Abbreviation server :=
  (EmailServer.sendEmail cleanInput cleanContent emailRegex dangerous clock
     randomHex writeOk verify sendMail).

Lemma sendEmailCatch_500 (body : EmailServer.Body) (error : JsError)
    (d : EmailServer.Disk) :
  snd (EmailServer.sendEmailCatch cleanInput cleanContent clock randomHex
         writeOk body error d)
  = EmailServer.Failure 500 (EmailServer.errorMessageFor error).
Proof. reflexivity. Qed.

(** The answers of the handler: a 400 comes from one of the four checks,
    and everything after them is a success or a 500 whose text is not
    empty. *)
Lemma sendEmail_answers (body : EmailServer.Body) (d : EmailServer.Disk) :
  match snd (server body d) with
  | EmailServer.Success _ => True
  | EmailServer.Failure st err =>
      err <> ""
      /\ (st = 400 \/ st = 500)
      /\ (st = 400 ->
          match EmailServer.b_emailConfig body, EmailServer.b_emailData body with
          | Some cfg, Some data =>
              err = "Invalid email address format"
              \/ err = "Invalid subject data"
              \/ (err = "Invalid SMTP configuration"
                  /\ (EmailServer.validateInput dangerous
                        (EmailServer.cfg_host cfg) 1000 = false
                      \/ EmailServer.isPort (EmailServer.cfg_port cfg) = false))
          | _, _ => err = "Missing email configuration or data"
          end)
  end.
Proof.
  unfold EmailServer.sendEmail.
  destruct (EmailServer.b_emailConfig body) as [cfg|] eqn:Hc;
    [| cbn; split; [discriminate | split; [now left | reflexivity]]].
  destruct (EmailServer.b_emailData body) as [data|] eqn:Hd;
    [| cbn; split; [discriminate | split; [now left | reflexivity]]].
  destruct (negb (EmailServer.validateEmail emailRegex (EmailServer.d_from data))
            || negb (EmailServer.validateEmail emailRegex
                       (EmailServer.d_to data)));
    [cbn; split; [discriminate | split; [now left | now left]] |].
  destruct (negb (EmailServer.validateInput dangerous
                    (EmailServer.d_subject data) 200));
    [cbn; split; [discriminate | split; [now left | right; now left]] |].
  destruct (negb (EmailServer.validateInput dangerous
                    (EmailServer.cfg_host cfg) 1000)
            || negb (EmailServer.isPort (EmailServer.cfg_port cfg))) eqn:Hv.
  { cbn. split; [discriminate |]. split; [now left |]. intros _.
    right. right. split; [reflexivity |].
    apply orb_true_iff in Hv as [Hv|Hv]; apply negb_true_iff in Hv; auto. }
  assert (Hcatch : forall error d0,
    match snd (EmailServer.sendEmailCatch cleanInput cleanContent clock
                 randomHex writeOk body error d0) with
    | EmailServer.Success _ => True
    | EmailServer.Failure st err =>
        err <> "" /\ (st = 400 \/ st = 500)
        /\ (st = 400 ->
            err = "Invalid email address format"
            \/ err = "Invalid subject data"
            \/ (err = "Invalid SMTP configuration"
                /\ (EmailServer.validateInput dangerous
                      (EmailServer.cfg_host cfg) 1000 = false
                    \/ EmailServer.isPort (EmailServer.cfg_port cfg) = false)))
    end).
  { intros error d0. rewrite sendEmailCatch_500.
    split; [apply errorMessageFor_nonempty |].
    split; [now right | discriminate]. }
  destruct (EmailServer.logEmailAttempt _ _ _ _ _ _ _ d) as [d1 [error|logId]];
    [apply Hcatch |].
  destruct (EmailServer.cfg_auth cfg) as [a|]; [| apply Hcatch].
  destruct (verify _ _) as [error|]; [apply Hcatch |].
  destruct (sendMail _ _ _) as [error|info]; [apply Hcatch |].
  destruct (EmailServer.updateLogStatus _ _ _ _ _ _ _ d1) as [d2 [error|]];
    [apply Hcatch | exact I].
Qed.

(** The user is shown what the server answers: when [sendEmail] of the
    client has made its request and the request has reached the handler
    of [/api/send-email], the result is a success exactly when the handler
    answered with a success, and otherwise its message is the handler's
    error text, character for character. *)
Theorem client_shows_server_answer (data : Client.EmailData)
    (d : EmailServer.Disk) (r : Sender.Request) (res : Sender.Result) :
  Sender.sendEmail
    (fun q => Sender.reply statusText (snd (server (Sender.toBody q) d)))
    data = (Some r, res) ->
  match snd (server (Sender.toBody r) d) with
  | EmailServer.Success _ =>
      res = {| Sender.success := true;
               Sender.message := "Email sent successfully!" |}
  | EmailServer.Failure _ err =>
      res = {| Sender.success := false; Sender.message := err |}
  end.
Proof.
  intros H. apply sendEmail_request in H as (_ & _ & H).
  pose proof (sendEmail_answers (Sender.toBody r) d) as Hans.
  destruct (snd (server (Sender.toBody r) d)) as [st err|id];
    cbn [Sender.reply negb] in H.
  - destruct Hans as (Hne & _ & _). rewrite H.
    unfold Sender.caught, Js.or_else, Js.truthy. cbn [andb].
    apply String.eqb_neq in Hne. now rewrite Hne.
  - exact H.
Qed.

(** What the client sends is never refused for a missing part or for its
    port: a 400 answer to a request of the client is about the addresses,
    the subject, or a host name that [validateInput] refuses. *)
Theorem client_request_is_well_formed
    (fetch : Sender.Request -> Sender.FetchResult) (data : Client.EmailData)
    (d : EmailServer.Disk) (r : Sender.Request) (res : Sender.Result)
    (err : string) :
  Sender.sendEmail fetch data = (Some r, res) ->
  snd (server (Sender.toBody r) d) = EmailServer.Failure 400 err ->
  err = "Invalid email address format"
  \/ err = "Invalid subject data"
  \/ (err = "Invalid SMTP configuration"
      /\ EmailServer.validateInput dangerous
           (Some (Client.ec_host (Sender.emailConfig r))) 1000 = false).
Proof.
  intros H Hs. apply sendEmail_request in H as (Hcfg & _ & _).
  apply getEmailConfig_port in Hcfg.
  pose proof (sendEmail_answers (Sender.toBody r) d) as Hans.
  rewrite Hs in Hans. destruct Hans as (_ & _ & Hans).
  specialize (Hans eq_refl). cbn in Hans.
  destruct Hans as [Hans | [Hans | [Hans [Hans' | Hans']]]]; auto.
  unfold EmailServer.isPort in Hcfg. congruence.
Qed.

End ClientAndServer.

Lemma client_shows_server_answer_witness :
  snd (Sender.sendEmail refusedLogin websiteForm)
  = {| Sender.success := false;
       Sender.message :=
         "Authentication failed. Please check your email and password." |}.
Proof.
  exact (client_shows_server_answer keep keep anyAddress harmless zeroTime
           tickHex diskOk (verifyFails loginRefused) delivered statusTexts
           websiteForm freshDisk websiteRequest
           (snd (Sender.sendEmail refusedLogin websiteForm)) eq_refl).
Defined.

Lemma client_request_is_well_formed_witness :
  "Invalid subject data" = "Invalid email address format"
  \/ "Invalid subject data" = "Invalid subject data"
  \/ ("Invalid subject data" = "Invalid SMTP configuration"
      /\ EmailServer.validateInput (fun s => (s =? "Hello")%string)
           (Some (Client.ec_host (Sender.emailConfig websiteRequest))) 1000
         = false).
Proof.
  exact (client_request_is_well_formed keep keep anyAddress
           (fun s => (s =? "Hello")%string) zeroTime tickHex diskOk
           (verifyFails loginRefused) delivered refusedLogin websiteForm
           freshDisk websiteRequest
           (snd (Sender.sendEmail refusedLogin websiteForm))
           "Invalid subject data" eq_refl eq_refl).
Defined.

(* ================================================================== *)
(** ** Companies                                                       *)
(* ================================================================== *)

Lemma trimStart_idempotent (s : string) :
  Js.trimStart (Js.trimStart s) = Js.trimStart s.
Proof.
  induction s as [|c s IH]; simpl; [reflexivity |].
  destruct (Js.isWhiteSpace c) eqn:Hc; [exact IH |].
  simpl. now rewrite Hc.
Qed.

Lemma trimEnd_idempotent (s : string) :
  Js.trimEnd (Js.trimEnd s) = Js.trimEnd s.
Proof.
  induction s as [|c s IH]; simpl; [reflexivity |].
  destruct (Js.isWhiteSpace c && (Js.trimEnd s =? "")%string) eqn:Hc;
    [reflexivity |].
  simpl. now rewrite IH, Hc.
Qed.

Lemma trimStart_trimEnd (s : string) :
  Js.trimStart (Js.trimEnd (Js.trimStart s)) = Js.trimEnd (Js.trimStart s).
Proof.
  induction s as [|c s IH]; simpl; [reflexivity |].
  destruct (Js.isWhiteSpace c) eqn:Hc; [exact IH |].
  simpl. rewrite Hc. simpl. now rewrite Hc.
Qed.

(** [trim] is idempotent. *)
Lemma trim_idempotent (s : string) : Js.trim (Js.trim s) = Js.trim s.
Proof.
  unfold Js.trim. now rewrite trimStart_trimEnd, trimEnd_idempotent.
Qed.

Lemma find_split {A : Type} (p : A -> bool) (l : list A) (x : A) :
  find p l = Some x ->
  exists pre post,
    l = (pre ++ x :: post)%list /\ p x = true
    /\ forall y, In y pre -> p y = false.
Proof.
  induction l as [|a l IH]; simpl; [discriminate |].
  destruct (p a) eqn:Ha.
  - intros [= ->]. exists [], l. repeat split; auto. intros y [].
  - intros H. destruct (IH H) as (pre & post & -> & Hx & Hpre).
    exists (a :: pre), post. repeat split; auto.
    intros y [<- | Hy]; auto.
Qed.

Lemma replaceFirst_split (q : CompanyDoc -> bool) (c' x : CompanyDoc)
    (pre post : list CompanyDoc) :
  q x = true -> (forall y, In y pre -> q y = false) ->
  Companies.replaceFirst q c' (pre ++ x :: post) = (pre ++ c' :: post)%list.
Proof.
  intros Hx. induction pre as [|a pre IH]; intros Hpre; simpl.
  - now rewrite Hx.
  - rewrite (Hpre a (or_introl eq_refl)). f_equal.
    apply IH. intros y Hy. apply Hpre. now right.
Qed.

Lemma replaceFirst_found (q : CompanyDoc -> bool) (c' x : CompanyDoc)
    (store : list CompanyDoc) :
  find q store = Some x ->
  exists pre post,
    store = (pre ++ x :: post)%list
    /\ Companies.replaceFirst q c' store = (pre ++ c' :: post)%list
    /\ q x = true
    /\ forall y, In y pre -> q y = false.
Proof.
  intros Hfind.
  destruct (find_split _ _ _ Hfind) as (pre & post & Hs & Hx & Hpre).
  exists pre, post. split; [exact Hs |]. split; [| now split].
  rewrite Hs. now apply replaceFirst_split.
Qed.

Lemma find_map {A B : Type} (f : A -> B) (p : B -> bool) (l : list A) :
  find p (map f l) = option_map f (find (fun x => p (f x)) l).
Proof.
  induction l as [|a l IH]; simpl; [reflexivity |].
  now destruct (p (f a)).
Qed.

Lemma find_all_false {A : Type} (p : A -> bool) (l : list A) :
  (forall x, In x l -> p x = false) -> find p l = None.
Proof.
  induction l as [|a l IH]; intros H; simpl; [reflexivity |].
  rewrite (H a (or_introl eq_refl)). apply IH. intros x Hx. apply H. now right.
Qed.

Lemma NoDup_insert {A : Type} (a : A) (l l' : list A) :
  NoDup (l ++ l') -> ~ In a (l ++ l') -> NoDup (l ++ a :: l').
Proof.
  intros Hl Ha. apply (NoDup_Add (Add_app a l l')). now split.
Qed.

Lemma activeNames_app (uid : string) (a b : list CompanyDoc) :
  activeNames uid (a ++ b) = (activeNames uid a ++ activeNames uid b)%list.
Proof. unfold activeNames. now rewrite filter_app, map_app. Qed.

Lemma activeNames_cons (uid : string) (c : CompanyDoc)
    (l : list CompanyDoc) :
  activeNames uid (c :: l)
  = ((if Companies.activeOf uid c then [company_name (doc c)] else [])
     ++ activeNames uid l)%list.
Proof.
  unfold activeNames. cbn [filter].
  now destruct (Companies.activeOf uid c).
Qed.

Lemma activeNames_in (uid name : string) (store : list CompanyDoc) :
  In name (activeNames uid store) ->
  exists c, In c store /\ Companies.activeOf uid c = true
            /\ company_name (doc c) = name.
Proof.
  unfold activeNames. intros H. apply in_map_iff in H as (c & Hn & Hc).
  apply filter_In in Hc as [Hc Ha]. now exists c.
Qed.

Section CompanyFacts.

Variable validId : string -> bool.
Variable castMessage : string -> string.
Variable newId : list CompanyDoc -> string.
Variable cast : EmailSettings -> EmailSettings.
Variable saveError : list CompanyDoc -> CompanyDoc -> option Companies.DbError.
Variable clock : list CompanyDoc -> Z.
Variable stamp : list CompanyDoc -> CompanyDoc -> CompanyDoc -> Z.

Abbreviation createCompany :=
  (Companies.createCompany newId cast saveError clock).
Abbreviation updateCompany :=
  (Companies.updateCompany validId castMessage cast saveError stamp).
Abbreviation deleteCompany :=
  (Companies.deleteCompany validId saveError stamp).
Abbreviation saved := (Companies.saved stamp).

(** What a successful create does to the collection. *)
Lemma createCompany_saved (uid : string) (body : Companies.Body)
    (store store' : list CompanyDoc) (st : Z) (msg : string)
    (company : CompanyDoc) :
  createCompany uid body store = (store', Companies.Saved st msg company) ->
  store' = (store ++ [company])%list
  /\ company_user (doc company) = uid
  /\ isActive (doc company) = true
  /\ company_name (doc company)
     = Js.trim (Js.or_else (Companies.b_name body) "")
  /\ find (fun c => Companies.activeOf uid c
                    && (company_name (doc c)
                        =? Js.trim (Js.or_else (Companies.b_name body) ""))%string)
       store = None.
Proof.
  unfold Companies.createCompany.
  destruct (Companies.b_emailSettings body) as [es|]; [| discriminate].
  destruct (Companies.b_senderInfo body) as [si|]; [| discriminate].
  destruct (negb (Js.truthy_opt (Companies.b_name body))); [discriminate |].
  destruct (find _ store) eqn:Hfind; [discriminate |].
  destruct (saveError store _) as [e|].
  - unfold Companies.createCatch. destruct e; discriminate.
  - intros [= <- <- <- <-]. cbn [doc company_user isActive company_name].
    rewrite trim_idempotent. auto.
Qed.

(** What a failed create does: nothing. *)
Lemma createCompany_failed (uid : string) (body : Companies.Body)
    (store store' : list CompanyDoc) (r : Companies.Response) :
  createCompany uid body store = (store', r) ->
  (forall st msg company, r <> Companies.Saved st msg company) ->
  store' = store.
Proof.
  unfold Companies.createCompany.
  destruct (Companies.b_emailSettings body) as [es|]; [| now intros [= <- <-]].
  destruct (Companies.b_senderInfo body) as [si|]; [| now intros [= <- <-]].
  destruct (negb (Js.truthy_opt (Companies.b_name body)));
    [now intros [= <- <-] |].
  destruct (find _ store); [now intros [= <- <-] |].
  destruct (saveError store _) as [e|]; [now intros [= <- <-] |].
  intros [= <- <-] H. exfalso. eapply H. reflexivity.
Qed.

(** Creating a company keeps the names of a user's active companies
    distinct: if no user has two active companies of the same name, then
    whatever the request and whether or not it is accepted, no user has
    two afterwards. *)
Theorem create_keeps_names_unique (uid : string) (body : Companies.Body)
    (store : list CompanyDoc) :
  namesUnique store ->
  namesUnique (fst (createCompany uid body store)).
Proof.
  intros Huniq.
  destruct (createCompany uid body store) as [store' r] eqn:Hrun.
  cbn [fst].
  destruct r as [st e dt|l|c|st msg company|m];
    try (now rewrite (createCompany_failed uid body store store' _ Hrun)
           by (intros; discriminate)).
  apply createCompany_saved in Hrun as (-> & Hu & Ha & Hn & Hfind).
  intros u. rewrite activeNames_app.
  rewrite activeNames_cons. unfold Companies.activeOf at 1.
  rewrite Hu, Ha, andb_true_r. cbn [activeNames filter map].
  destruct (uid =? u)%string eqn:Huu.
  - apply String.eqb_eq in Huu. subst u.
    apply NoDup_insert; rewrite app_nil_r; [apply Huniq |].
    intros Hin. apply activeNames_in in Hin as (c & Hc & Hact & Hname).
    apply (find_none _ _ Hfind) in Hc.
    rewrite Hact, Hname, Hn, String.eqb_refl in Hc. discriminate.
  - rewrite app_nil_r. apply Huniq.
Qed.

(** A company that has been created can be read: when [POST /] has
    answered 201 with a company whose id is new to the collection (and is
    an object id), [GET /:id] with that id answers with the same company,
    and [GET /] lists it. *)
Theorem created_company_can_be_read (uid : string) (body : Companies.Body)
    (store store' : list CompanyDoc) (st : Z) (msg : string)
    (company : CompanyDoc) :
  createCompany uid body store = (store', Companies.Saved st msg company) ->
  validId (company_id (doc company)) = true ->
  ~ In (company_id (doc company))
       (map (fun c => company_id (doc c)) store) ->
  Companies.getCompany validId uid (company_id (doc company)) store'
  = Companies.Found company
  /\ In company (shown (Companies.getCompanies uid store')).
Proof.
  intros Hrun Hvalid Hfresh.
  apply createCompany_saved in Hrun as (-> & Hu & Ha & _).
  split.
  - unfold Companies.getCompany. rewrite Hvalid. cbn [negb].
    assert (Hfind :
      find (fun c => Companies.ownedBy uid (company_id (doc company)) c
                     && isActive (doc c)) (store ++ [company])
      = Some company).
    { clear - Hfresh Hu Ha. induction store as [|a l IH]; cbn in *.
      - unfold Companies.ownedBy. now rewrite Hu, Ha, !String.eqb_refl.
      - unfold Companies.ownedBy at 1.
        destruct (company_id (doc a) =? company_id (doc company))%string
          eqn:Hid.
        + apply String.eqb_eq in Hid. exfalso. apply Hfresh. now left.
        + cbn [andb]. apply IH. intros H. apply Hfresh. now right. }
    now rewrite Hfind.
  - cbn [Companies.getCompanies shown]. unfold Companies.newestFirst.
    apply (Permutation_in _ (Permutation_sym (sort_stable_perm _ _))).
    apply filter_In. split; [apply in_or_app; right; now left |].
    unfold Companies.activeOf. now rewrite Hu, Ha, String.eqb_refl.
Qed.

(** What a successful update does to the collection. *)
Lemma updateCompany_saved (uid id : string) (body : Companies.Body)
    (store store' : list CompanyDoc) (st : Z) (msg : string)
    (company' : CompanyDoc) :
  updateCompany uid id body store = (store', Companies.Saved st msg company') ->
  exists company pre post,
    find (Companies.ownedBy uid id) store = Some company
    /\ store = (pre ++ company :: post)%list
    /\ store' = (pre ++ company' :: post)%list
    /\ company' = saved store company (Companies.updated cast company body)
    /\ (forall y, In y pre -> Companies.ownedBy uid id y = false)
    /\ (renames body company = true ->
        find (fun c => Companies.activeOf uid c
                       && (company_name (doc c)
                           =? Js.trim (Js.or_else (Companies.b_name body) ""))%string
                       && negb (company_id (doc c) =? id)%string) store
        = None).
Proof.
  unfold Companies.updateCompany.
  destruct (negb (validId id)); [discriminate |].
  destruct (find (Companies.ownedBy uid id) store) as [company|] eqn:Hfind;
    [| discriminate].
  fold (renames body company).
  destruct (if renames body company then _ else None) eqn:Hconf;
    [discriminate |].
  destruct (saveError store _) as [e|]; [destruct e; discriminate |].
  intros [= <- <- <- <-].
  destruct (find_split _ _ _ Hfind) as (pre & post & Hs & Hx & Hpre).
  exists company, pre, post. split; [reflexivity |].
  split; [exact Hs |]. split.
  - pose proof (replaceFirst_split (Companies.ownedBy uid id)
                  (saved store company (Companies.updated cast company body))
                  company pre post Hx Hpre) as Hrep.
    now rewrite <- Hs in Hrep.
  - split; [reflexivity |]. split; [exact Hpre |].
    intros Hr. now rewrite Hr in Hconf.
Qed.

(** What a refused update does: nothing. *)
Lemma updateCompany_failed (uid id : string) (body : Companies.Body)
    (store store' : list CompanyDoc) (r : Companies.Response) :
  updateCompany uid id body store = (store', r) ->
  (forall st msg company, r <> Companies.Saved st msg company) ->
  store' = store.
Proof.
  unfold Companies.updateCompany.
  destruct (negb (validId id)); [now intros [= <- <-] |].
  destruct (find (Companies.ownedBy uid id) store) as [company|];
    [| now intros [= <- <-]].
  fold (renames body company).
  destruct (if renames body company then _ else None);
    [now intros [= <- <-] |].
  destruct (saveError store _) as [e|]; [now intros [= <- <-] |].
  intros [= <- <-] H. exfalso. eapply H. reflexivity.
Qed.

Lemma updated_name (company : CompanyDoc) (body : Companies.Body) :
  company_name (doc (Companies.updated cast company body))
  = if renames body company
    then Js.trim (Js.or_else (Companies.b_name body) "")
    else company_name (doc company).
Proof.
  unfold Companies.updated, renames. cbn [doc company_name].
  destruct (Js.truthy_opt (Companies.b_name body)); cbn [andb];
    [| reflexivity].
  rewrite trim_idempotent.
  destruct (Js.trim (Js.or_else (Companies.b_name body) "")
            =? company_name (doc company))%string eqn:He; cbn [negb];
    [| reflexivity].
  now apply String.eqb_eq in He.
Qed.

(** Updating a company keeps the names of a user's active companies
    distinct, except when the request switches a deleted company back on
    without renaming it (the name is then not compared with the other
    companies). *)
Theorem update_keeps_names_unique (uid id : string) (body : Companies.Body)
    (store : list CompanyDoc) :
  idsUnique store ->
  namesUnique store ->
  reactivates uid id body store = false ->
  namesUnique (fst (updateCompany uid id body store)).
Proof.
  intros Hids Huniq Hre.
  destruct (updateCompany uid id body store) as [store' r] eqn:Hrun.
  cbn [fst].
  destruct r as [st e dt|l|c|st msg company'|m];
    try (now rewrite (updateCompany_failed uid id body store store' _ Hrun)
           by (intros; discriminate)).
  apply updateCompany_saved in Hrun
    as (company & pre & post & Hfind & Hs & -> & Hc' & Hpre & Hconf).
  unfold reactivates in Hre. rewrite Hfind in Hre.
  assert (Hown : Companies.ownedBy uid id company = true).
  { now apply find_some in Hfind as [_ Hfind]. }
  unfold Companies.ownedBy in Hown. apply andb_prop in Hown as [Hid Hu].
  apply String.eqb_eq in Hid. apply String.eqb_eq in Hu.
  intros u. specialize (Huniq u). rewrite Hs in Huniq.
  rewrite activeNames_app, activeNames_cons in Huniq |- *.
  assert (Hbase : NoDup (activeNames u pre ++ activeNames u post)).
  { destruct (Companies.activeOf u company); [| exact Huniq].
    now apply NoDup_remove_1 in Huniq. }
  destruct (Companies.activeOf u company') eqn:Hact'; [| exact Hbase].
  apply NoDup_insert; [exact Hbase |].
  unfold Companies.activeOf in Hact'.
  rewrite Hc' in Hact' at 1.
  cbn [Companies.saved Companies.updated doc company_user] in Hact'.
  apply andb_prop in Hact' as [Huu Hact'].
  apply String.eqb_eq in Huu. rewrite Hu in Huu. subst u.
  rewrite Hc'. cbn [Companies.saved doc]. rewrite updated_name.
  destruct (renames body company) eqn:Hren.
  - specialize (Hconf eq_refl).
    rewrite <- activeNames_app. intros Hin.
    apply activeNames_in in Hin as (y & Hy & Hya & Hyn).
    assert (Hys : In y store).
    { rewrite Hs. apply in_app_iff in Hy as [Hy|Hy];
        apply in_or_app; [now left | right; now right]. }
    apply (find_none _ _ Hconf) in Hys.
    rewrite Hya, Hyn, String.eqb_refl in Hys. cbn [andb] in Hys.
    apply negb_false_iff, String.eqb_eq in Hys.
    unfold idsUnique in Hids. rewrite Hs, map_app in Hids. cbn [map] in Hids.
    apply NoDup_remove_2 in Hids. apply Hids.
    rewrite <- map_app, Hid, <- Hys.
    now apply (in_map (fun c => company_id (doc c))).
  - destruct (isActive (doc company)) eqn:Hwas.
    + unfold Companies.activeOf in Huniq. rewrite Hu, String.eqb_refl, Hwas in Huniq.
      now apply NoDup_remove_2 in Huniq.
    + rewrite Hc' in Hact'.
      cbn [Companies.saved Companies.updated doc isActive] in Hact'.
      rewrite Hwas in Hact'. cbn [negb andb] in Hre.
      destruct (Companies.b_isActive body) as [b|]; [| discriminate].
      subst b. discriminate.
Qed.

(** What a successful delete does to the collection. *)
Lemma deleteCompany_done (uid id : string) (store store' : list CompanyDoc)
    (msg : string) :
  deleteCompany uid id store = (store', Companies.Done msg) ->
  validId id = true
  /\ exists company pre post,
       find (Companies.ownedBy uid id) store = Some company
       /\ store = (pre ++ company :: post)%list
       /\ store'
          = (pre ++ saved store company (Companies.deactivated company)
                 :: post)%list
       /\ (forall y, In y pre -> Companies.ownedBy uid id y = false).
Proof.
  unfold Companies.deleteCompany.
  destruct (validId id); cbn [negb]; [| discriminate].
  destruct (find (Companies.ownedBy uid id) store) as [company|] eqn:Hfind;
    [| discriminate].
  destruct (saveError store _) as [e|]; [destruct e; discriminate |].
  intros [= <- <-]. split; [reflexivity |].
  destruct (find_split _ _ _ Hfind) as (pre & post & Hs & Hx & Hpre).
  exists company, pre, post. split; [reflexivity |].
  split; [exact Hs |]. split; [| exact Hpre].
  pose proof (replaceFirst_split (Companies.ownedBy uid id)
                (saved store company (Companies.deactivated company))
                company pre post Hx Hpre) as Hrep.
  now rewrite <- Hs in Hrep.
Qed.

(** What a refused delete does: nothing. *)
Lemma deleteCompany_failed (uid id : string) (store store' : list CompanyDoc)
    (r : Companies.Response) :
  deleteCompany uid id store = (store', r) ->
  (forall msg, r <> Companies.Done msg) ->
  store' = store.
Proof.
  unfold Companies.deleteCompany.
  destruct (negb (validId id)); [now intros [= <- <-] |].
  destruct (find (Companies.ownedBy uid id) store) as [company|];
    [| now intros [= <- <-]].
  destruct (saveError store _) as [e|];
    [destruct e; now intros [= <- <-] |].
  intros [= <- <-] H. exfalso. eapply H. reflexivity.
Qed.

Lemma foreign_app (uid : string) (a b : list CompanyDoc) :
  foreign uid (a ++ b) = (foreign uid a ++ foreign uid b)%list.
Proof. unfold foreign. apply filter_app. Qed.

Lemma foreign_replaced (uid : string) (c c' : CompanyDoc)
    (pre post : list CompanyDoc) :
  company_user (doc c) = uid -> company_user (doc c') = uid ->
  foreign uid (pre ++ c' :: post) = foreign uid (pre ++ c :: post).
Proof.
  intros Hc Hc'. rewrite !foreign_app. f_equal.
  unfold foreign. cbn [filter]. now rewrite Hc, Hc', String.eqb_refl.
Qed.

Lemma ownedBy_user (uid id : string) (c : CompanyDoc) :
  Companies.ownedBy uid id c = true ->
  company_id (doc c) = id /\ company_user (doc c) = uid.
Proof.
  unfold Companies.ownedBy. intros H. apply andb_prop in H as [H1 H2].
  now apply String.eqb_eq in H1, H2.
Qed.

Ltac quiet := cbn [fst snd shown]; split; [constructor | reflexivity].

(** No route reaches the companies of another user: what a user is shown
    by the list, read, create, update and delete routes are companies of
    their own, and the companies of everybody else are in the collection
    afterwards exactly as they were before. *)
Theorem other_users_are_out_of_reach (uid id : string)
    (body : Companies.Body) (store : list CompanyDoc) :
  let mine := fun c : CompanyDoc => company_user (doc c) = uid in
  Forall mine (shown (Companies.getCompanies uid store))
  /\ Forall mine (shown (Companies.getCompany validId uid id store))
  /\ (Forall mine (shown (snd (createCompany uid body store)))
      /\ foreign uid (fst (createCompany uid body store)) = foreign uid store)
  /\ (Forall mine (shown (snd (updateCompany uid id body store)))
      /\ foreign uid (fst (updateCompany uid id body store))
         = foreign uid store)
  /\ (Forall mine (shown (snd (deleteCompany uid id store)))
      /\ foreign uid (fst (deleteCompany uid id store)) = foreign uid store).
Proof.
  intros mine. split; [| split; [| split; [| split]]].
  - cbn [Companies.getCompanies shown]. apply Forall_forall. intros c Hc.
    unfold Companies.newestFirst in Hc.
    apply (Permutation_in _ (sort_stable_perm _ _)) in Hc.
    apply filter_In in Hc as [_ Hc]. unfold Companies.activeOf in Hc.
    apply andb_prop in Hc as [Hc _]. now apply String.eqb_eq in Hc.
  - unfold Companies.getCompany. destruct (negb (validId id)); [constructor |].
    destruct (find _ store) as [c|] eqn:Hfind; [| constructor].
    cbn [shown]. constructor; [| constructor].
    apply find_some in Hfind as [_ Hc]. apply andb_prop in Hc as [Hc _].
    now apply ownedBy_user in Hc.
  - unfold Companies.createCompany.
    destruct (Companies.b_emailSettings body) as [es|]; [| quiet].
    destruct (Companies.b_senderInfo body) as [si|]; [| quiet].
    destruct (negb _); [quiet |].
    destruct (find _ store); [quiet |].
    destruct (saveError store _) as [err|]; [destruct err; quiet |].
    cbn [fst snd shown]. split; [now repeat constructor |].
    rewrite foreign_app. unfold foreign at 2. cbn [filter doc company_user].
    rewrite String.eqb_refl. cbn [negb]. apply app_nil_r.
  - unfold Companies.updateCompany.
    destruct (negb (validId id)); [quiet |].
    destruct (find (Companies.ownedBy uid id) store) as [company|] eqn:Hfind;
      [| quiet].
    destruct (if _ : bool then _ else None); [quiet |].
    destruct (saveError store _) as [err|]; [destruct err; quiet |].
    destruct (replaceFirst_found _
                (saved store company (Companies.updated cast company body))
                _ _ Hfind)
      as (pre & post & Hs & -> & Hx & _).
    apply ownedBy_user in Hx as [_ Hu].
    cbn [fst snd shown]. split; [now repeat constructor |].
    rewrite Hs. now apply foreign_replaced.
  - unfold Companies.deleteCompany.
    destruct (negb (validId id)); [quiet |].
    destruct (find (Companies.ownedBy uid id) store) as [company|] eqn:Hfind;
      [| quiet].
    destruct (saveError store _) as [err|]; [destruct err; quiet |].
    destruct (replaceFirst_found _
                (saved store company (Companies.deactivated company))
                _ _ Hfind)
      as (pre & post & Hs & -> & Hx & _).
    apply ownedBy_user in Hx as [_ Hu].
    cbn [fst snd shown]. split; [constructor |].
    rewrite Hs. now apply foreign_replaced.
Qed.

(** After a delete, whatever carries the id in the collection is switched
    off. *)
Lemma deleted_is_inactive (uid id : string) (store store' : list CompanyDoc)
    (msg : string) :
  idsUnique store ->
  deleteCompany uid id store = (store', Companies.Done msg) ->
  forall c, In c store' -> company_id (doc c) = id -> isActive (doc c) = false.
Proof.
  intros Hids Hrun.
  apply deleteCompany_done in Hrun
    as (_ & company & pre & post & Hfind & Hs & -> & _).
  apply find_some in Hfind as [_ Hown].
  apply ownedBy_user in Hown as [Hid _].
  unfold idsUnique in Hids. rewrite Hs, map_app in Hids. cbn [map] in Hids.
  apply NoDup_remove_2 in Hids. rewrite <- map_app, Hid in Hids.
  intros c Hc Hcid. apply in_app_iff in Hc as [Hc | [<- | Hc]].
  - exfalso. apply Hids. rewrite <- Hcid.
    apply (in_map (fun c => company_id (doc c))). apply in_or_app. now left.
  - reflexivity.
  - exfalso. apply Hids. rewrite <- Hcid.
    apply (in_map (fun c => company_id (doc c))). apply in_or_app. now right.
Qed.

Section AfterDelete.

Variable sendMail :
  list Event -> TransportOptions -> MailOptions -> JsError + SendInfo.
Variable testMail : TransportOptions -> MailOptions -> JsError + SendInfo.
Variable saveEmailError : list Event -> Email -> option JsError.
Variable now : list Event -> Z.

(** A deleted company is out of use: once [DELETE /:id] has answered
    'Company deleted successfully', the company is not read and not listed
    any more, its configuration cannot be tested, and the single and the
    bulk send route refuse to send for it and leave the ledger as it
    is. *)
Theorem deleted_company_is_out_of_use (uid id : string)
    (store store' : list CompanyDoc) (msg : string) :
  idsUnique store ->
  deleteCompany uid id store = (store', Companies.Done msg) ->
  Companies.getCompany validId uid id store'
  = Companies.Failed 404 "Company not found" None
  /\ (forall c, In c (shown (Companies.getCompanies uid store')) ->
      company_id (doc c) <> id)
  /\ (forall address,
      Companies.testEmail validId castMessage testMail uid id address store'
      = Companies.Failed 404 "Company not found" None)
  /\ (forall cl body w,
      userId cl = uid -> Routes.s_companyId body = Some id ->
      exists st err,
        Routes.send validId castMessage sendMail saveEmailError now
          (map doc store') cl body w
        = (w, Routes.SendError st err None))
  /\ (forall cl body w,
      userId cl = uid -> Routes.b_companyId body = Some id ->
      exists st err,
        Routes.sendBulk validId castMessage sendMail saveEmailError now
          (map doc store') cl body w
        = (w, Routes.BulkError st err None)).
Proof.
  intros Hids Hrun.
  pose proof (deleted_is_inactive uid id store store' msg Hids Hrun) as Hoff.
  apply deleteCompany_done in Hrun as (Hvalid & _).
  assert (Hnone : find (fun c => Companies.ownedBy uid id c && isActive (doc c))
                    store' = None).
  { apply find_all_false. intros c Hc.
    destruct (Companies.ownedBy uid id c) eqn:Hown; [| reflexivity].
    apply ownedBy_user in Hown as [Hid _]. now rewrite (Hoff c Hc Hid). }
  assert (Hroute : Routes.findCompany validId castMessage (map doc store')
                     id uid = inr None).
  { unfold Routes.findCompany. rewrite Hvalid. f_equal.
    apply find_all_false. intros c Hc.
    apply in_map_iff in Hc as (x & <- & Hx).
    destruct (company_id (doc x) =? id)%string eqn:Hid; [| reflexivity].
    apply String.eqb_eq in Hid. rewrite (Hoff x Hx Hid).
    apply andb_false_r. }
  split; [| split; [| split; [| split]]].
  - unfold Companies.getCompany. now rewrite Hvalid, Hnone.
  - cbn [Companies.getCompanies shown]. intros c Hc Hid.
    unfold Companies.newestFirst in Hc.
    apply (Permutation_in _ (sort_stable_perm _ _)) in Hc.
    apply filter_In in Hc as [Hc Hact]. unfold Companies.activeOf in Hact.
    rewrite (Hoff c Hc Hid) in Hact. now rewrite andb_false_r in Hact.
  - intros address. unfold Companies.testEmail. now rewrite Hvalid, Hnone.
  - intros cl body w Hcl Hbody. unfold Routes.send.
    destruct (negb (Js.truthy_opt (Routes.s_companyId body))
              || negb (Js.truthy_opt (Routes.s_to body))
              || negb (Js.truthy_opt (Routes.s_subject body))
              || negb (Js.truthy_opt (Routes.s_htmlContent body))) eqn:Hreq;
      [now eexists; eexists |].
    apply orb_false_elim in Hreq as [Hreq _].
    apply orb_false_elim in Hreq as [Hreq _].
    apply orb_false_elim in Hreq as [Hreq _].
    apply negb_false_iff in Hreq. rewrite Hbody in *.
    unfold Js.or_else. cbn [Js.truthy_opt] in Hreq. rewrite Hreq, Hcl, Hroute.
    now eexists; eexists.
  - intros cl body w Hcl Hbody. unfold Routes.sendBulk.
    destruct (Routes.b_recipients body) as [recipients|];
      [| now eexists; eexists].
    destruct (negb (Js.truthy_opt (Routes.b_companyId body))
              || (List.length recipients =? 0)%nat) eqn:Hreq;
      [now eexists; eexists |].
    destruct (negb (Js.truthy_opt (Routes.b_subject body))
              || negb (Js.truthy_opt (Routes.b_htmlContent body)));
      [now eexists; eexists |].
    apply orb_false_elim in Hreq as [Hreq _].
    apply negb_false_iff in Hreq. rewrite Hbody in *.
    unfold Js.or_else. cbn [Js.truthy_opt] in Hreq. rewrite Hreq, Hcl, Hroute.
    now eexists; eexists.
Qed.

End AfterDelete.

(** Deleting is soft and can be undone: when an active company has been
    deleted and the request [{ isActive: true }] is then accepted for it,
    every company of the collection is what it was before the delete, with
    its description and its creation time; only the time of the last
    update of that company may differ. *)
Theorem delete_then_restore (uid id : string)
    (store s1 s2 : list CompanyDoc) (company c2 : CompanyDoc)
    (m1 m2 : string) (st : Z) :
  find (Companies.ownedBy uid id) store = Some company ->
  isActive (doc company) = true ->
  deleteCompany uid id store = (s1, Companies.Done m1) ->
  updateCompany uid id restoreBody s1 = (s2, Companies.Saved st m2 c2) ->
  map doc s2 = map doc store
  /\ map description s2 = map description store
  /\ map c_createdAt s2 = map c_createdAt store.
Proof.
  intros Hfind Hact Hdel Hupd.
  apply deleteCompany_done in Hdel
    as (_ & company0 & pre & post & Hfind0 & Hs & -> & Hpre).
  rewrite Hfind in Hfind0. injection Hfind0 as <-.
  apply find_some in Hfind as [_ Hown].
  apply updateCompany_saved in Hupd
    as (company1 & pre1 & post1 & Hfind1 & Hs1 & -> & -> & Hpre1 & _).
  set (off := saved store company (Companies.deactivated company)) in *.
  assert (Hd : Companies.ownedBy uid id off = true).
  { unfold Companies.ownedBy in *. exact Hown. }
  assert (Hfound : find (Companies.ownedBy uid id) (pre ++ off :: post)
                   = Some off).
  { clear - Hd Hpre. induction pre as [|a pre IH]; simpl.
    - now rewrite Hd.
    - rewrite (Hpre a (or_introl eq_refl)). apply IH.
      intros y Hy. apply Hpre. now right. }
  rewrite Hfound in Hfind1. injection Hfind1 as <-.
  assert (Hsame : pre1 = pre /\ post1 = post).
  { clear - Hs1 Hpre Hpre1 Hd.
    revert pre1 Hs1 Hpre1. induction pre as [|a pre IH]; intros [|b pre1] Hs1 Hpre1.
    - injection Hs1 as <-. now split.
    - injection Hs1 as <- _. rewrite (Hpre1 _ (or_introl eq_refl)) in Hd.
      discriminate.
    - injection Hs1 as -> _. rewrite (Hpre _ (or_introl eq_refl)) in Hd.
      discriminate.
    - injection Hs1 as <- Hs1. destruct (IH (fun y Hy => Hpre y (or_intror Hy))
        pre1 Hs1 (fun y Hy => Hpre1 y (or_intror Hy))) as [-> ->]. now split. }
  destruct Hsame as [-> ->]. rewrite Hs, !map_app. cbn [map].
  destruct company as [[cid cu cn es si act] de cr up]. cbn in Hact. subst act.
  now repeat split.
Qed.

End CompanyFacts.

Lemma oneCompany_eq : oneCompany = [acmeDoc].
Proof. vm_compute. reflexivity. Qed.

Lemma oneCompany_names : namesUnique oneCompany.
Proof.
  intros u. rewrite oneCompany_eq. unfold activeNames. cbn [filter].
  destruct (Companies.activeOf u acmeDoc); cbn [map];
    repeat constructor. intros [].
Qed.

Lemma oneCompany_ids : idsUnique oneCompany.
Proof.
  rewrite oneCompany_eq. unfold idsUnique. cbn. repeat constructor. intros [].
Qed.

Lemma create_keeps_names_unique_witness :
  NoDup (activeNames "u1"
           (fst (Companies.createCompany countId asGiven savesOk countClock
                   "u1" renameBody oneCompany))).
Proof.
  apply (create_keeps_names_unique countId asGiven savesOk countClock
           "u1" renameBody oneCompany).
  exact oneCompany_names.
Defined.

Lemma update_keeps_names_unique_witness :
  NoDup (activeNames "u1"
           (fst (Companies.updateCompany anyId noCast asGiven savesOk
                   countStamp "u1" "c0" renameBody oneCompany))).
Proof.
  apply (update_keeps_names_unique anyId noCast asGiven savesOk countStamp
           "u1" "c0" renameBody oneCompany).
  - exact oneCompany_ids.
  - exact oneCompany_names.
  - vm_compute. reflexivity.
Defined.

(** The exception is real: a company is created and deleted, a second
    company of the same name is created, and the first one is switched on
    again; the four requests are accepted and the user has two active
    companies called 'Acme'. *)
Example reactivation_duplicates_a_name :
  activeNames "u1" oneCompany = ["Acme"]
  /\ activeNames "u1" afterDelete = []
  /\ activeNames "u1" afterSecond = ["Acme"]
  /\ reactivates "u1" "c0" restoreBody afterSecond = true
  /\ activeNames "u1" afterRestore = ["Acme"; "Acme"].
Proof. repeat split; vm_compute; reflexivity. Qed.

Lemma deleted_company_is_out_of_use_witness :
  Companies.getCompany anyId "u1" "c0" afterDelete
  = Companies.Failed 404 "Company not found" None.
Proof.
  apply (deleted_company_is_out_of_use anyId noCast savesOk countStamp
           acceptAll (fun _ _ => inl connectionRefused) alwaysSaved stillClock
           "u1" "c0" oneCompany afterDelete "Company deleted successfully").
  - exact oneCompany_ids.
  - vm_compute. reflexivity.
Defined.

Lemma delete_then_restore_witness :
  map doc
    (fst (Companies.updateCompany anyId noCast asGiven savesOk countStamp
            "u1" "c0" restoreBody afterDelete))
  = map doc oneCompany.
Proof.
  apply (delete_then_restore anyId noCast asGiven savesOk countStamp
           "u1" "c0" oneCompany afterDelete _ acmeDoc
           (Companies.saved countStamp afterDelete
              (Companies.saved countStamp oneCompany acmeDoc
                 (Companies.deactivated acmeDoc))
              (Companies.updated asGiven
                 (Companies.saved countStamp oneCompany acmeDoc
                    (Companies.deactivated acmeDoc))
                 restoreBody))
           "Company deleted successfully" "Company updated successfully" 200).
  - vm_compute. reflexivity.
  - reflexivity.
  - vm_compute. reflexivity.
  - vm_compute. reflexivity.
Defined.

Lemma created_company_can_be_read_witness :
  Companies.getCompany anyId "u1" (company_id (doc acmeDoc)) oneCompany
  = Companies.Found acmeDoc
  /\ In acmeDoc (shown (Companies.getCompanies "u1" oneCompany)).
Proof.
  apply (created_company_can_be_read anyId countId asGiven savesOk countClock
           "u1" acmeBody [] oneCompany 201 "Company created successfully"
           acmeDoc).
  - vm_compute. reflexivity.
  - reflexivity.
  - intros [].
Defined.

(** ** Testing a configuration *)

(** The test of a configuration never succeeds.  Whatever the request and
    whatever the transport would answer, [POST /:id/test-email] does not
    answer 'Test email sent successfully', and its answer does not depend
    on the transport: nothing is handed to it.  For an active company of
    the caller with a supported email type and a test address, the answer
    is 500 'Failed to send test email', with the TypeError of
    [nodemailer.createTransporter] in its details. *)
Theorem test_email_never_succeeds (validId : string -> bool)
    (castMessage : string -> string)
    (testMail : TransportOptions -> MailOptions -> JsError + SendInfo)
    (uid id : string) (address : option string) (store : list CompanyDoc) :
  (forall msg,
      Companies.testEmail validId castMessage testMail uid id address store
      <> Companies.Done msg)
  /\ (forall other : TransportOptions -> MailOptions -> JsError + SendInfo,
        Companies.testEmail validId castMessage other uid id address store
        = Companies.testEmail validId castMessage testMail uid id address
            store)
  /\ (forall company options,
        validId id = true ->
        find (fun c => Companies.ownedBy uid id c && isActive (doc c)) store
        = Some company ->
        Js.truthy_opt address = true ->
        Companies.transporterOptions (emailSettings (doc company))
        = Some options ->
        Companies.testEmail validId castMessage testMail uid id address store
        = Companies.Failed 500 "Failed to send test email"
            (Some "nodemailer.createTransporter is not a function")).
Proof.
  unfold Companies.testEmail. split; [| split].
  - intros msg.
    destruct (negb (validId id)); [discriminate |].
    destruct (find _ store) as [c|]; [| discriminate].
    destruct (negb (Js.truthy_opt address)); [discriminate |].
    destruct (Companies.transporterOptions _); discriminate.
  - intros other.
    destruct (negb (validId id)); [reflexivity |].
    destruct (find _ store) as [c|]; [| reflexivity].
    destruct (negb (Js.truthy_opt address)); [reflexivity |].
    destruct (Companies.transporterOptions _); reflexivity.
  - intros company options Hvalid Hfind Haddr Ht.
    now rewrite Hvalid, Hfind, Haddr, Ht.
Qed.

(* ================================================================== *)
(** ** The file-backed server: accounts                                *)
(* ================================================================== *)

Section AccountFacts.

Variable clock : nat -> Z.
Variable writeOk : nat -> bool.
Variable hash : nat -> string -> string.
Variable compare : string -> string -> bool.
Variable sign : nat -> string -> string.
Variable verify : nat -> string -> option string.

Abbreviation register := (Accounts.register clock writeOk hash sign).
Abbreviation login := (Accounts.login clock writeOk compare sign).

(** What an accepted registration is. *)
Lemma register_signed (body : Accounts.RegisterBody)
    (s s1 : Accounts.Server) (st : Z) (msg token : string)
    (u : Accounts.PublicUser) :
  register body s = (s1, Accounts.Signed st msg token u) ->
  exists newUser : Accounts.User,
    Js.truthy_opt (Accounts.r_email body) = true
    /\ Js.truthy_opt (Accounts.r_password body) = true
    /\ find (fun user => (Accounts.u_email user
                          =? Js.or_else (Accounts.r_email body) "")%string)
         (storedUsers s) = None
    /\ Accounts.u_email newUser = Js.or_else (Accounts.r_email body) ""
    /\ Accounts.u_password newUser
       = hash (Accounts.tick s) (Js.or_else (Accounts.r_password body) "")
    /\ u = Accounts.public newUser
    /\ Accounts.dbFile s1
       = (if writeOk (5 + Accounts.tick s)
          then Accounts.Holds
                 {| Accounts.users := (storedUsers s ++ [newUser])%list;
                    Accounts.companies := storedCompanies s;
                    Accounts.db_emails := Accounts.db_emails (Accounts.readDB s) |}
          else Accounts.dbFile s).
Proof.
  unfold Accounts.register.
  destruct (negb (Js.truthy_opt (Accounts.r_email body))
            || negb (Js.truthy_opt (Accounts.r_password body))
            || negb (Js.truthy_opt (Accounts.r_firstName body))
            || negb (Js.truthy_opt (Accounts.r_lastName body))) eqn:Hreq;
    [discriminate |].
  destruct (String.length _ <? 6)%nat; [discriminate |].
  destruct (find _ (Accounts.users (Accounts.readDB s))) eqn:Hfind;
    [discriminate |].
  intros [= <- <- <- <- <-].
  apply orb_false_elim in Hreq as [Hreq _].
  apply orb_false_elim in Hreq as [Hreq _].
  apply orb_false_elim in Hreq as [He Hp].
  apply negb_false_iff in He, Hp.
  eexists. split; [exact He |]. split; [exact Hp |].
  split; [exact Hfind |].
  split; [| split; [| split]].
  4: reflexivity.
  all: reflexivity.
Qed.

(** Registering and then logging in: when a registration has been
    answered with 201, a login with the same email and password on the
    server it leaves is accepted, for the same user, exactly when the
    database could be written; when the write failed the registration was
    answered 201 all the same, the account does not exist, and the login
    is refused. *)
Theorem register_then_login (body : Accounts.RegisterBody)
    (s s1 : Accounts.Server) (st : Z) (msg token : string)
    (u : Accounts.PublicUser) :
  (forall (k : nat) (p : string), compare p (hash k p) = true) ->
  register body s = (s1, Accounts.Signed st msg token u) ->
  if writeOk (5 + Accounts.tick s)
  then exists token',
      snd (login (loginOf body) s1)
      = Accounts.Signed 200 "Login successful" token' u
  else snd (login (loginOf body) s1)
       = Accounts.Failed 401 "Invalid email or password".
Proof.
  intros Hlaw Hreg.
  apply register_signed in Hreg
    as (newUser & He & Hp & Hfind & Hue & Hup & -> & Hfile).
  unfold Accounts.login, loginOf.
  cbn [Accounts.l_email Accounts.l_password]. rewrite He, Hp. cbn [negb orb].
  unfold Accounts.readDB. rewrite Hfile.
  destruct (writeOk (5 + Accounts.tick s)).
  - cbn [Accounts.users].
    assert (Hnew : find (fun u0 => (Accounts.u_email u0
                                    =? Js.or_else (Accounts.r_email body) "")%string)
                     (storedUsers s ++ [newUser]) = Some newUser).
    { clear - Hfind Hue. induction (storedUsers s) as [|a l IH]; simpl in *.
      - now rewrite Hue, String.eqb_refl.
      - destruct (Accounts.u_email a =? _)%string; [discriminate |].
        now apply IH. }
    rewrite Hnew, Hup, Hlaw. cbn [negb snd]. eexists. reflexivity.
  - fold (Accounts.readDB s). unfold storedUsers in Hfind.
    now rewrite Hfind.
Qed.

Lemma setFirstUser_emails (q : Accounts.User -> bool) (u u' : Accounts.User)
    (l : list Accounts.User) :
  find q l = Some u -> Accounts.u_email u' = Accounts.u_email u ->
  map Accounts.u_email (Accounts.setFirstUser q u' l)
  = map Accounts.u_email l.
Proof.
  intros Hfind He. induction l as [|a l IH]; simpl in *; [reflexivity |].
  destruct (q a).
  - injection Hfind as ->. simpl. now rewrite He.
  - simpl. f_equal. now apply IH.
Qed.

(** Accounts keep distinct email addresses: if no two accounts of the
    database share an address, none do after a registration or a login,
    whatever the request and whether or not the file could be written. *)
Theorem accounts_keep_emails_unique (rbody : Accounts.RegisterBody)
    (lbody : Accounts.LoginBody) (s : Accounts.Server) :
  emailsUnique s ->
  emailsUnique (fst (register rbody s))
  /\ emailsUnique (fst (login lbody s)).
Proof.
  intros Huniq. split.
  - destruct (register rbody s) as [s1 r] eqn:Hreg. cbn [fst].
    destruct r as [st e|st msg token u|u|l|st msg c|m];
      try (revert Hreg; unfold Accounts.register;
           destruct (_ || _); [now intros [= <- _] |];
           destruct (_ <? _)%nat; [now intros [= <- _] |];
           destruct (find _ _); [now intros [= <- _] | discriminate]).
    apply register_signed in Hreg
      as (newUser & _ & _ & Hfind & Hue & _ & _ & Hfile).
    unfold emailsUnique, storedUsers, Accounts.readDB in *. rewrite Hfile.
    destruct (writeOk _); [| exact Huniq].
    cbn [Accounts.users]. fold (Accounts.readDB s). rewrite map_app.
    cbn [map]. apply NoDup_insert; rewrite app_nil_r; [exact Huniq |].
    intros Hin. apply in_map_iff in Hin as (x & Hx & Hin).
    apply (find_none _ _ Hfind) in Hin. rewrite Hx, Hue, String.eqb_refl in Hin.
    discriminate.
  - unfold Accounts.login.
    destruct (_ || _); [exact Huniq |].
    destruct (find _ _) as [user|] eqn:Hfind; [| exact Huniq].
    destruct (negb _); [exact Huniq |].
    unfold emailsUnique, storedUsers, Accounts.readDB, Accounts.writeDB.
    cbn [fst Accounts.dbFile Accounts.tick].
    destruct (writeOk _); [| exact Huniq].
    cbn [Accounts.users]. fold (Accounts.readDB s).
    rewrite (setFirstUser_emails _ user) by (auto; reflexivity).
    exact Huniq.
Qed.

Lemma upToSpace_spaceless (t : string) :
  occurs " " t = false -> Accounts.upToSpace t = t.
Proof.
  induction t as [|c t IH]; cbn; [reflexivity |].
  intros H. apply orb_false_elim in H as [Hc H]. rewrite Hc.
  now rewrite (IH H).
Qed.

(** The token of a registration opens the profile of the new account:
    when the registration has been answered with 201 and written, and no
    older account has the same id (the id is the time of the request in
    milliseconds), the profile route called with the token as a bearer
    token answers with the user of the registration, provided the token
    holds no space and the token library verifies it for that user. *)
Theorem issued_token_opens_profile (body : Accounts.RegisterBody)
    (s s1 : Accounts.Server) (st : Z) (msg token : string)
    (u : Accounts.PublicUser) :
  register body s = (s1, Accounts.Signed st msg token u) ->
  writeOk (5 + Accounts.tick s) = true ->
  ~ In (Accounts.p_id u) (map Accounts.u_id (storedUsers s)) ->
  occurs " " token = false -> token <> EmptyString ->
  verify (Accounts.tick s1) token = Some (Accounts.p_id u) ->
  Accounts.profile verify (Some ("Bearer " ++ token)) s1 = Accounts.Profile u.
Proof.
  intros Hreg Hw Hfresh Hsp Hne Hver.
  apply register_signed in Hreg
    as (newUser & _ & _ & _ & _ & _ & -> & Hfile).
  rewrite Hw in Hfile.
  unfold Accounts.profile, Accounts.authenticateToken, Accounts.tokenOfHeader.
  replace (Js.truthy ("Bearer " ++ token)) with true by reflexivity.
  cbn [append Accounts.afterSpace Ascii.eqb Bool.eqb option_map].
  rewrite (upToSpace_spaceless _ Hsp).
  unfold Js.truthy. apply String.eqb_neq in Hne. rewrite Hne. cbn [negb].
  rewrite Hver. unfold Accounts.readDB. rewrite Hfile. cbn [Accounts.users].
  cbn [Accounts.public Accounts.p_id] in *.
  assert (Hfind : find (fun u0 => (Accounts.u_id u0
                                   =? Accounts.u_id newUser)%string)
                    (storedUsers s ++ [newUser]) = Some newUser).
  { clear - Hfresh. induction (storedUsers s) as [|a l IH]; cbn in *.
    - now rewrite String.eqb_refl.
    - destruct (Accounts.u_id a =? Accounts.u_id newUser)%string eqn:Ha.
      + apply String.eqb_eq in Ha. exfalso. apply Hfresh. now left.
      + apply IH. intros H. apply Hfresh. now right. }
  now rewrite Hfind.
Qed.

End AccountFacts.

Lemma register_then_login_witness :
  exists token',
    snd (Accounts.login tickClock diskOk prefixCompare plainSign
           (loginOf annRegisters) annRegistered)
    = Accounts.Signed 200 "Login successful" token' ann.
Proof.
  apply (register_then_login tickClock diskOk prefixHash prefixCompare
           plainSign annRegisters emptyServer annRegistered 201
           "User registered successfully" "jwt.1" ann).
  - intros k p. unfold prefixCompare, prefixHash. apply String.eqb_refl.
  - vm_compute. reflexivity.
Defined.

(** The other branch: the disk is full, the registration is answered 201
    and the login that follows is refused. *)
Example registration_lost :
  snd (Accounts.register tickClock diskFull prefixHash plainSign
         annRegisters emptyServer)
  = Accounts.Signed 201 "User registered successfully" "jwt.1" ann
  /\ snd (Accounts.login tickClock diskFull prefixCompare plainSign
            (loginOf annRegisters)
            (fst (Accounts.register tickClock diskFull prefixHash plainSign
                    annRegisters emptyServer)))
     = Accounts.Failed 401 "Invalid email or password".
Proof. split; vm_compute; reflexivity. Qed.

Lemma accounts_keep_emails_unique_witness :
  emailsUnique annRegistered
  /\ emailsUnique
       (fst (Accounts.login tickClock diskOk prefixCompare plainSign
               (loginOf annRegisters) emptyServer)).
Proof.
  apply (accounts_keep_emails_unique tickClock diskOk prefixHash prefixCompare
           plainSign annRegisters (loginOf annRegisters) emptyServer).
  constructor.
Defined.

Lemma issued_token_opens_profile_witness :
  Accounts.profile plainVerify (Some ("Bearer " ++ "jwt.1")) annRegistered
  = Accounts.Profile ann.
Proof.
  apply (issued_token_opens_profile tickClock diskOk prefixHash plainSign
           plainVerify annRegisters emptyServer annRegistered 201
           "User registered successfully" "jwt.1" ann).
  - vm_compute. reflexivity.
  - reflexivity.
  - intros [].
  - reflexivity.
  - discriminate.
  - reflexivity.
Defined.

(* ================================================================== *)
(** ** The file-backed server: companies                               *)
(* ================================================================== *)

Lemma setFirst_found (q : CompanyDoc -> bool) (c' x : CompanyDoc)
    (l : list CompanyDoc) :
  find q l = Some x ->
  exists pre post,
    l = (pre ++ x :: post)%list
    /\ Accounts.setFirst q c' l = (pre ++ c' :: post)%list
    /\ q x = true
    /\ forall y, In y pre -> q y = false.
Proof.
  intros Hfind.
  destruct (find_split _ _ _ Hfind) as (pre & post & Hs & Hx & Hpre).
  exists pre, post. split; [exact Hs |]. split; [| now split].
  rewrite Hs. clear Hs Hfind.
  induction pre as [|a pre IH]; simpl.
  - now rewrite Hx.
  - rewrite (Hpre a (or_introl eq_refl)). f_equal.
    apply IH. intros y Hy. apply Hpre. now right.
Qed.

Section AccountCompanies.

Variable clock : nat -> Z.
Variable writeOk : nat -> bool.
Variable verify : nat -> string -> option string.

Abbreviation authenticateToken := (Accounts.authenticateToken verify).
Abbreviation updateCompany := (Accounts.updateCompany clock writeOk verify).
Abbreviation deleteCompany := (Accounts.deleteCompany clock writeOk verify).

(** What an accepted delete does to the file. *)
Lemma accounts_delete_done (h : option string) (id uid : string)
    (s s1 : Accounts.Server) (msg : string) :
  authenticateToken h s = inr uid ->
  deleteCompany h id s = (s1, Accounts.Done msg) ->
  exists company pre post,
    storedCompanies s = (pre ++ company :: post)%list
    /\ Accounts.activeWithId uid id company = true
    /\ Accounts.dbFile s1
       = (if writeOk (S (Accounts.tick s))
          then Accounts.Holds
                 {| Accounts.users := storedUsers s;
                    Accounts.companies :=
                      (pre ++ Accounts.deactivated company
                                (clock (Accounts.tick s)) :: post)%list;
                    Accounts.db_emails :=
                      Accounts.db_emails (Accounts.readDB s) |}
          else Accounts.dbFile s).
Proof.
  intros Hauth. unfold Accounts.deleteCompany. rewrite Hauth.
  destruct (find _ _) as [company|] eqn:Hfind; [| discriminate].
  intros [= <- _].
  destruct (setFirst_found _
              (Accounts.deactivated company (clock (Accounts.tick s)))
              _ _ Hfind) as (pre & post & Hs & Hset & Hx & _).
  exists company, pre, post. split; [exact Hs |]. split; [exact Hx |].
  unfold Accounts.writeDB. cbn [Accounts.dbFile Accounts.tick].
  now rewrite Hset.
Qed.

Section StillSends.

Variable sendMail :
  list Event -> TransportOptions -> MailOptions -> JsError + SendInfo.
Variable writeEmailOk : list Event -> bool.
Variable now : list Event -> Z.

(** In the file-backed server a deleted company is hidden but not out of
    use: once [DELETE /api/companies/:id] has been accepted and written,
    the company is not listed any more, but [POST /api/emails/send] still
    finds it (the lookup does not read [isActive]) and, for a company
    whose type is supported, hands the message to the transport. *)
Theorem deleted_company_still_sends (h : option string) (id uid : string)
    (s s1 : Accounts.Server) (msg : string) :
  idsUnique (storedCompanies s) ->
  authenticateToken h s = inr uid ->
  deleteCompany h id s = (s1, Accounts.Done msg) ->
  writeOk (S (Accounts.tick s)) = true ->
  (forall c, In c (filter (Accounts.activeOf uid) (storedCompanies s1)) ->
             company_id (doc c) <> id)
  /\ exists company,
       Simple.findCompany (map doc (storedCompanies s1)) (Some id) uid
       = Some company
       /\ isActive company = false
       /\ forall cl body w transporter,
            userId cl = uid ->
            Simple.sb_companyId body = Some id ->
            Simple.transporterOptions (emailSettings company)
            = Some transporter ->
            exists m,
              In (EvSend transporter m)
                 (trace (fst (Simple.send sendMail writeEmailOk now
                                (map doc (storedCompanies s1)) cl body w))).
Proof.
  intros Hids Hauth Hdel Hw.
  destruct (accounts_delete_done h id uid s s1 msg Hauth Hdel)
    as (company & pre & post & Hs & Hx & Hfile).
  rewrite Hw in Hfile.
  unfold Accounts.activeWithId in Hx.
  apply andb_prop in Hx as [Hx Hact]. apply andb_prop in Hx as [Hid Hu].
  apply String.eqb_eq in Hid, Hu.
  unfold idsUnique in Hids. rewrite Hs, map_app in Hids. cbn [map] in Hids.
  apply NoDup_remove_2 in Hids. rewrite <- map_app, Hid in Hids.
  assert (Hother : forall y, In y pre \/ In y post -> company_id (doc y) <> id).
  { intros y Hy Hyid. apply Hids. rewrite <- Hyid.
    apply (in_map (fun c => company_id (doc c))). now apply in_or_app. }
  unfold storedCompanies, Accounts.readDB. rewrite Hfile.
  cbn [Accounts.companies].
  split.
  - intros c Hc. apply filter_In in Hc as [Hc Hca].
    apply in_app_iff in Hc as [Hc | [<- | Hc]]; [now apply Hother; left | |
      now apply Hother; right].
    unfold Accounts.activeOf in Hca.
    cbn [Accounts.deactivated doc isActive] in Hca.
    now rewrite andb_false_r in Hca.
  - exists (doc (Accounts.deactivated company (clock (Accounts.tick s)))).
    assert (Hfound :
      Simple.findCompany
        (map doc (pre ++ Accounts.deactivated company
                           (clock (Accounts.tick s)) :: post))
        (Some id) uid
      = Some (doc (Accounts.deactivated company (clock (Accounts.tick s))))).
    { unfold Simple.findCompany. rewrite find_map.
      clear - Hother Hid Hu. induction pre as [|a pre IH]; simpl.
      - apply String.eqb_eq in Hid, Hu. now rewrite Hid, Hu.
      - assert (Ha : (company_id (doc a) =? id)%string = false).
        { apply String.eqb_neq. apply Hother. left. now left. }
        rewrite Ha. cbn [andb]. apply IH.
        intros y [Hy|Hy]; apply Hother; [left; now right | now right]. }
    split; [exact Hfound |]. split; [reflexivity |].
    intros cl body w transporter Hcl Hbody Ht.
    unfold Simple.send. rewrite Hbody, Hcl, Hfound, Ht.
    eexists.
    destruct (sendMail _ _ _) as [error|info]; cbn [fst].
    + unfold record_event. cbn [trace]. apply in_or_app. right. now left.
    + unfold Simple.writeDB, record_event.
      destruct (writeEmailOk _); cbn [trace]; apply in_or_app; left;
        apply in_or_app; right; now left.
Qed.

End StillSends.

(** [PUT /api/companies/:id] changes one company, and of it only what the
    request gives: the company that was found keeps its id, its owner,
    its time of creation and its active flag; a key that is absent from
    the request, and a name that is blank, leave the value as it was; a
    name that is given is stored untrimmed; and every other company of the
    file is where and what it was. *)
Theorem update_touches_what_is_given (h : option string) (id uid : string)
    (body : Accounts.UpdateBody) (s s1 : Accounts.Server) (st : Z)
    (msg : string) (c' : CompanyDoc) :
  authenticateToken h s = inr uid ->
  updateCompany h id body s = (s1, Accounts.Saved st msg c') ->
  exists current pre post,
    storedCompanies s = (pre ++ current :: post)%list
    /\ storedCompanies s1
       = (if writeOk (S (Accounts.tick s))
          then (pre ++ c' :: post)%list else storedCompanies s)
    /\ company_id (doc c') = id
    /\ company_user (doc c') = uid
    /\ isActive (doc c') = true
    /\ c_createdAt c' = c_createdAt current
    /\ company_name (doc c')
       = match Accounts.up_name body with
         | Some name =>
             if (Js.trim name =? "")%string
             then company_name (doc current) else name
         | None => company_name (doc current)
         end
    /\ (Accounts.up_emailSettings body = None ->
        emailSettings (doc c') = emailSettings (doc current))
    /\ (Accounts.up_senderInfo body = None ->
        senderInfo (doc c') = senderInfo (doc current))
    /\ (Accounts.up_description body = None ->
        description c' = description current).
Proof.
  intros Hauth. unfold Accounts.updateCompany. rewrite Hauth.
  destruct (find _ _) as [current|] eqn:Hfind; [| discriminate].
  intros [= <- <- <- <-].
  destruct (setFirst_found _
              (Accounts.updatedCompany current body (clock (Accounts.tick s)))
              _ _ Hfind) as (pre & post & Hs & Hset & Hx & _).
  unfold Accounts.activeWithId in Hx.
  apply andb_prop in Hx as [Hx Hact]. apply andb_prop in Hx as [Hid Hu].
  apply String.eqb_eq in Hid, Hu.
  exists current, pre, post. split; [exact Hs |].
  split.
  { unfold storedCompanies at 1, Accounts.readDB at 1, Accounts.writeDB.
    cbn [Accounts.dbFile Accounts.tick].
    destruct (writeOk _); [cbn [Accounts.companies]; exact Hset | reflexivity]. }
  cbn [Accounts.updatedCompany doc company_id company_user isActive
       c_createdAt company_name emailSettings senderInfo description].
  repeat split; auto.
  - destruct (Accounts.up_name body) as [name|]; [| reflexivity].
    unfold Js.truthy. now destruct (Js.trim name =? "")%string.
  - now intros ->.
  - now intros ->.
  - now intros ->.
Qed.

End AccountCompanies.

Lemma deleted_company_still_sends_witness :
  exists company,
    Simple.findCompany (map doc (storedCompanies annAfterDelete)) (Some "7") "1"
    = Some company
    /\ isActive company = false
    /\ company_name company = "Acme".
Proof.
  destruct (deleted_company_still_sends tickClock diskOk plainVerify
              acceptAll ledgerWritten stillClock annHeader "7" "1"
              annWithCompany annAfterDelete "Company deleted successfully")
    as [_ (company & Hfound & Hoff & _)].
  - unfold idsUnique. vm_compute. repeat constructor. intros [].
  - vm_compute. reflexivity.
  - vm_compute. reflexivity.
  - reflexivity.
  - exists company. split; [exact Hfound |]. split; [exact Hoff |].
    revert Hfound. vm_compute. now intros [= <-].
Defined.

Lemma update_touches_what_is_given_witness :
  exists current pre post,
    storedCompanies annWithCompany = (pre ++ current :: post)%list
    /\ company_name (doc current) = "Acme".
Proof.
  destruct (update_touches_what_is_given tickClock diskOk plainVerify
              annHeader "7" "1" describeBody annWithCompany
              (fst (Accounts.updateCompany tickClock diskOk plainVerify
                      annHeader "7" describeBody annWithCompany))
              200 "Company updated successfully"
              (Accounts.updatedCompany
                 {| doc := {| company_id := "7"; company_user := "1";
                              company_name := "Acme";
                              emailSettings := gmailSettings;
                              senderInfo := {| senderName := "Ops";
                                               signature := None |};
                              isActive := true |};
                    description := None;
                    c_createdAt := 8; c_updatedAt := 9 |}
                 describeBody 11))
    as (current & pre & post & Hs & _ & _ & _ & _ & _ & Hname & _).
  - vm_compute. reflexivity.
  - vm_compute. reflexivity.
  - exists current, pre, post. split; [exact Hs |]. symmetry. exact Hname.
Defined.

(* ================================================================== *)
(** ** Regular expressions: the matcher finds a match when there is one *)
(* ================================================================== *)

Lemma starLoop_spec {T : Type}
    (step : option ascii -> string ->
            (option ascii -> string -> option T) -> option T)
    (R : position -> position -> Prop)
    (k : option ascii -> string -> option T) :
  (forall k1 prev s,
      (exists v, step prev s k1 = Some v)
      <-> exists y, R (prev, s) y /\ exists v, k1 (fst y) (snd y) = Some v) ->
  forall fuel prev s,
    (String.length s < fuel)%nat ->
    (exists v, Re.starLoop step k fuel prev s = Some v)
    <-> exists y, Iter R (prev, s) y /\ exists v, k (fst y) (snd y) = Some v.
Proof.
  intros Hstep. induction fuel as [|fuel IH]; intros prev s Hlen; [lia |].
  cbn [Re.starLoop].
  set (k1 := fun p1 s1 =>
               if (String.length s1 <? String.length s)%nat
               then Re.starLoop step k fuel p1 s1 else None).
  split.
  - intros [v Hv].
    destruct (step prev s k1) as [v1|] eqn:Hs.
    + destruct (proj1 (Hstep k1 prev s) (ex_intro _ v1 Hs))
        as ([p1 s1] & HR & v2 & Hk1).
      unfold k1 in Hk1. cbn [fst snd] in Hk1.
      destruct (Nat.ltb_spec (String.length s1) (String.length s)) as [Hlt|];
        [| discriminate].
      destruct (proj1 (IH p1 s1 ltac:(lia)) (ex_intro _ v2 Hk1))
        as (y & Hit & Hy).
      exists y. split; [| exact Hy].
      now apply (IterStep R (prev, s) (p1, s1) y).
    + exists (prev, s). split; [constructor |]. now exists v.
  - intros (y & Hit & v & Hv).
    destruct (step prev s k1) as [v1|] eqn:Hs; [now exists v1 |].
    inversion Hit as [x Hx | x [p1 s1] z HR Hlt Hrest Hx Hz]; subst.
    + now exists v.
    + exfalso. cbn [snd] in Hlt.
      assert (Hsome : exists v2, step prev s k1 = Some v2).
      { apply Hstep. exists (p1, s1). split; [exact HR |].
        unfold k1. cbn [fst snd].
        destruct (Nat.ltb_spec (String.length s1) (String.length s));
          [| lia].
        apply IH; [lia |]. exists y. split; [exact Hrest | now exists v]. }
      destruct Hsome as [v2 Hv2]. congruence.
Qed.

(** The matcher succeeds exactly when the expression has a match at the
    position after which the continuation succeeds. *)
Lemma matchAt_spec (r : Re.regex) :
  forall (T : Type) (k : option ascii -> string -> option T)
         (prev : option ascii) (s : string),
    (exists v, Re.matchAt r prev s k = Some v)
    <-> exists y, Matches r (prev, s) y
                  /\ exists v, k (fst y) (snd y) = Some v.
Proof.
  induction r as [p| |a IHa b IHb|a IHa b IHb|a IHa|a IHa| | |];
    intros T k prev s; cbn [Re.matchAt Matches].
  - (* Chr *)
    split.
    + intros [v Hv]. destruct s as [|c s]; [discriminate |].
      destruct (p c) eqn:Hp; [| discriminate].
      exists (Some c, s). split; [now exists c | now exists v].
    + intros ([p1 s1] & (c & Hs & Hp & Hf) & v & Hv).
      cbn [fst snd] in *. subst. rewrite Hp. now exists v.
  - (* Empty *)
    split.
    + intros [v Hv]. exists (prev, s). split; [reflexivity | now exists v].
    + intros (y & -> & Hv). exact Hv.
  - (* Seq *)
    rewrite IHa. split.
    + intros ([p1 s1] & Ha & Hb). cbn [fst snd] in Hb.
      apply IHb in Hb as (y & Hb & Hv).
      exists y. split; [now exists (p1, s1) | exact Hv].
    + intros (y & ([p1 s1] & Ha & Hb) & Hv).
      exists (p1, s1). split; [exact Ha |]. cbn [fst snd].
      apply IHb. now exists y.
  - (* Alt *)
    split.
    + intros [v Hv]. destruct (Re.matchAt a prev s k) as [v1|] eqn:Ha.
      * destruct (proj1 (IHa T k prev s) (ex_intro _ v1 Ha)) as (y & Hy & Hk).
        exists y. split; [now left | exact Hk].
      * destruct (proj1 (IHb T k prev s) (ex_intro _ v Hv)) as (y & Hy & Hk).
        exists y. split; [now right | exact Hk].
    + intros (y & [Hy|Hy] & Hk).
      * destruct (proj2 (IHa T k prev s) (ex_intro _ y (conj Hy Hk)))
          as [v Hv]. rewrite Hv. now exists v.
      * destruct (Re.matchAt a prev s k) as [v1|]; [now exists v1 |].
        apply IHb. now exists y.
  - (* Star *)
    apply (starLoop_spec _ (Matches a)); [| lia].
    intros k1 p1 s1. apply IHa.
  - (* NotAhead *)
    split.
    + intros [v Hv].
      destruct (Re.matchAt a prev s (fun _ _ => Some tt)) as [u|] eqn:Ha;
        [discriminate |].
      exists (prev, s). split; [| now exists v].
      split; [reflexivity |]. intros z Hz.
      destruct (proj2 (IHa unit (fun _ _ => Some tt) prev s)
                  (ex_intro _ z (conj Hz (ex_intro _ tt eq_refl))))
        as [u Hu]. congruence.
    + intros (y & (-> & Hno) & Hk). cbn [fst snd] in Hk.
      destruct (Re.matchAt a prev s (fun _ _ => Some tt)) as [u|] eqn:Ha;
        [| exact Hk].
      exfalso.
      destruct (proj1 (IHa unit (fun _ _ => Some tt) prev s)
                  (ex_intro _ u Ha)) as (z & Hz & _).
      exact (Hno z Hz).
  - (* Boundary *)
    split.
    + intros [v Hv].
      destruct (xorb (Re.wordBefore prev) (Re.wordAfter s)) eqn:Hx;
        [| discriminate].
      exists (prev, s). split; [now split | now exists v].
    + intros (y & (-> & Hx) & Hk). cbn [fst snd] in *. now rewrite Hx.
  - (* Bol *)
    split.
    + intros [v Hv]. destruct prev; [discriminate |].
      exists (None, s). split; [now split | now exists v].
    + intros (y & (-> & Hx) & Hk). cbn [fst snd] in *. now subst.
  - (* Eol *)
    split.
    + intros [v Hv]. destruct s; [| discriminate].
      exists (prev, ""). split; [now split | now exists v].
    + intros (y & (-> & Hx) & Hk). cbn [fst snd] in *. now subst.
Qed.

(** A match ends in the text it started in. *)
Lemma Matches_suffix (r : Re.regex) :
  forall x y, Matches r x y -> exists m, snd x = (m ++ snd y)%string.
Proof.
  induction r as [p| |a IHa b IHb|a IHa b IHb|a IHa|a IHa| | |];
    intros x y; cbn [Matches].
  - intros (c & Hs & _). exists (String c ""). now rewrite Hs.
  - intros ->. now exists "".
  - intros (m & Ha & Hb). apply IHa in Ha as [m1 H1].
    apply IHb in Hb as [m2 H2]. exists (m1 ++ m2)%string.
    rewrite H1, H2. clear. induction m1; simpl; congruence.
  - intros [H|H]; [now apply IHa | now apply IHb].
  - induction 1 as [x|x y z HR _ _ IH]; [now exists "" |].
    apply IHa in HR as [m1 H1]. destruct IH as [m2 H2].
    exists (m1 ++ m2)%string. rewrite H1, H2. clear.
    induction m1; simpl; congruence.
  - intros [-> _]. now exists "".
  - intros [-> _]. now exists "".
  - intros [-> _]. now exists "".
  - intros [-> _]. now exists "".
Qed.

Lemma matchHere_some (r : Re.regex) (prev : option ascii) (s : string) :
  (exists rest, Re.matchHere r prev s = Some rest)
  <-> exists y, Matches r (prev, s) y.
Proof.
  unfold Re.matchHere. rewrite matchAt_spec. split.
  - intros (y & Hy & _). now exists y.
  - intros [y Hy]. exists y. split; [exact Hy | now eexists].
Qed.

Lemma matchHere_none (r : Re.regex) (prev : option ascii) (s : string) :
  Re.matchHere r prev s = None <-> forall y, ~ Matches r (prev, s) y.
Proof.
  split.
  - intros Hn y Hy.
    destruct (proj2 (matchHere_some r prev s) (ex_intro _ y Hy)) as [v Hv].
    congruence.
  - intros Hno. destruct (Re.matchHere r prev s) as [rest|] eqn:Hm;
      [| reflexivity].
    destruct (proj1 (matchHere_some r prev s) (ex_intro _ rest Hm))
      as [y Hy]. now destruct (Hno y).
Qed.

(** ** What the patterns of the file match *)

Lemma append_assoc (a b c : string) :
  ((a ++ b) ++ c = a ++ (b ++ c))%string.
Proof. induction a; simpl; congruence. Qed.

Lemma append_nil_r (a : string) : (a ++ "")%string = a.
Proof. induction a; simpl; congruence. Qed.

Lemma occurs_app (c : ascii) (a b : string) :
  occurs c (a ++ b) = occurs c a || occurs c b.
Proof.
  induction a as [|x a IH]; simpl; [reflexivity |].
  now rewrite IH, orb_assoc.
Qed.

Lemma allChars_app (p : ascii -> bool) (a b : string) :
  allChars p (a ++ b) = allChars p a && allChars p b.
Proof.
  induction a as [|x a IH]; simpl; [reflexivity |].
  now rewrite IH, andb_assoc.
Qed.

Lemma charBefore_app (prev : option ascii) (a b : string) :
  charBefore prev (a ++ b) = charBefore (charBefore prev a) b.
Proof. revert prev. induction a as [|x a IH]; intros prev; simpl; auto. Qed.

(** A run of characters of a class. *)
Lemma Iter_chars (p : ascii -> bool) (x y : position) :
  Iter (Matches (Re.Chr p)) x y
  <-> exists m, allChars p m = true
                /\ snd x = (m ++ snd y)%string
                /\ fst y = charBefore (fst x) m.
Proof.
  split.
  - induction 1 as [x|x y z (c & Hs & Hp & Hf) _ _ (m & Hm & Hs' & Hf')].
    + now exists "".
    + exists (String c m). cbn [allChars charBefore append].
      rewrite Hp, Hm, Hs, Hs', Hf', Hf. auto.
  - intros (m & Hm & Hs & Hf). revert x Hm Hs Hf.
    induction m as [|c m IH]; intros [px sx] Hm Hs Hf; cbn in *.
    + destruct y as [py sy]. cbn in *. subst. constructor.
    + apply andb_prop in Hm as [Hc Hm].
      apply (IterStep _ (px, sx) (Some c, (m ++ snd y)%string) y).
      * exists c. cbn. auto.
      * cbn. rewrite Hs. cbn. lia.
      * apply IH; auto.
Qed.

Lemma Matches_plus_chars (p : ascii -> bool) (x y : position) :
  Matches (Re.Plus (Re.Chr p)) x y
  <-> exists m, m <> EmptyString /\ allChars p m = true
                /\ snd x = (m ++ snd y)%string
                /\ fst y = charBefore (fst x) m.
Proof.
  unfold Re.Plus. cbn [Matches]. split.
  - intros (z & (c & Hs & Hp & Hf) & Hit).
    apply Iter_chars in Hit as (m & Hm & Hs' & Hf').
    exists (String c m). cbn [allChars charBefore append].
    rewrite Hp, Hm, Hs, Hs', Hf', Hf. repeat split; auto. discriminate.
  - intros (m & Hne & Hm & Hs & Hf).
    destruct m as [|c m]; [congruence |]. cbn in Hm, Hs, Hf.
    apply andb_prop in Hm as [Hc Hm].
    exists (Some c, (m ++ snd y)%string). split.
    + exists c. cbn. auto.
    + apply Iter_chars. exists m. cbn. auto.
Qed.

Lemma Matches_chr (c : ascii) (x y : position) :
  Matches (Re.chr c) x y
  <-> snd x = String c (snd y) /\ fst y = Some c.
Proof.
  unfold Re.chr. cbn [Matches]. split.
  - intros (c' & Hs & Hc & Hf). apply Ascii.eqb_eq in Hc. subst c'. auto.
  - intros [Hs Hf]. exists c. rewrite Ascii.eqb_refl. auto.
Qed.

(** A literal, in any letter case. *)
Lemma Matches_lit (p : string) (x y : position) :
  Matches (Re.lit p) x y
  <-> exists m, sameLetters m p = true
                /\ snd x = (m ++ snd y)%string
                /\ fst y = charBefore (fst x) m.
Proof.
  revert x. induction p as [|c p IH]; intros x; cbn [Re.lit Matches].
  - split.
    + intros ->. now exists "".
    + intros (m & Hm & Hs & Hf). destruct m; [| discriminate].
      destruct x, y. cbn in *. now subst.
  - split.
    + intros (z & (c' & Hs & Hc & Hf) & Hrest).
      apply IH in Hrest as (m & Hm & Hs' & Hf').
      exists (String c' m). cbn [sameLetters charBefore append].
      rewrite Hc, Hm, Hs, Hs', Hf', Hf. auto.
    + intros (m & Hm & Hs & Hf).
      destruct m as [|c' m]; [discriminate |]. cbn in Hm, Hs, Hf.
      apply andb_prop in Hm as [Hc Hm].
      exists (Some c', (m ++ snd y)%string). split.
      * exists c'. cbn. auto.
      * apply IH. exists m. cbn. auto.
Qed.

(** [test]: there is a match somewhere. *)
Lemma searchFrom_spec (r : Re.regex) (s : string) (prev : option ascii) :
  Re.searchFrom r prev s = true
  <-> exists a b y,
        s = (a ++ b)%string /\ Matches r (charBefore prev a, b) y.
Proof.
  revert prev. induction s as [|c s IH]; intros prev; cbn [Re.searchFrom].
  - destruct (Re.matchHere r prev "") as [rest|] eqn:Hm.
    + split; [intros _ | reflexivity].
      destruct (proj1 (matchHere_some r prev "") (ex_intro _ rest Hm))
        as [y Hy]. now exists "", "", y.
    + split; [discriminate |]. intros (a & b & y & Hs & Hy).
      destruct a; [| discriminate]. cbn in Hs. subst b.
      exfalso. exact (proj1 (matchHere_none r prev "") Hm y Hy).
  - destruct (Re.matchHere r prev (String c s)) as [rest|] eqn:Hm.
    + split; [intros _ | reflexivity].
      destruct (proj1 (matchHere_some r prev _) (ex_intro _ rest Hm))
        as [y Hy]. now exists "", (String c s), y.
    + rewrite IH. split.
      * intros (a & b & y & Hs & Hy). exists (String c a), b, y.
        cbn. now rewrite Hs.
      * intros (a & b & y & Hs & Hy). destruct a as [|c' a].
        -- cbn in Hs, Hy. subst b.
           exfalso. exact (proj1 (matchHere_none r prev _) Hm y Hy).
        -- cbn in Hs, Hy. injection Hs as <- ->. now exists a, b, y.
Qed.

(** [replace]: where nothing matches, nothing is removed. *)
Lemma removeFrom_no_match (r : Re.regex) (s : string) :
  (forall a b prev y, s = (a ++ b)%string -> ~ Matches r (prev, b) y) ->
  forall prev, Re.removeFrom r O prev s = s.
Proof.
  induction s as [|c s IH]; intros Hno prev; cbn [Re.removeFrom];
    [reflexivity |].
  assert (Hm : Re.matchHere r prev (String c s) = None).
  { apply matchHere_none. intros y. now apply (Hno "" (String c s)). }
  rewrite Hm. f_equal. apply IH.
  intros a b p y Hs. apply (Hno (String c a) b). cbn. now rewrite Hs.
Qed.

Lemma sameLetters_occurs (c : ascii) (m p : string) :
  (forall x, Re.upper x = Re.upper c -> x = c) ->
  sameLetters m p = true -> occurs c p = true -> occurs c m = true.
Proof.
  intros Hc. revert p. induction m as [|x m IH]; intros [|y p] Hm Ho;
    cbn in *; try discriminate.
  apply andb_prop in Hm as [Hxy Hm]. apply Ascii.eqb_eq in Hxy.
  apply orb_true_iff in Ho as [Ho|Ho].
  - apply Ascii.eqb_eq in Ho. subst y. apply Hc in Hxy. subst x.
    now rewrite Ascii.eqb_refl.
  - rewrite (IH p Hm Ho). apply orb_true_r.
Qed.

Lemma upper_colon (x : ascii) : Re.upper x = Re.upper ":" -> x = ":"%char.
Proof.
  destruct x as [[] [] [] [] [] [] [] []]; vm_compute; congruence.
Qed.

Lemma upper_lt (x : ascii) : Re.upper x = Re.upper "<" -> x = "<"%char.
Proof.
  destruct x as [[] [] [] [] [] [] [] []]; vm_compute; congruence.
Qed.

(** A match of a literal that holds a colon holds a colon. *)
Lemma lit_has_colon (p : string) (x y : position) :
  occurs ":" p = true ->
  Matches (Re.lit p) x y -> occurs ":" (snd x) = true.
Proof.
  intros Hp H. apply Matches_lit in H as (m & Hm & Hs & _). rewrite Hs.
  rewrite occurs_app, (sameLetters_occurs ":" m p upper_colon Hm Hp).
  reflexivity.
Qed.

(** A match of the handler pattern holds an equals sign. *)
Lemma handler_has_equals (x y : position) :
  Matches Filters.handlerRe x y -> occurs "=" (snd x) = true.
Proof.
  unfold Filters.handlerRe. cbn [Matches].
  intros (z1 & H1 & z2 & H2 & z3 & H3 & H4).
  apply Matches_suffix in H1 as [m1 E1].
  change (exists m, Matches Filters.word z1 m
                    /\ Iter (Matches Filters.word) m z2)
    with (Matches (Re.Plus Filters.word) z1 z2) in H2.
  apply Matches_suffix in H2 as [m2 E2].
  apply (Matches_suffix (Re.Star Filters.space)) in H3 as [m3 E3].
  apply Matches_chr in H4 as [E4 _].
  rewrite E1, E2, E3, E4, !occurs_app. cbn. now rewrite !orb_true_r.
Qed.

(** A match of the script pattern holds an opening angle bracket. *)
Lemma script_has_lt (x y : position) :
  Matches Filters.scriptRe x y -> occurs "<" (snd x) = true.
Proof.
  unfold Filters.scriptRe. cbn [Matches].
  intros (z1 & H1 & _).
  apply Matches_lit in H1 as (m & Hm & Hs & _). rewrite Hs.
  rewrite occurs_app, (sameLetters_occurs "<" m "<script" upper_lt Hm eq_refl).
  reflexivity.
Qed.

Lemma occurs_suffix (c : ascii) (a b : string) :
  occurs c (a ++ b) = false -> occurs c b = false.
Proof.
  rewrite occurs_app. intros H. now apply orb_false_elim in H.
Qed.

Lemma remove_without (r : Re.regex) (c : ascii) (s : string) :
  (forall x y, Matches r x y -> occurs c (snd x) = true) ->
  occurs c s = false -> Re.remove r s = s.
Proof.
  intros Hr Hs. unfold Re.remove. apply removeFrom_no_match.
  intros a b prev y -> Hm. apply Hr in Hm. cbn in Hm.
  apply occurs_suffix in Hs. congruence.
Qed.

(** Plain text passes the sanitizers unchanged but for the trim:
    [sanitizeInput] returns the trimmed text when it holds no colon and
    no equals sign, and so does [sanitizeEmailContent] when, besides, it
    holds no opening angle bracket. *)
Theorem plain_text_is_only_trimmed (s : string) :
  occurs ":" s = false -> occurs "=" s = false ->
  Filters.sanitizeInput (Some s) = Js.trim s
  /\ (occurs "<" s = false ->
      Filters.sanitizeEmailContent (Some s) = Js.trim s).
Proof.
  intros Hc He.
  assert (Hjs : Re.remove Filters.javascriptRe s = s)
    by (apply (remove_without _ ":");
        [intros x y; now apply lit_has_colon | exact Hc]).
  assert (Hh : Re.remove Filters.handlerRe s = s)
    by (apply (remove_without _ "=");
        [apply handler_has_equals | exact He]).
  assert (Hvb : Re.remove Filters.vbscriptRe s = s)
    by (apply (remove_without _ ":");
        [intros x y; now apply lit_has_colon | exact Hc]).
  assert (Hd : Re.remove Filters.dataUrlRe s = s)
    by (apply (remove_without _ ":");
        [intros x y; now apply lit_has_colon | exact Hc]).
  unfold Filters.sanitizeInput, Filters.sanitizeEmailContent,
    EmailServer.sanitizeInput, EmailServer.sanitizeEmailContent,
    Filters.cleanInput, Filters.cleanContent.
  destruct (Js.truthy s) eqn:Ht.
  - split.
    + now rewrite Hjs, Hh, Hvb, Hd.
    + intros Hlt.
      rewrite (remove_without _ "<" s script_has_lt Hlt).
      now rewrite Hjs, Hh, Hvb, Hd.
  - unfold Js.truthy in Ht. apply negb_false_iff, String.eqb_eq in Ht.
    subst s. now split.
Qed.

Lemma plain_text_is_only_trimmed_witness :
  Filters.sanitizeInput (Some "  Hello, world  ") = Js.trim "  Hello, world  "
  /\ (occurs "<" "  Hello, world  " = false ->
      Filters.sanitizeEmailContent (Some "  Hello, world  ")
      = Js.trim "  Hello, world  ").
Proof.
  apply (plain_text_is_only_trimmed "  Hello, world  "); reflexivity.
Defined.

Lemma charBefore_some (c : ascii) (m : string) :
  charBefore (Some c) m <> None.
Proof.
  revert c. induction m as [|x m IH]; intros c; cbn; [discriminate | apply IH].
Qed.

(** The addresses that [validateEmail] accepts: at most 254 characters,
    made of a local part, [@], and a domain with a dot inside it, where
    the three parts around the [@] and that dot are not empty and hold no
    white space and no further [@]; nothing else is accepted, and a
    missing address is not. *)
Theorem accepted_addresses (s : string) :
  Filters.validateEmail None = false
  /\ (Filters.validateEmail (Some s) = true
      <-> (String.length s <= 254)%nat
          /\ exists a b c,
               s = (a ++ "@" ++ b ++ "." ++ c)%string
               /\ a <> EmptyString /\ b <> EmptyString /\ c <> EmptyString
               /\ allChars addressOk a = true
               /\ allChars addressOk b = true
               /\ allChars addressOk c = true).
Proof.
  split; [reflexivity |].
  unfold Filters.validateEmail, EmailServer.validateEmail,
    Filters.emailRegex, Re.test.
  rewrite andb_true_iff, Nat.leb_le, searchFrom_spec.
  split.
  - intros [(a0 & b0 & y & Hs & Hm) Hlen]. split; [exact Hlen |].
    unfold Filters.emailRe in Hm. cbn [Matches] in Hm.
    destruct Hm as (z0 & [-> Hbol] & z1 & H1 & z2 & H2 & z3 & H3
                    & z4 & H4 & z5 & H5 & -> & Hend).
    cbn [fst snd] in Hbol.
    destruct a0 as [|c0 a0];
      [| cbn in Hbol; now destruct (charBefore_some c0 a0)].
    cbn in Hs. subst b0.
    change (exists m, Matches Filters.addressChar (charBefore None "", s) m
                      /\ Iter (Matches Filters.addressChar) m z1)
      with (Matches (Re.Plus Filters.addressChar) (charBefore None "", s) z1)
      in H1.
    change (exists m, Matches Filters.addressChar z2 m
                      /\ Iter (Matches Filters.addressChar) m z3)
      with (Matches (Re.Plus Filters.addressChar) z2 z3) in H3.
    change (exists m, Matches Filters.addressChar z4 m
                      /\ Iter (Matches Filters.addressChar) m z5)
      with (Matches (Re.Plus Filters.addressChar) z4 z5) in H5.
    apply Matches_plus_chars in H1 as (a & Ha & Hpa & E1 & _).
    apply Matches_chr in H2 as [E2 _].
    apply Matches_plus_chars in H3 as (b & Hb & Hpb & E3 & _).
    apply Matches_chr in H4 as [E4 _].
    apply Matches_plus_chars in H5 as (c & Hc & Hpc & E5 & _).
    cbn [snd] in E1. rewrite Hend, append_nil_r in E5.
    exists a, b, c. rewrite E1, E2. cbn [append]. rewrite E3, E4.
    cbn [append]. rewrite E5. repeat split; auto.
  - intros (Hlen & a & b & c & Hs & Ha & Hb & Hc & Hpa & Hpb & Hpc).
    split; [| exact Hlen].
    exists "", s, (charBefore (Some "."%char) c, ""). split; [reflexivity |].
    unfold Filters.emailRe. cbn [Matches charBefore].
    exists (None, s). split; [now split |].
    exists (charBefore None a, ("@" ++ b ++ "." ++ c)%string). split.
    { apply Matches_plus_chars. exists a. now repeat split. }
    exists (Some "@"%char, (b ++ "." ++ c)%string). split.
    { apply Matches_chr. now split. }
    exists (charBefore (Some "@"%char) b, ("." ++ c)%string). split.
    { apply Matches_plus_chars. exists b. now repeat split. }
    exists (Some "."%char, c). split.
    { apply Matches_chr. now split. }
    exists (charBefore (Some "."%char) c, ""). split.
    { apply Matches_plus_chars. exists c. cbn. rewrite append_nil_r.
      now repeat split. }
    now split.
Qed.

Lemma sameLetters_nonempty (x p : string) :
  sameLetters x p = true -> p <> EmptyString -> x <> EmptyString.
Proof. destruct x, p; cbn; congruence. Qed.

Lemma append_nonempty (a x b : string) :
  x <> EmptyString -> (a ++ x ++ b)%string <> EmptyString.
Proof. destruct a, x; cbn; congruence. Qed.

Lemma test_lit (p a x b : string) :
  sameLetters x p = true -> Re.test (Re.lit p) (a ++ x ++ b) = true.
Proof.
  intros Hx. unfold Re.test. apply searchFrom_spec.
  exists a, (x ++ b)%string, (charBefore (charBefore None a) x, b).
  split; [reflexivity |]. apply Matches_lit. exists x. now repeat split.
Qed.

Lemma test_handler (a o w sp b : string) :
  sameLetters o "on" = true -> w <> EmptyString ->
  allChars Re.isWordChar w = true -> allChars Js.isWhiteSpace sp = true ->
  Re.test Filters.handlerRe (a ++ o ++ w ++ sp ++ "=" ++ b) = true.
Proof.
  intros Ho Hw Hpw Hsp. unfold Re.test. apply searchFrom_spec.
  set (p0 := charBefore None a). set (p1 := charBefore p0 o).
  set (p2 := charBefore p1 w). set (p3 := charBefore p2 sp).
  exists a, (o ++ w ++ sp ++ "=" ++ b)%string, (Some "="%char, b).
  split; [reflexivity |]. fold p0.
  unfold Filters.handlerRe. cbn [Matches].
  exists (p1, (w ++ sp ++ "=" ++ b)%string). split.
  { apply Matches_lit. exists o. now repeat split. }
  exists (p2, (sp ++ "=" ++ b)%string). split.
  { apply (proj2 (Matches_plus_chars Re.isWordChar _ _)).
    exists w. now repeat split. }
  exists (p3, ("=" ++ b)%string). split.
  { apply (proj2 (Iter_chars Js.isWhiteSpace _ _)).
    exists sp. now repeat split. }
  apply Matches_chr. now split.
Qed.

(** What looks dangerous is dangerous for [validateInput]. *)
Lemma looksDangerous_dangerous (s : string) :
  looksDangerous s -> Filters.dangerous s = true /\ s <> EmptyString.
Proof.
  intros [(a & x & b & p & -> & Hp & Hx) | (a & o & w & sp & b & -> & Ho
                                            & Hw & Hpw & Hsp)].
  - split.
    + unfold Filters.dangerous, Filters.dangerousPatterns, Filters.javascriptRe.
      cbn [existsb]. unfold forbiddenTexts in Hp. cbn [In] in Hp.
      destruct Hp as [<- | [<- | [<- | [<- | [<- | [<- | []]]]]]];
        rewrite (test_lit _ a x b Hx); now rewrite ?orb_true_r.
    + apply append_nonempty. apply (sameLetters_nonempty x p Hx).
      unfold forbiddenTexts in Hp. cbn [In] in Hp.
      destruct Hp as [<- | [<- | [<- | [<- | [<- | [<- | []]]]]]];
        discriminate.
  - split.
    + unfold Filters.dangerous, Filters.dangerousPatterns. cbn [existsb].
      rewrite (test_handler a o w sp b Ho Hw Hpw Hsp).
      now rewrite ?orb_true_r.
    + apply append_nonempty. now apply (sameLetters_nonempty o "on" Ho).
Qed.

(** A request whose subject looks dangerous goes no further: whatever its
    other fields, once the two addresses are accepted the server answers
    400 'Invalid subject data', and the logs file is not touched.  This
    holds for a subject such as 'money = time' as well. *)
Theorem dangerous_subject_is_refused (clock : nat -> Z)
    (randomHex : nat -> string) (writeOk : nat -> bool)
    (verify : nat -> SmtpOptions -> option JsError)
    (sendMail : nat -> SmtpOptions -> MailOptions -> JsError + SendInfo)
    (cfg : EmailServer.EmailConfigBody) (data : EmailServer.EmailDataBody)
    (subject : string) (d : EmailServer.Disk) :
  Filters.validateEmail (EmailServer.d_from data) = true ->
  Filters.validateEmail (EmailServer.d_to data) = true ->
  EmailServer.d_subject data = Some subject ->
  looksDangerous subject ->
  filteredSendEmail clock randomHex writeOk verify sendMail
    {| EmailServer.b_emailConfig := Some cfg;
       EmailServer.b_emailData := Some data |} d
  = (d, EmailServer.Failure 400 "Invalid subject data").
Proof.
  intros Hfrom Hto Hsub Hdanger.
  apply looksDangerous_dangerous in Hdanger as [Hd Hne].
  unfold filteredSendEmail, EmailServer.sendEmail.
  cbn [EmailServer.b_emailConfig EmailServer.b_emailData].
  unfold Filters.validateEmail in Hfrom, Hto. rewrite Hfrom, Hto, Hsub.
  cbn [negb orb]. unfold EmailServer.validateInput.
  apply String.eqb_neq in Hne. rewrite Hne, Hd.
  now destruct (200 <? String.length subject)%nat.
Qed.

Lemma dangerous_subject_is_refused_witness :
  filteredSendEmail zeroTime tickHex diskOk (verifyFails loginRefused)
    delivered
    {| EmailServer.b_emailConfig := Some config587;
       EmailServer.b_emailData :=
         Some {| EmailServer.d_emailType := Some "website";
                 EmailServer.d_from := Some "ops@example.com";
                 EmailServer.d_password := Some "secret";
                 EmailServer.d_to := Some "a@x.com";
                 EmailServer.d_cc := None;
                 EmailServer.d_subject := Some "money = time";
                 EmailServer.d_content := Some "<p>Hello</p>";
                 EmailServer.d_domain := Some "smtp.example.com";
                 EmailServer.d_smtpPort := Some "587" |} |} freshDisk
  = (freshDisk, EmailServer.Failure 400 "Invalid subject data").
Proof.
  apply (dangerous_subject_is_refused zeroTime tickHex diskOk
           (verifyFails loginRefused) delivered config587 _ "money = time").
  - vm_compute. reflexivity.
  - vm_compute. reflexivity.
  - reflexivity.
  - right. exists "m", "on", "ey", " ", " time".
    repeat split; try reflexivity. discriminate.
Defined.

(** ** The replacements are made once *)

Lemma length_append (a b : string) :
  String.length (a ++ b) = (String.length a + String.length b)%nat.
Proof. induction a; simpl; congruence. Qed.

Lemma removeFrom_miss (r : Re.regex) (prev : option ascii) (c : ascii)
    (s : string) :
  Re.matchHere r prev (String c s) = None ->
  Re.removeFrom r O prev (String c s)
  = String c (Re.removeFrom r O (Some c) s).
Proof. intros H. cbn [Re.removeFrom]. now rewrite H. Qed.

Lemma removeFrom_skip (r : Re.regex) (m rest : string) :
  forall prev,
    Re.removeFrom r (String.length m) prev (m ++ rest)
    = Re.removeFrom r O (charBefore prev m) rest.
Proof.
  induction m as [|c m IH]; intros prev; cbn [String.length append charBefore].
  - reflexivity.
  - cbn [Re.removeFrom]. apply IH.
Qed.

Lemma removeFrom_hit (r : Re.regex) (prev : option ascii) (c : ascii)
    (m rest : string) :
  Re.matchHere r prev (String c (m ++ rest)) = Some rest ->
  Re.removeFrom r O prev (String c (m ++ rest))
  = Re.removeFrom r O (charBefore (Some c) m) rest.
Proof.
  intros H. cbn [Re.removeFrom]. rewrite H.
  replace (String.length (String c (m ++ rest)) - String.length rest)%nat
    with (S (String.length m))
    by (cbn [String.length]; rewrite length_append; lia).
  apply removeFrom_skip.
Qed.

Lemma removeFrom_without (r : Re.regex) (c : ascii) (s : string)
    (prev : option ascii) :
  (forall x y, Matches r x y -> occurs c (snd x) = true) ->
  occurs c s = false -> Re.removeFrom r O prev s = s.
Proof.
  intros Hr Hs. apply removeFrom_no_match.
  intros a b p y -> Hm. apply Hr in Hm. cbn in Hm.
  apply occurs_suffix in Hs. congruence.
Qed.

Ltac miss := rewrite removeFrom_miss by (vm_compute; reflexivity).

(** The sanitizer can rebuild what it removes.  Each pattern is removed
    in one pass, so the text that closes around a removed match is not
    looked at again: for every [x] without colon and equals sign,
    [sanitizeInput] turns [javajavascript:script:] followed by [x] into
    [javascript:] followed by [x] (trimmed at its end). *)
Theorem sanitizer_rebuilds_what_it_removes (x : string) :
  occurs ":" x = false -> occurs "=" x = false ->
  Filters.sanitizeInput (Some ("javajavascript:script:" ++ x))
  = ("javascript:" ++ Js.trimEnd x)%string.
Proof.
  intros Hc He.
  unfold Filters.sanitizeInput, EmailServer.sanitizeInput.
  replace (Js.truthy ("javajavascript:script:" ++ x)) with true
    by reflexivity.
  unfold Filters.cleanInput.
  assert (E1 : Re.remove Filters.javascriptRe ("javajavascript:script:" ++ x)
               = ("javascript:" ++ x)%string).
  { unfold Re.remove. cbn [append]. do 4 miss.
    rewrite (removeFrom_hit _ _ "j" "avascript:" ("script:" ++ x))
      by (vm_compute; reflexivity).
    cbn [append charBefore]. do 7 miss.
    rewrite (removeFrom_without _ ":" x); [reflexivity | | exact Hc].
    intros p q. now apply lit_has_colon. }
  assert (E2 : Re.remove Filters.handlerRe ("javascript:" ++ x)
               = ("javascript:" ++ x)%string).
  { apply (remove_without _ "="); [apply handler_has_equals |].
    rewrite occurs_app, He. reflexivity. }
  assert (E3 : Re.remove Filters.vbscriptRe ("javascript:" ++ x)
               = ("javascript:" ++ x)%string).
  { unfold Re.remove. cbn [append]. do 11 miss.
    rewrite (removeFrom_without _ ":" x); [reflexivity | | exact Hc].
    intros p q. now apply lit_has_colon. }
  assert (E4 : Re.remove Filters.dataUrlRe ("javascript:" ++ x)
               = ("javascript:" ++ x)%string).
  { unfold Re.remove. cbn [append]. do 11 miss.
    rewrite (removeFrom_without _ ":" x); [reflexivity | | exact Hc].
    intros p q. now apply lit_has_colon. }
  rewrite E1, E2, E3, E4. reflexivity.
Qed.

Lemma sanitizer_rebuilds_what_it_removes_witness :
  Filters.sanitizeInput (Some ("javajavascript:script:" ++ "alert(1) "))
  = ("javascript:" ++ Js.trimEnd "alert(1) ")%string.
Proof.
  apply (sanitizer_rebuilds_what_it_removes "alert(1) "); reflexivity.
Defined.

(* ================================================================== *)
(** ** What an attempt leaves in the logs                              *)
(* ================================================================== *)

Section Attempts.

Variable cleanInput : string -> string.
Variable cleanContent : string -> string.
Variable emailRegex : string -> bool.
Variable dangerous : string -> bool.
Variable clock : nat -> Z.
Variable randomHex : nat -> string.
Variable writeOk : nat -> bool.
Variable verify : nat -> SmtpOptions -> option JsError.
Variable sendMail : nat -> SmtpOptions -> MailOptions -> JsError + SendInfo.

Abbreviation handler :=
  (EmailServer.sendEmail cleanInput cleanContent emailRegex dangerous clock
     randomHex writeOk verify sendMail).
Abbreviation logAttempt :=
  (EmailServer.logEmailAttempt cleanInput cleanContent clock randomHex writeOk).
Abbreviation handlerCatch :=
  (EmailServer.sendEmailCatch cleanInput cleanContent clock randomHex writeOk).

(** With a readable file and a file system that writes, an attempt is
    logged. *)
Lemma logAttempt_grows (cfg : EmailServer.EmailConfigBody)
    (data : EmailServer.EmailDataBody) (d : EmailServer.Disk) :
  (forall k, writeOk k = true) ->
  EmailServer.file d <> EmailServer.Unreadable ->
  exists d' logId,
    logAttempt (Some cfg) (Some data) d = (d', inr logId)
    /\ EmailServer.file d' <> EmailServer.Unreadable
    /\ List.length (storedLogs d') = S (List.length (storedLogs d)).
Proof.
  intros Hw Hfile.
  destruct (logAttempt (Some cfg) (Some data) d) as [d' [err|logId]] eqn:Hlog.
  - exfalso. revert Hlog. unfold EmailServer.logEmailAttempt,
      EmailServer.loadLogs, EmailServer.saveLogs.
    rewrite Hw. destruct (EmailServer.file d); [| congruence |]; discriminate.
  - exists d', logId. split; [reflexivity |].
    destruct (logEmailAttempt_stored cleanInput cleanContent clock randomHex
                writeOk cfg data d d' logId Hlog)
      as (x & e & Hf & Hl & _).
    split; [rewrite Hf; discriminate |].
    unfold storedLogs at 1. rewrite Hf, Hl, length_app. cbn. lia.
Qed.

Lemma updateLogStatus_quiet (logId status : string)
    (messageId error : option string) (d : EmailServer.Disk) :
  (forall k, writeOk k = true) ->
  EmailServer.file d <> EmailServer.Unreadable ->
  snd (EmailServer.updateLogStatus cleanInput clock writeOk logId status
         messageId error d) = None
  /\ EmailServer.file
       (fst (EmailServer.updateLogStatus cleanInput clock writeOk logId status
               messageId error d)) <> EmailServer.Unreadable.
Proof.
  intros Hw Hfile. unfold EmailServer.updateLogStatus.
  destruct (EmailServer.loadLogs clock d) as [x|]; [| now split].
  destruct (find _ _); [| now split].
  unfold EmailServer.saveLogs. rewrite Hw. cbn. split; [reflexivity |].
  discriminate.
Qed.

(** The [catch] block logs once more. *)
Lemma handlerCatch_grows (cfg : EmailServer.EmailConfigBody)
    (data : EmailServer.EmailDataBody) (error : JsError)
    (d : EmailServer.Disk) :
  (forall k, writeOk k = true) ->
  EmailServer.file d <> EmailServer.Unreadable ->
  List.length
    (storedLogs
       (fst (handlerCatch
               {| EmailServer.b_emailConfig := Some cfg;
                  EmailServer.b_emailData := Some data |} error d)))
  = S (List.length (storedLogs d)).
Proof.
  intros Hw Hfile. unfold EmailServer.sendEmailCatch.
  cbn [EmailServer.b_emailConfig EmailServer.b_emailData fst].
  destruct (logAttempt_grows cfg data d Hw Hfile)
    as (d' & logId & -> & _ & Hlen).
  now rewrite (updateLogStatus_length cleanInput clock writeOk).
Qed.

(** Every attempt is counted, and a failed one twice: with a logs file
    that can be read and written, a request that is refused with 400 adds
    no entry, a request that is sent adds one, and a request that fails
    after the checks adds two (the pending entry written before the send,
    and the entry written by the [catch] block). *)
Theorem attempts_are_counted (body : EmailServer.Body)
    (d : EmailServer.Disk) :
  (forall k, writeOk k = true) ->
  EmailServer.file d <> EmailServer.Unreadable ->
  List.length (storedLogs (fst (handler body d)))
  = (List.length (storedLogs d)
     + match snd (handler body d) with
       | EmailServer.Success _ => 1
       | EmailServer.Failure st _ => if (st =? 400)%Z then 0 else 2
       end)%nat.
Proof.
  intros Hw Hfile. unfold EmailServer.sendEmail.
  destruct body as [[cfg|] [data|]];
    cbn [EmailServer.b_emailConfig EmailServer.b_emailData];
    try (cbn; lia).
  destruct (negb _ || negb _); [cbn; lia |].
  destruct (negb (EmailServer.validateInput dangerous
                    (EmailServer.d_subject data) 200)); [cbn; lia |].
  destruct (negb _ || negb _); [cbn; lia |].
  destruct (logAttempt_grows cfg data d Hw Hfile)
    as (d1 & logId & -> & Hfile1 & Hlen1).
  assert (Hcatch : forall error,
    List.length
      (storedLogs
         (fst (handlerCatch
                 {| EmailServer.b_emailConfig := Some cfg;
                    EmailServer.b_emailData := Some data |} error d1)))
    = (List.length (storedLogs d)
       + match snd (handlerCatch
                      {| EmailServer.b_emailConfig := Some cfg;
                         EmailServer.b_emailData := Some data |} error d1) with
         | EmailServer.Success _ => 1
         | EmailServer.Failure st _ => if (st =? 400)%Z then 0 else 2
         end)%nat).
  { intros error. rewrite (handlerCatch_grows cfg data error d1 Hw Hfile1).
    cbn. lia. }
  destruct (EmailServer.cfg_auth cfg) as [a|]; [| apply Hcatch].
  destruct (verify _ _) as [error|]; [apply Hcatch |].
  destruct (sendMail _ _ _) as [error|info]; [apply Hcatch |].
  pose proof (updateLogStatus_quiet logId "success"
                (Some (info_messageId info)) None d1 Hw Hfile1) as [Hq _].
  pose proof (updateLogStatus_length cleanInput clock writeOk logId "success"
                (Some (info_messageId info)) None d1) as Hl.
  destruct (EmailServer.updateLogStatus _ _ _ _ _ _ _ d1) as [d2 [error|]];
    cbn [fst snd] in *; [discriminate |].
  rewrite Hl. lia.
Qed.

Lemma updateFound_ids (logId status : string)
    (messageId error : option string) (l : list EmailServer.LogEntry) :
  map EmailServer.id
    (EmailServer.updateFound cleanInput logId status messageId error l)
  = map EmailServer.id l.
Proof.
  induction l as [|e l IH]; simpl; [reflexivity |].
  destruct (EmailServer.id e =? logId)%string; simpl; congruence.
Qed.

Lemma updateFound_last (logId status : string)
    (messageId error : option string) (l : list EmailServer.LogEntry)
    (e : EmailServer.LogEntry) :
  ~ In logId (map EmailServer.id l) -> EmailServer.id e = logId ->
  EmailServer.updateFound cleanInput logId status messageId error (l ++ [e])
  = (l ++ [EmailServer.finalized cleanInput e status messageId error])%list.
Proof.
  intros Hfresh He. induction l as [|a l IH]; simpl.
  - rewrite He, String.eqb_refl. reflexivity.
  - destruct (EmailServer.id a =? logId)%string eqn:Ha.
    + apply String.eqb_eq in Ha. exfalso. apply Hfresh. now left.
    + f_equal. apply IH. intros H. apply Hfresh. now right.
Qed.

(** What the [catch] block leaves in a file that can be read and
    written: one more entry, and the first entry that has its id set to
    'failed'. *)
Lemma handlerCatch_logs (cfg : EmailServer.EmailConfigBody)
    (data : EmailServer.EmailDataBody) (error : JsError)
    (d : EmailServer.Disk) :
  (forall k, writeOk k = true) ->
  EmailServer.file d <> EmailServer.Unreadable ->
  exists e : EmailServer.LogEntry,
    EmailServer.log_status e = "pending"
    /\ storedLogs
         (fst (handlerCatch
                 {| EmailServer.b_emailConfig := Some cfg;
                    EmailServer.b_emailData := Some data |} error d))
       = EmailServer.updateFound cleanInput (EmailServer.id e) "failed" None
           (Some (message error)) (storedLogs d ++ [e]).
Proof.
  intros Hw Hfile. unfold EmailServer.sendEmailCatch.
  cbn [EmailServer.b_emailConfig EmailServer.b_emailData fst].
  destruct (logAttempt_grows cfg data d Hw Hfile)
    as (d' & logId & Hlog & _ & _).
  rewrite Hlog.
  destruct (logEmailAttempt_stored cleanInput cleanContent clock randomHex
              writeOk cfg data d d' logId Hlog)
    as (x & e & Hf & Hl & Hid & Hst & _).
  exists e. split; [exact Hst |].
  unfold EmailServer.updateLogStatus, EmailServer.loadLogs. rewrite Hf, Hl.
  destruct (find_last_some
              (fun log => (EmailServer.id log =? logId)%string)
              (storedLogs d) e) as (y & ->).
  { rewrite Hid. apply String.eqb_refl. }
  unfold EmailServer.saveLogs. rewrite Hw. cbn [fst].
  unfold storedLogs at 1. cbn [EmailServer.file EmailServer.logs].
  now rewrite Hid.
Qed.

(** A failed attempt is logged twice, and its first entry stays pending:
    with a logs file that can be read and written, a request that is
    answered 500 leaves two more entries in the file, the one written
    before the send, which is still 'pending', and after it the one
    written by the [catch] block, which is 'failed'; the entries that
    were there are as they were.  (The ids of the entries are taken to be
    distinct, as time and random bytes make them.) *)
Theorem failed_attempt_logs_twice (body : EmailServer.Body)
    (d : EmailServer.Disk) (err : string) :
  (forall k, writeOk k = true) ->
  EmailServer.file d <> EmailServer.Unreadable ->
  snd (handler body d) = EmailServer.Failure 500 err ->
  NoDup (map EmailServer.id (storedLogs (fst (handler body d)))) ->
  exists e1 e2 : EmailServer.LogEntry,
    storedLogs (fst (handler body d)) = (storedLogs d ++ [e1; e2])%list
    /\ EmailServer.log_status e1 = "pending"
    /\ EmailServer.log_status e2 = "failed".
Proof.
  intros Hw Hfile. unfold EmailServer.sendEmail.
  destruct body as [[cfg|] [data|]];
    cbn [EmailServer.b_emailConfig EmailServer.b_emailData];
    try discriminate.
  destruct (negb _ || negb _); [discriminate |].
  destruct (negb (EmailServer.validateInput dangerous
                    (EmailServer.d_subject data) 200)); [discriminate |].
  destruct (negb _ || negb _); [discriminate |].
  destruct (logAttempt_grows cfg data d Hw Hfile)
    as (d1 & logId & Hlog & Hfile1 & _).
  rewrite Hlog.
  destruct (logEmailAttempt_stored cleanInput cleanContent clock randomHex
              writeOk cfg data d d1 logId Hlog)
    as (x1 & e1 & Hf1 & Hl1 & _ & Hst1 & _).
  assert (Hd1 : storedLogs d1 = (storedLogs d ++ [e1])%list).
  { unfold storedLogs at 1. now rewrite Hf1. }
  assert (Hcatch : forall error,
    snd (handlerCatch
           {| EmailServer.b_emailConfig := Some cfg;
              EmailServer.b_emailData := Some data |} error d1)
    = EmailServer.Failure 500 err ->
    NoDup (map EmailServer.id
             (storedLogs
                (fst (handlerCatch
                        {| EmailServer.b_emailConfig := Some cfg;
                           EmailServer.b_emailData := Some data |}
                        error d1)))) ->
    exists ea eb : EmailServer.LogEntry,
      storedLogs
        (fst (handlerCatch
                {| EmailServer.b_emailConfig := Some cfg;
                   EmailServer.b_emailData := Some data |} error d1))
      = (storedLogs d ++ [ea; eb])%list
      /\ EmailServer.log_status ea = "pending"
      /\ EmailServer.log_status eb = "failed").
  { intros error _ Hnodup.
    destruct (handlerCatch_logs cfg data error d1 Hw Hfile1)
      as (e2 & Hst2 & Hlogs).
    rewrite Hlogs in Hnodup |- *.
    rewrite updateFound_ids, map_app in Hnodup. cbn [map] in Hnodup.
    apply NoDup_remove_2 in Hnodup. rewrite app_nil_r in Hnodup.
    rewrite (updateFound_last _ _ _ _ _ e2 Hnodup eq_refl).
    exists e1, (EmailServer.finalized cleanInput e2 "failed" None
                  (Some (message error))).
    rewrite Hd1, <- app_assoc. split; [reflexivity |].
    split; [exact Hst1 | reflexivity]. }
  destruct (EmailServer.cfg_auth cfg) as [a|]; [| apply Hcatch].
  destruct (verify _ _) as [error|]; [apply Hcatch |].
  destruct (sendMail _ _ _) as [error|info]; [apply Hcatch |].
  pose proof (updateLogStatus_quiet logId "success"
                (Some (info_messageId info)) None d1 Hw Hfile1) as [Hq _].
  destruct (EmailServer.updateLogStatus _ _ _ _ _ _ _ d1) as [d2 [error|]];
    cbn [fst snd] in *; discriminate.
Qed.

(** A request that is refused with 400 leaves the logs file as it is,
    whatever the environment does. *)
Theorem refused_request_leaves_no_trace (body : EmailServer.Body)
    (d : EmailServer.Disk) (err : string) :
  snd (handler body d) = EmailServer.Failure 400 err ->
  fst (handler body d) = d.
Proof.
  unfold EmailServer.sendEmail.
  destruct (EmailServer.b_emailConfig body) as [cfg|]; [| reflexivity].
  destruct (EmailServer.b_emailData body) as [data|]; [| reflexivity].
  destruct (negb _ || negb _); [reflexivity |].
  destruct (negb (EmailServer.validateInput dangerous
                    (EmailServer.d_subject data) 200)); [reflexivity |].
  destruct (negb _ || negb _); [reflexivity |].
  destruct (logAttempt _ _ d) as [d1 [error|logId]]; [discriminate |].
  destruct (EmailServer.cfg_auth cfg) as [a|]; [| discriminate].
  destruct (verify _ _) as [error|]; [discriminate |].
  destruct (sendMail _ _ _) as [error|info]; [discriminate |].
  destruct (EmailServer.updateLogStatus _ _ _ _ _ _ _ d1) as [d2 [error|]];
    discriminate.
Qed.

End Attempts.

Lemma failed_attempt_logs_twice_witness :
  exists e1 e2 : EmailServer.LogEntry,
    storedLogs
      (fst (EmailServer.sendEmail keep keep anyAddress harmless zeroTime
              tickHex diskOk (verifyFails loginRefused) delivered
              helloRequest freshDisk))
    = (storedLogs freshDisk ++ [e1; e2])%list
    /\ EmailServer.log_status e1 = "pending"
    /\ EmailServer.log_status e2 = "failed".
Proof.
  apply (failed_attempt_logs_twice keep keep anyAddress harmless zeroTime
           tickHex diskOk (verifyFails loginRefused) delivered helloRequest
           freshDisk
           "Authentication failed. Please check your email and password.").
  - reflexivity.
  - discriminate.
  - reflexivity.
  - vm_compute. repeat constructor.
    + intros [H | []]. discriminate H.
    + intros [].
Defined.

Lemma attempts_are_counted_witness :
  List.length
    (storedLogs
       (fst (EmailServer.sendEmail keep keep anyAddress harmless zeroTime
               tickHex diskOk (verifyFails loginRefused) delivered
               helloRequest freshDisk)))
  = (List.length (storedLogs freshDisk) + 2)%nat.
Proof.
  apply (attempts_are_counted keep keep anyAddress harmless zeroTime tickHex
           diskOk (verifyFails loginRefused) delivered helloRequest freshDisk).
  - reflexivity.
  - discriminate.
Defined.

Lemma refused_request_leaves_no_trace_witness :
  fst (EmailServer.sendEmail keep keep (fun _ => false) harmless zeroTime
         tickHex diskOk (verifyFails loginRefused) delivered
         helloRequest onePending) = onePending.
Proof.
  apply (refused_request_leaves_no_trace keep keep (fun _ => false) harmless
           zeroTime tickHex diskOk (verifyFails loginRefused) delivered
           helloRequest onePending "Invalid email address format").
  reflexivity.
Defined.

(* ================================================================== *)
(** ** The page flags of the email history                             *)
(* ================================================================== *)




(* ================================================================== *)
(** ** The text part that is made from the html                        *)
(* ================================================================== *)

Lemma indexOfGt_none (s : string) :
  Js.indexOfGt s = None <-> occurs ">" s = false.
Proof.
  induction s as [|c s IH]; cbn; [tauto |].
  destruct (Ascii.eqb c ">"); cbn; [split; discriminate |].
  destruct (Js.indexOfGt s); [split; [discriminate | intros H] | tauto].
  apply IH in H. discriminate.
Qed.

Lemma stripTags_without_gt (s : string) :
  occurs ">" s = false -> Js.stripTagsFrom O s = s.
Proof.
  induction s as [|c s IH]; cbn; [reflexivity |].
  intros H. apply orb_false_elim in H as [_ H].
  rewrite (proj2 (indexOfGt_none s) H), (IH H).
  now destruct (Ascii.eqb c "<").
Qed.

Lemma stripTagsFrom_tagFree (s : string) :
  forall skip, tagFree (Js.stripTagsFrom skip s).
Proof.
  induction s as [|c s IH]; intros skip; cbn [Js.stripTagsFrom].
  - intros [|x a] b H; discriminate.
  - destruct skip as [|k]; [| apply IH].
    destruct (Ascii.eqb c "<") eqn:Hc.
    + destruct (Js.indexOfGt s) as [i|] eqn:Hi; [apply IH |].
      apply indexOfGt_none in Hi.
      rewrite (stripTags_without_gt s Hi).
      intros [|x a] b H; cbn in H; injection H as _ H.
      * now subst b.
      * rewrite H, occurs_app in Hi. apply orb_false_elim in Hi as [_ Hi].
        exact Hi.
    + intros [|x a] b H; cbn in H; injection H as Hx H.
      * subst c. discriminate.
      * now apply (IH O a b).
Qed.

(** The text part that the bulk route makes from the html holds no tag:
    when the request has no text of its own, the text part of every
    message is the html with every [<...>] removed, and in it no [<] is
    followed by a [>] any more. *)
Theorem text_part_has_no_tag (company : Company) (subject html : string)
    (r : Routes.Recipient) :
  exists t,
    mo_text (Routes.bulkMailOptions company subject html None r) = Some t
    /\ t = Js.stripTags html
    /\ tagFree t.
Proof.
  exists (Js.stripTags html). split; [reflexivity |].
  split; [reflexivity |]. apply stripTagsFrom_tagFree.
Qed.
